(** * ScoutFS: block layer (kmod/src/block.c) and cluster server
      (kmod/src/server.c), embedded as executable functions over explicit
      state. *)

From stdpp Require Import base option list gmap.
From Stdlib Require Import ZArith Lia Bool.

Open Scope Z_scope.

(** ** Integer widths and error numbers shared by both files *)

Definition U64_MAX : Z := 2 ^ 64 - 1.
Definition wrap64 (z : Z) : Z := z mod 2 ^ 64.
Definition wrap32 (z : Z) : Z := z mod 2 ^ 32.
Definition wrap8 (z : Z) : Z := z mod 2 ^ 8.

Definition ENOENT : Z := 2.
Definition EIO : Z := 5.
Definition ENOMEM : Z := 12.
Definition EEXIST : Z := 17.
Definition EINVAL : Z := 22.
Definition ENOSPC : Z := 28.

(** Little-endian decoding of a byte string, as [le64_to_cpu] sees the
    eight bytes copied out of a request payload. *)
Fixpoint le_to_cpu (bytes : list Z) : Z :=
  match bytes with
  | [] => 0
  | b :: rest => b + 256 * le_to_cpu rest
  end.

Fixpoint cpu_to_le (n : nat) (v : Z) : list Z :=
  match n with
  | O => []
  | S n' => v mod 256 :: cpu_to_le n' (v / 256)
  end.

(** Calls into collaborators whose code is not part of these files
    (allocator, B-tree blocks, memory allocation, super block I/O) can fail.
    A state carries the outcomes still to come: each such call consumes the
    head; an exhausted schedule means no further failure.  A failure is one
    of the errors such a call can meet on its way, never an answer of its
    own like ENOENT or EEXIST. *)
Inductive fault := NoFault | FailIO | FailNoMem | FailNoSpace.

Definition fault_errno (f : fault) : Z :=
  match f with
  | NoFault => 0
  | FailIO => - EIO
  | FailNoMem => - ENOMEM
  | FailNoSpace => - ENOSPC
  end.

Definition take_fault (faults : list fault) : Z * list fault :=
  match faults with
  | [] => (0, [])
  | f :: rest => (fault_errno f, rest)
  end.

(* ===================================================================== *)
(** ** block.c *)
(* ===================================================================== *)

Module Block.

Definition SCOUTFS_BLOCK_SIZE : Z := 4096.

(** [struct scoutfs_block_header]; field values are host integers, the
    le32/le64 conversions of the source are the identity on them. *)
Record scoutfs_block_header := mk_hdr {
  h_crc : Z;
  h_fsid : Z;
  h_blkno : Z;
  h_seq : Z
}.

(** The 4 KiB of [bh->b_data]: the header followed by the rest of the
    block. *)
Record block_data := mk_data {
  hdr : scoutfs_block_header;
  body : list Z
}.

Record scoutfs_block_ref := mk_ref {
  r_blkno : Z;
  r_seq : Z
}.

(** A buffer head of the kernel's cache.  [b_private] is set exactly while
    the buffer is linked into the dirty tree. *)
Record buffer_head := mk_bh {
  b_data : block_data;
  b_uptodate : bool;
  b_verified : bool;
  b_private : bool
}.

(** Modelled from the spec: buddy.c is absent.  Section 4.B: the allocator
    owns [avail] (blocks to allocate from) and [freed] (extents released and
    not yet reusable, kept with the seq they were freed under). *)
Record buddy := mk_buddy {
  avail : list Z;
  freed : list (Z * Z)
}.

(** [struct scoutfs_sb_info], with the buffer cache and the device
    contents it sits on.  Buffers are named by their [b_blocknr]. *)
Record scoutfs_sb_info := mk_sbi {
  super_hdr : scoutfs_block_header;
  stable_seq : Z;
  bufs : gmap Z buffer_head;
  disk : gmap Z block_data;
  block_dirty_tree : list Z;
  block_writes : Z;
  block_write_err : Z;
  bud : buddy;
  faults : list fault
}.

Definition set_bufs (sbi : scoutfs_sb_info) (m : gmap Z buffer_head) :=
  mk_sbi (super_hdr sbi) (stable_seq sbi) m (disk sbi) (block_dirty_tree sbi)
         (block_writes sbi) (block_write_err sbi) (bud sbi) (faults sbi).
Definition set_disk (sbi : scoutfs_sb_info) (d : gmap Z block_data) :=
  mk_sbi (super_hdr sbi) (stable_seq sbi) (bufs sbi) d (block_dirty_tree sbi)
         (block_writes sbi) (block_write_err sbi) (bud sbi) (faults sbi).
Definition set_dirty_tree (sbi : scoutfs_sb_info) (t : list Z) :=
  mk_sbi (super_hdr sbi) (stable_seq sbi) (bufs sbi) (disk sbi) t
         (block_writes sbi) (block_write_err sbi) (bud sbi) (faults sbi).
Definition set_block_writes (sbi : scoutfs_sb_info) (n : Z) :=
  mk_sbi (super_hdr sbi) (stable_seq sbi) (bufs sbi) (disk sbi)
         (block_dirty_tree sbi) n (block_write_err sbi) (bud sbi) (faults sbi).
Definition set_block_write_err (sbi : scoutfs_sb_info) (e : Z) :=
  mk_sbi (super_hdr sbi) (stable_seq sbi) (bufs sbi) (disk sbi)
         (block_dirty_tree sbi) (block_writes sbi) e (bud sbi) (faults sbi).
Definition set_bud (sbi : scoutfs_sb_info) (b : buddy) :=
  mk_sbi (super_hdr sbi) (stable_seq sbi) (bufs sbi) (disk sbi)
         (block_dirty_tree sbi) (block_writes sbi) (block_write_err sbi) b
         (faults sbi).
Definition set_faults (sbi : scoutfs_sb_info) (f : list fault) :=
  mk_sbi (super_hdr sbi) (stable_seq sbi) (bufs sbi) (disk sbi)
         (block_dirty_tree sbi) (block_writes sbi) (block_write_err sbi)
         (bud sbi) f.

Definition next_fault (sbi : scoutfs_sb_info) : Z * scoutfs_sb_info :=
  let '(f, rest) := take_fault (faults sbi) in (f, set_faults sbi rest).

(** A [struct scoutfs_block *]: either [ERR_PTR(e)] or the buffer of the
    given block number.  Two handles of one block number alias. *)
Inductive block_ptr :=
| ERR_PTR (e : Z)
| BL (blocknr : Z).

Definition scoutfs_block_data (sbi : scoutfs_sb_info) (blocknr : Z)
  : option block_data :=
  b_data <$> bufs sbi !! blocknr.

(** *** CRC *)

Definition crc32c_bit (c : Z) : Z :=
  if Z.testbit c 0 then Z.lxor (Z.shiftr c 1) 2197175160 else Z.shiftr c 1.

Definition crc32c_byte (crc b : Z) : Z :=
  Nat.iter 8 crc32c_bit (Z.lxor crc b).

Definition crc32c (seed : Z) (data : list Z) : Z :=
  fold_left crc32c_byte data seed.

(** Modelled from the spec: crc.c is absent.  Section 6: the header is
    [{u32 crc, u32 pad, u64 fsid, u64 blkno, u64 seq}], little-endian, and
    the CRC is CRC32C over the block excluding the CRC field. *)
Definition scoutfs_crc_block (d : block_data) : Z :=
  crc32c (2 ^ 32 - 1)
         (cpu_to_le 4 0 ++ cpu_to_le 8 (h_fsid (hdr d))
          ++ cpu_to_le 8 (h_blkno (hdr d)) ++ cpu_to_le 8 (h_seq (hdr d))
          ++ body d).

Definition with_crc (d : block_data) (c : Z) : block_data :=
  mk_data (mk_hdr c (h_fsid (hdr d)) (h_blkno (hdr d)) (h_seq (hdr d)))
          (body d).

(** *** verify_block_header *)

Definition verify_block_header (sbi : scoutfs_sb_info) (b_blocknr : Z)
           (bh : buffer_head) : Z :=
  let h := hdr (b_data bh) in
  let crc := scoutfs_crc_block (b_data bh) in
  if negb (h_crc h =? crc) then - EIO
  else if negb (h_fsid (super_hdr sbi) =? 0)
          && negb (h_fsid h =? h_fsid (super_hdr sbi)) then - EIO
  else if negb (h_blkno h =? b_blocknr) then - EIO
  else 0.

(** *** the dirty tree *)

(** The rbtree walk of [insert_bhp_rb]: left when smaller, right
    otherwise, so the in-order sequence stays sorted by block number. *)
Fixpoint insert_bhp_rb (root : list Z) (ins : Z) : list Z :=
  match root with
  | [] => [ins]
  | b :: rest =>
      if ins <? b then ins :: root else b :: insert_bhp_rb rest ins
  end.

Fixpoint rb_erase (root : list Z) (node : Z) : list Z :=
  match root with
  | [] => []
  | b :: rest => if b =? node then rest else b :: rb_erase rest node
  end.

Definition set_private (bh : buffer_head) (p : bool) : buffer_head :=
  mk_bh (b_data bh) (b_uptodate bh) (b_verified bh) p.
Definition set_verified (bh : buffer_head) : buffer_head :=
  mk_bh (b_data bh) (b_uptodate bh) true (b_private bh).
Definition set_data (bh : buffer_head) (d : block_data) : buffer_head :=
  mk_bh d (b_uptodate bh) (b_verified bh) (b_private bh).

(** [insert_bhp]: nothing to do for a tracked buffer; otherwise allocate
    the private struct (which can fail) and link the buffer. *)
Definition insert_bhp (sbi : scoutfs_sb_info) (blocknr : Z)
  : Z * scoutfs_sb_info :=
  match bufs sbi !! blocknr with
  | None => (0, sbi)
  | Some bh =>
      if b_private bh then (0, sbi)
      else
        let '(f, sbi) := next_fault sbi in
        if negb (f =? 0) then (- ENOMEM, sbi)
        else
          let sbi := set_bufs sbi (<[blocknr := set_private bh true]> (bufs sbi)) in
          (0, set_dirty_tree sbi (insert_bhp_rb (block_dirty_tree sbi) blocknr))
  end.

Definition erase_bhp (sbi : scoutfs_sb_info) (blocknr : Z) : scoutfs_sb_info :=
  let sbi := set_dirty_tree sbi (rb_erase (block_dirty_tree sbi) blocknr) in
  set_bufs sbi (alter (fun bh => set_private bh false) blocknr (bufs sbi)).

(** *** the kernel's buffer cache *)

(** Modelled from the spec: [sb_bread] is the kernel's.  Section 4.A,
    read: fetch from disk or cache.  An up-to-date cached buffer is
    returned as it is; otherwise the block is read from the device into the
    buffer, whose other flags stay; a block the device cannot deliver gives
    NULL. *)
Definition sb_bread (sbi : scoutfs_sb_info) (blkno : Z)
  : option buffer_head * scoutfs_sb_info :=
  match bufs sbi !! blkno with
  | Some bh =>
      if b_uptodate bh then (Some bh, sbi)
      else
        match disk sbi !! blkno with
        | Some d =>
            let bh := mk_bh d true (b_verified bh) (b_private bh) in
            (Some bh, set_bufs sbi (<[blkno := bh]> (bufs sbi)))
        | None => (None, sbi)
        end
  | None =>
      match disk sbi !! blkno with
      | Some d =>
          let bh := mk_bh d true false false in
          (Some bh, set_bufs sbi (<[blkno := bh]> (bufs sbi)))
      | None => (None, sbi)
      end
  end.

(** A buffer that was never read: the header's bytes and the
    [SCOUTFS_BLOCK_SIZE - 32] bytes after it, all zero. *)
Definition zero_data : block_data :=
  mk_data (mk_hdr 0 0 0 0) (repeat 0 (Z.to_nat (SCOUTFS_BLOCK_SIZE - 32))).

(** Modelled from the spec: [sb_getblk] is the kernel's; it finds or
    creates the buffer without reading the device and returns NULL when
    memory is short. *)
Definition sb_getblk (sbi : scoutfs_sb_info) (blkno : Z)
  : option buffer_head * scoutfs_sb_info :=
  let '(f, sbi) := next_fault sbi in
  if negb (f =? 0) then (None, sbi)
  else
    match bufs sbi !! blkno with
    | Some bh => (Some bh, sbi)
    | None =>
        let bh := mk_bh zero_data false false false in
        (Some bh, set_bufs sbi (<[blkno := bh]> (bufs sbi)))
    end.

(** *** scoutfs_block_read *)

Definition scoutfs_block_read (sbi : scoutfs_sb_info) (blkno : Z)
  : block_ptr * scoutfs_sb_info :=
  match sb_bread sbi blkno with
  | (None, sbi) => (ERR_PTR (- EIO), sbi)
  | (Some bh, sbi) =>
      if b_verified bh then (BL blkno, sbi)
      else
        let ret := verify_block_header sbi blkno bh in
        if ret =? 0 then
          (BL blkno, set_bufs sbi (<[blkno := set_verified bh]> (bufs sbi)))
        else (ERR_PTR ret, sbi)
  end.

(** [scoutfs_block_read_ref]: a block whose seq is not the reference's is
    dropped from the cache's up-to-date set and the caller told to retry. *)
Definition EAGAIN : Z := 11.

Definition clear_buffer_uptodate (sbi : scoutfs_sb_info) (blocknr : Z)
  : scoutfs_sb_info :=
  set_bufs sbi
    (alter (fun bh => mk_bh (b_data bh) false (b_verified bh) (b_private bh))
           blocknr (bufs sbi)).

Definition scoutfs_block_read_ref (sbi : scoutfs_sb_info)
           (ref : scoutfs_block_ref) : block_ptr * scoutfs_sb_info :=
  match scoutfs_block_read sbi (r_blkno ref) with
  | (ERR_PTR e, sbi) => (ERR_PTR e, sbi)
  | (BL b, sbi) =>
      match scoutfs_block_data sbi b with
      | Some d =>
          if negb (h_seq (hdr d) =? r_seq ref)
          then (ERR_PTR (- EAGAIN), clear_buffer_uptodate sbi b)
          else (BL b, sbi)
      | None => (BL b, sbi)
      end
  end.

(** *** scoutfs_block_dirty *)

Definition stamp_dirty (sbi : scoutfs_sb_info) (blkno : Z) (bh : buffer_head)
  : buffer_head :=
  let s := super_hdr sbi in
  mk_bh (mk_data (mk_hdr (h_crc s) (h_fsid s) blkno (h_seq s))
                 (body (b_data bh)))
        true true (b_private bh).

Definition scoutfs_block_dirty (sbi : scoutfs_sb_info) (blkno : Z)
  : block_ptr * scoutfs_sb_info :=
  match sb_getblk sbi blkno with
  | (None, sbi) => (ERR_PTR (- ENOMEM), sbi)
  | (Some _, sbi) =>
      let '(ret, sbi) := insert_bhp sbi blkno in
      if ret <? 0 then (ERR_PTR ret, sbi)
      else
        (BL blkno, set_bufs sbi (alter (stamp_dirty sbi blkno) blkno (bufs sbi)))
  end.

(** *** the allocator the block layer calls *)

Definition dist (a b : Z) : Z := Z.abs (a - b).

Fixpoint nearest (near : Z) (best : Z) (l : list Z) : Z :=
  match l with
  | [] => best
  | b :: rest =>
      nearest near (if dist b near <? dist best near then b else best) rest
  end.

(** Modelled from the spec: buddy.c is absent.  Section 4.B, alloc: reserve
    a block from the current avail, failing with ENOSPC when there is
    none. *)
Definition scoutfs_buddy_alloc (sbi : scoutfs_sb_info)
  : Z * Z * scoutfs_sb_info :=
  let '(f, sbi) := next_fault sbi in
  if negb (f =? 0) then (f, 0, sbi)
  else
    match avail (bud sbi) with
    | [] => (- ENOSPC, 0, sbi)
    | b :: rest => (0, b, set_bud sbi (mk_buddy rest (freed (bud sbi))))
    end.

(** One placement: the free block at the least distance from [near]. *)
Definition place_nearest (near : Z) (avail : list Z) : Z :=
  match avail with
  | [] => 0
  | b :: rest => nearest near b rest
  end.

(** Modelled from the spec: buddy.c is absent.  Section 4.B, alloc_same:
    "reserve one block close to [near] (best-effort locality)".  How close
    is the allocator's business: [place near avail] is the block its
    placement picks, and a pick that is not in avail falls back on the
    first free block. *)
Definition alloc_same_choice (place : Z -> list Z -> Z) (near : Z)
           (avail : list Z) : Z :=
  let c := place near avail in
  if existsb (Z.eqb c) avail then c else hd 0 avail.

(** Modelled from the spec: buddy.c is absent.  Section 4.B, alloc_same:
    reserve one block of avail, chosen by the placement for [near]; ENOSPC
    when avail is empty. *)
Definition scoutfs_buddy_alloc_same (place : Z -> list Z -> Z)
           (sbi : scoutfs_sb_info) (near : Z)
  : Z * Z * scoutfs_sb_info :=
  let '(f, sbi) := next_fault sbi in
  if negb (f =? 0) then (f, 0, sbi)
  else
    match avail (bud sbi) with
    | [] => (- ENOSPC, 0, sbi)
    | b :: rest =>
        let blkno := alloc_same_choice place near (b :: rest) in
        (0, blkno,
         set_bud sbi (mk_buddy (rb_erase (avail (bud sbi)) blkno)
                               (freed (bud sbi))))
    end.

(** Modelled from the spec: buddy.c is absent.  Section 4.B, free: an
    extent freed under the seq of the running transaction goes straight
    back to avail; any other goes onto freed, with its seq, and is usable
    only after the next commit. *)
Definition scoutfs_buddy_free (sbi : scoutfs_sb_info) (seq blkno order : Z)
  : Z * scoutfs_sb_info :=
  let '(f, sbi) := next_fault sbi in
  if negb (f =? 0) then (f, sbi)
  else if seq =? h_seq (super_hdr sbi)
  then (0, set_bud sbi (mk_buddy (blkno :: avail (bud sbi)) (freed (bud sbi))))
  else (0, set_bud sbi (mk_buddy (avail (bud sbi))
                                 ((seq, blkno) :: freed (bud sbi)))).

(** *** scoutfs_block_dirty_ref *)

(** The [memcpy] of SCOUTFS_BLOCK_SIZE bytes followed by the stamping of
    the copy's blkno and seq. *)
Definition cow_data (sbi : scoutfs_sb_info) (old : block_data) (blkno : Z)
  : block_data :=
  mk_data (mk_hdr (h_crc (hdr old)) (h_fsid (hdr old)) blkno
                  (h_seq (super_hdr sbi)))
          (body old).

Definition dirty_ref_fail (sbi : scoutfs_sb_info) (ref : scoutfs_block_ref)
           (ret : Z) (copy_bl : option Z) (blkno : Z)
  : block_ptr * scoutfs_block_ref * scoutfs_sb_info :=
  match copy_bl with
  | Some _ =>
      let '(_, sbi) := scoutfs_buddy_free sbi (h_seq (super_hdr sbi)) blkno 0 in
      (ERR_PTR ret, ref, sbi)
  | None => (ERR_PTR ret, ref, sbi)
  end.

Definition scoutfs_block_dirty_ref (place : Z -> list Z -> Z)
           (sbi : scoutfs_sb_info) (ref : scoutfs_block_ref)
  : block_ptr * scoutfs_block_ref * scoutfs_sb_info :=
  match scoutfs_block_read sbi (r_blkno ref) with
  | (ERR_PTR e, sbi) => (ERR_PTR e, ref, sbi)
  | (BL bl, sbi) =>
      if r_seq ref =? h_seq (super_hdr sbi) then (BL bl, ref, sbi)
      else
        let '(ret, blkno, sbi) :=
          scoutfs_buddy_alloc_same place sbi (r_blkno ref) in
        if ret <? 0 then dirty_ref_fail sbi ref ret None 0
        else
          match scoutfs_block_dirty sbi blkno with
          | (ERR_PTR e, sbi) => dirty_ref_fail sbi ref e None blkno
          | (BL copy_bl, sbi) =>
              match scoutfs_block_data sbi bl with
              | None => (ERR_PTR (- EIO), ref, sbi)
              | Some old =>
                  let '(ret, sbi) :=
                    scoutfs_buddy_free sbi (h_seq (hdr old)) (h_blkno (hdr old)) 0 in
                  if negb (ret =? 0)
                  then dirty_ref_fail sbi ref ret (Some copy_bl) blkno
                  else
                    match scoutfs_block_data sbi bl with
                    | None => (ERR_PTR (- EIO), ref, sbi)
                    | Some src =>
                        let new := cow_data sbi src blkno in
                        let sbi :=
                          set_bufs sbi
                            (alter (fun bh => set_data bh new) copy_bl (bufs sbi)) in
                        (BL copy_bl,
                         mk_ref (h_blkno (hdr new)) (h_seq (hdr new)), sbi)
                    end
              end
          end
  end.

(** *** scoutfs_block_dirty_alloc, scoutfs_block_forget *)

Definition scoutfs_block_dirty_alloc (sbi : scoutfs_sb_info)
  : block_ptr * scoutfs_sb_info :=
  let '(ret, blkno, sbi) := scoutfs_buddy_alloc sbi in
  if ret <? 0 then (ERR_PTR ret, sbi)
  else
    match scoutfs_block_dirty sbi blkno with
    | (ERR_PTR e, sbi) =>
        let '(_, sbi) := scoutfs_buddy_free sbi (stable_seq sbi) blkno 0 in
        (ERR_PTR e, sbi)
    | (BL b, sbi) => (BL b, sbi)
    end.

(** [scoutfs_block_forget].  [sb_find_get_block] finds a cached buffer
    only; [bforget] drops the buffer's dirty bit and the reference, and the
    buffer stays in the cache as it is. *)
Definition scoutfs_block_forget (sbi : scoutfs_sb_info) (blkno : Z)
  : scoutfs_sb_info :=
  match bufs sbi !! blkno with
  | Some bh => if b_private bh then erase_bhp sbi blkno else sbi
  | None => sbi
  end.

(** *** writing the dirty tree *)

Definition scoutfs_block_set_crc (sbi : scoutfs_sb_info) (blocknr : Z)
  : scoutfs_sb_info :=
  set_bufs sbi
    (alter (fun bh => set_data bh (with_crc (b_data bh)
                                          (scoutfs_crc_block (b_data bh))))
           blocknr (bufs sbi)).

(** The block device under the commit: what [submit_bh] returns for a
    buffer and whether its write then completes up to date. *)
Record device := mk_dev {
  submit_bh : Z -> Z;
  write_completes : Z -> bool
}.

Definition block_write_end_io (sbi : scoutfs_sb_info) (blocknr : Z)
           (uptodate : bool) : scoutfs_sb_info :=
  let sbi :=
    if uptodate then erase_bhp sbi blocknr
    else if block_write_err sbi =? 0 then set_block_write_err sbi (- EIO)
    else sbi in
  set_block_writes sbi (block_writes sbi - 1).

(** A write that completes up to date has put the buffer's bytes on the
    device. *)
Definition complete_write (dev : device) (sbi : scoutfs_sb_info) (blocknr : Z)
  : scoutfs_sb_info :=
  let ok := write_completes dev blocknr in
  let sbi :=
    match scoutfs_block_data sbi blocknr with
    | Some d => if ok then set_disk sbi (<[blocknr := d]> (disk sbi)) else sbi
    | None => sbi
    end in
  block_write_end_io sbi blocknr ok.

(** The [while (node)] loop over the tree in key order.  [ret] is what the
    last [submit_bh] returned; a submission that fails ends the loop and
    has no completion. *)
Fixpoint write_dirty_loop (dev : device) (nodes : list Z)
         (sbi : scoutfs_sb_info) : Z * scoutfs_sb_info :=
  match nodes with
  | [] => (0, sbi)
  | bh :: rest =>
      let sbi := set_block_writes sbi (block_writes sbi + 1) in
      let sbi := scoutfs_block_set_crc sbi bh in
      let ret := submit_bh dev bh in
      if negb (ret =? 0) then (ret, sbi)
      else write_dirty_loop dev rest (complete_write dev sbi bh)
  end.

(** [scoutfs_block_write_dirty].  The function returns once
    [block_writes] has drained to zero; [None] stands for a wait that no
    completion will end. *)
Definition scoutfs_block_write_dirty (dev : device) (sbi : scoutfs_sb_info)
  : option Z * scoutfs_sb_info :=
  let sbi := set_block_writes sbi 1 in
  let sbi := set_block_write_err sbi 0 in
  let '(ret, sbi) := write_dirty_loop dev (block_dirty_tree sbi) sbi in
  let sbi := set_block_writes sbi (block_writes sbi - 1) in
  if block_writes sbi =? 0 then (Some ret, sbi) else (None, sbi).

Definition scoutfs_block_has_dirty (sbi : scoutfs_sb_info) : bool :=
  match block_dirty_tree sbi with [] => false | _ => true end.

(** *** what the statements about block.c speak of *)

Definition is_verified (sbi : scoutfs_sb_info) (blkno : Z) : bool :=
  match bufs sbi !! blkno with
  | Some bh => b_verified bh
  | None => false
  end.

(** The checks [verify_block_header] makes of a block read at [blkno]. *)
Definition header_checks (sbi : scoutfs_sb_info) (blkno : Z) (d : block_data)
  : Prop :=
  h_crc (hdr d) = scoutfs_crc_block d /\
  (h_fsid (super_hdr sbi) = 0 \/ h_fsid (hdr d) = h_fsid (super_hdr sbi)) /\
  h_blkno (hdr d) = blkno.

(** The three checks as the spec lists them, the fsid compared without
    condition. *)
Definition all_three_checks (sbi : scoutfs_sb_info) (blkno : Z)
           (d : block_data) : Prop :=
  h_crc (hdr d) = scoutfs_crc_block d /\
  h_fsid (hdr d) = h_fsid (super_hdr sbi) /\
  h_blkno (hdr d) = blkno.

(** "The read succeeds only when all three header checks hold", for a
    buffer that is not verified yet. *)
Definition read_needs_all_three (sbi : scoutfs_sb_info) (blkno : Z) : Prop :=
  forall bh sbi1,
    sb_bread sbi blkno = (Some bh, sbi1) -> b_verified bh = false ->
    fst (scoutfs_block_read sbi blkno) = BL blkno ->
    all_three_checks sbi blkno (b_data bh).

(** "The old block is freed into the current freed pool with its own
    seq", of a reference that [dirty_ref] moves. *)
Definition old_block_on_freed (place : Z -> list Z -> Z)
           (sbi : scoutfs_sb_info) (ref : scoutfs_block_ref) : Prop :=
  forall b ref' sbi' old,
    scoutfs_block_dirty_ref place sbi ref = (BL b, ref', sbi') ->
    r_seq ref <> h_seq (super_hdr sbi) ->
    scoutfs_block_data (snd (scoutfs_block_read sbi (r_blkno ref)))
                       (r_blkno ref) = Some old ->
    In (h_seq (hdr old), h_blkno (hdr old)) (freed (bud sbi')).

(** *** example states *)

(** A super block whose fsid is still zero, in the transaction of seq 11,
    over a device that holds block 3 of fsid 5 and seq 9 with its CRC in
    place; blocks 20, 4 and 7 are free. *)
Definition ex_super_hdr : scoutfs_block_header := mk_hdr 0 0 0 11.

Definition ex_block : block_data :=
  let d := mk_data (mk_hdr 0 5 3 9) [1; 2; 3] in
  with_crc d (scoutfs_crc_block d).

Definition ex_sbi : scoutfs_sb_info :=
  mk_sbi ex_super_hdr 10 ∅ {[ 3 := ex_block ]} [] 0 0
         (mk_buddy [20; 4; 7] []) [].

(** Block 7 dirtied in [ex_sbi], and a device that accepts every
    submission and completes none of them up to date. *)
Definition ex_dirty_sbi : scoutfs_sb_info := snd (scoutfs_block_dirty ex_sbi 7).

Definition ex_failing_dev : device := mk_dev (fun _ => 0) (fun _ => false).

(** Block 3 read and then dirtied in [ex_sbi]: its header now carries the
    dirty seq 11. *)
Definition ex_redirtied_sbi : scoutfs_sb_info :=
  snd (scoutfs_block_dirty (snd (scoutfs_block_read ex_sbi 3)) 3).

End Block.

(* ===================================================================== *)
(** ** server.c *)
(* ===================================================================== *)

Module Server.

(** *** keys and B-trees *)

(** Modelled from the spec: format.h and key.h are absent.  A key sorts by
    zone, type and then its four fields; a trans-seq key keeps the seq in
    the first field and the rid in the second, a mounted-client key the rid
    in the first; every other field of an initialised key is zero. *)
Record scoutfs_key := mk_key {
  sk_zone : Z;
  sk_type : Z;
  sk_first : Z;
  sk_second : Z;
  sk_third : Z;
  sk_fourth : Z
}.

Definition SCOUTFS_TRANS_SEQ_ZONE : Z := 7.
Definition SCOUTFS_MOUNTED_CLIENT_ZONE : Z := 8.

Definition skts_trans_seq := sk_first.
Definition skts_rid := sk_second.
Definition skmc_rid := sk_first.

Definition init_trans_seq_key (seq rid : Z) : scoutfs_key :=
  mk_key SCOUTFS_TRANS_SEQ_ZONE 0 seq rid 0 0.

Definition init_mounted_client_key (rid : Z) : scoutfs_key :=
  mk_key SCOUTFS_MOUNTED_CLIENT_ZONE 0 rid 0 0 0.

(** C's [a ?: b] on comparison results. *)
Definition or_else (c d : comparison) : comparison :=
  match c with Eq => d | _ => c end.

Definition scoutfs_key_compare (a b : scoutfs_key) : comparison :=
  or_else (sk_zone a ?= sk_zone b)
  (or_else (sk_type a ?= sk_type b)
  (or_else (sk_first a ?= sk_first b)
  (or_else (sk_second a ?= sk_second b)
  (or_else (sk_third a ?= sk_third b)
           (sk_fourth a ?= sk_fourth b))))).

(** Modelled from the spec: key.h is absent.  The cursor steps to the next
    key in sort order: the lowest field is incremented and a field that
    wraps to zero carries into the next higher one. *)
Definition scoutfs_key_inc (k : scoutfs_key) : scoutfs_key :=
  let f4 := wrap8 (sk_fourth k + 1) in
  if negb (f4 =? 0)
  then mk_key (sk_zone k) (sk_type k) (sk_first k) (sk_second k) (sk_third k) f4
  else
  let f3 := wrap64 (sk_third k + 1) in
  if negb (f3 =? 0)
  then mk_key (sk_zone k) (sk_type k) (sk_first k) (sk_second k) f3 f4
  else
  let f2 := wrap64 (sk_second k + 1) in
  if negb (f2 =? 0)
  then mk_key (sk_zone k) (sk_type k) (sk_first k) f2 f3 f4
  else
  let f1 := wrap64 (sk_first k + 1) in
  if negb (f1 =? 0)
  then mk_key (sk_zone k) (sk_type k) f1 f2 f3 f4
  else
  let ty := wrap8 (sk_type k + 1) in
  if negb (ty =? 0)
  then mk_key (sk_zone k) ty f1 f2 f3 f4
  else mk_key (wrap8 (sk_zone k + 1)) ty f1 f2 f3 f4.

Definition key_eqb (a b : scoutfs_key) : bool :=
  match scoutfs_key_compare a b with Eq => true | _ => false end.
Definition key_ltb (a b : scoutfs_key) : bool :=
  match scoutfs_key_compare a b with Lt => true | _ => false end.
Definition key_geb (a b : scoutfs_key) : bool := negb (key_ltb a b).

(** Modelled from the spec: btree.c is absent.  Section 1: a persistent
    ordered key/value map with cursor iteration.  The items are a list
    without duplicate keys whose order carries no meaning; the operations
    give the answers of an ordered map. *)
Definition btree_item : Type := scoutfs_key * list Z.
Definition btree : Type := list btree_item.

Definition has_key (t : btree) (key : scoutfs_key) : bool :=
  existsb (fun it => key_eqb (fst it) key) t.

(** The least item at or after [key]. *)
Fixpoint btree_first_ge (t : btree) (key : scoutfs_key) : option btree_item :=
  match t with
  | [] => None
  | it :: rest =>
      match btree_first_ge rest key with
      | Some best =>
          if key_geb (fst it) key && key_ltb (fst it) (fst best)
          then Some it else Some best
      | None => if key_geb (fst it) key then Some it else None
      end
  end.

Definition btree_next (t : btree) (key : scoutfs_key) : Z * option btree_item :=
  match btree_first_ge t key with
  | Some it => (0, Some it)
  | None => (- ENOENT, None)
  end.

Definition btree_lookup (t : btree) (key : scoutfs_key) : Z * option btree_item :=
  match List.find (fun it => key_eqb (fst it) key) t with
  | Some it => (0, Some it)
  | None => (- ENOENT, None)
  end.

Definition btree_insert (t : btree) (key : scoutfs_key) (val : list Z)
  : Z * btree :=
  if has_key t key then (- EEXIST, t) else (0, (key, val) :: t).

Definition btree_delete (t : btree) (key : scoutfs_key) : Z * btree :=
  if has_key t key
  then (0, List.filter (fun it => negb (key_eqb (fst it) key)) t)
  else (- ENOENT, t).

(** *** server state *)

Record scoutfs_super_block := mk_super {
  sup_fsid : Z;
  sup_version : Z;
  next_ino : Z;
  next_trans_seq : Z;
  trans_seqs : btree;
  mounted_clients : btree;
  fs_root : Z;
  logs_root : Z;
  srch_root : Z;
  server_meta_avail : Z * Z;
  server_meta_freed : Z * Z;
  meta_alloc_total_len : Z * Z
}.

Record scoutfs_net_roots := mk_roots {
  nr_fs_root : Z;
  nr_logs_root : Z;
  nr_srch_root : Z
}.

Record commit_waiter := mk_cw {
  cw_id : nat;
  cw_ret : Z;
  cw_done : bool
}.

Record farewell_request := mk_fw {
  net_id : Z;
  fw_rid : Z
}.

(** What a response carries after its header. *)
Inductive payload :=
| NoData
| InodeAlloc (ino nr : Z)
| Le64 (v : Z)
| Roots (r : scoutfs_net_roots).

Record net_response := mk_resp {
  resp_rid : Z;
  resp_cmd : Z;
  resp_id : Z;
  resp_error : Z;
  resp_data : payload
}.

Record server_info := mk_server {
  super : scoutfs_super_block;
  written_super : option scoutfs_super_block;
  forcing_unmount : bool;
  shutting_down : bool;
  commit_waiters : list commit_waiter;
  next_cw : nat;
  alloc_avail : Z;
  alloc_freed : Z;
  other_ind : bool;
  meta_avail_ind : bool;
  meta_alloc_min : Z;
  roots : scoutfs_net_roots;
  farewell_requests : list farewell_request;
  votes_needed : Z;
  sent : list net_response;
  faults : list fault
}.

Definition set_super (s : server_info) (x : scoutfs_super_block) :=
  mk_server x (written_super s) (forcing_unmount s) (shutting_down s)
    (commit_waiters s) (next_cw s) (alloc_avail s)
    (alloc_freed s) (other_ind s) (meta_avail_ind s) (meta_alloc_min s)
    (roots s) (farewell_requests s) (votes_needed s) (sent s) (faults s).
Definition set_written_super (s : server_info) (x : option scoutfs_super_block) :=
  mk_server (super s) x (forcing_unmount s) (shutting_down s)
    (commit_waiters s) (next_cw s) (alloc_avail s)
    (alloc_freed s) (other_ind s) (meta_avail_ind s) (meta_alloc_min s)
    (roots s) (farewell_requests s) (votes_needed s) (sent s) (faults s).
Definition set_waiters (s : server_info) (w : list commit_waiter) (n : nat) :=
  mk_server (super s) (written_super s) (forcing_unmount s) (shutting_down s)
    w n (alloc_avail s)
    (alloc_freed s) (other_ind s) (meta_avail_ind s) (meta_alloc_min s)
    (roots s) (farewell_requests s) (votes_needed s) (sent s) (faults s).
Definition set_alloc (s : server_info) (av fr : Z) (oi mi : bool) :=
  mk_server (super s) (written_super s) (forcing_unmount s) (shutting_down s)
    (commit_waiters s) (next_cw s) av fr oi mi
    (meta_alloc_min s)
    (roots s) (farewell_requests s) (votes_needed s) (sent s) (faults s).
Definition set_roots_field (s : server_info) (x : scoutfs_net_roots) :=
  mk_server (super s) (written_super s) (forcing_unmount s) (shutting_down s)
    (commit_waiters s) (next_cw s) (alloc_avail s)
    (alloc_freed s) (other_ind s) (meta_avail_ind s) (meta_alloc_min s)
    x (farewell_requests s) (votes_needed s) (sent s) (faults s).
Definition set_farewell_requests (s : server_info) (x : list farewell_request) :=
  mk_server (super s) (written_super s) (forcing_unmount s) (shutting_down s)
    (commit_waiters s) (next_cw s) (alloc_avail s)
    (alloc_freed s) (other_ind s) (meta_avail_ind s) (meta_alloc_min s)
    (roots s) x (votes_needed s) (sent s) (faults s).
Definition set_sent (s : server_info) (x : list net_response) :=
  mk_server (super s) (written_super s) (forcing_unmount s) (shutting_down s)
    (commit_waiters s) (next_cw s) (alloc_avail s)
    (alloc_freed s) (other_ind s) (meta_avail_ind s) (meta_alloc_min s)
    (roots s) (farewell_requests s) (votes_needed s) x (faults s).
Definition set_faults (s : server_info) (x : list fault) :=
  mk_server (super s) (written_super s) (forcing_unmount s) (shutting_down s)
    (commit_waiters s) (next_cw s) (alloc_avail s)
    (alloc_freed s) (other_ind s) (meta_avail_ind s) (meta_alloc_min s)
    (roots s) (farewell_requests s) (votes_needed s) (sent s) x.

Definition set_next_ino (p : scoutfs_super_block) (x : Z) :=
  mk_super (sup_fsid p) (sup_version p) x (next_trans_seq p) (trans_seqs p)
    (mounted_clients p) (fs_root p) (logs_root p) (srch_root p)
    (server_meta_avail p) (server_meta_freed p) (meta_alloc_total_len p).
Definition set_next_trans_seq (p : scoutfs_super_block) (x : Z) :=
  mk_super (sup_fsid p) (sup_version p) (next_ino p) x (trans_seqs p)
    (mounted_clients p) (fs_root p) (logs_root p) (srch_root p)
    (server_meta_avail p) (server_meta_freed p) (meta_alloc_total_len p).
Definition set_trans_seqs (p : scoutfs_super_block) (x : btree) :=
  mk_super (sup_fsid p) (sup_version p) (next_ino p) (next_trans_seq p) x
    (mounted_clients p) (fs_root p) (logs_root p) (srch_root p)
    (server_meta_avail p) (server_meta_freed p) (meta_alloc_total_len p).
Definition set_mounted_clients (p : scoutfs_super_block) (x : btree) :=
  mk_super (sup_fsid p) (sup_version p) (next_ino p) (next_trans_seq p)
    (trans_seqs p) x (fs_root p) (logs_root p) (srch_root p)
    (server_meta_avail p) (server_meta_freed p) (meta_alloc_total_len p).
Definition set_server_meta (p : scoutfs_super_block) (av fr : Z * Z) :=
  mk_super (sup_fsid p) (sup_version p) (next_ino p) (next_trans_seq p)
    (trans_seqs p) (mounted_clients p) (fs_root p) (logs_root p) (srch_root p)
    av fr (meta_alloc_total_len p).

(** One call into an absent collaborator: its result comes off the
    schedule. *)
Definition external_call (s : server_info) : Z * server_info :=
  let '(f, rest) := take_fault (faults s) in (f, set_faults s rest).

(** The B-tree calls of the server: the block I/O and allocation under a
    call can fail, in which case the tree is as it was. *)
Inductive root_sel := TRANS_SEQS | MOUNTED_CLIENTS.

Definition get_root (s : server_info) (r : root_sel) : btree :=
  match r with
  | TRANS_SEQS => trans_seqs (super s)
  | MOUNTED_CLIENTS => mounted_clients (super s)
  end.

Definition put_root (s : server_info) (r : root_sel) (t : btree) : server_info :=
  match r with
  | TRANS_SEQS => set_super s (set_trans_seqs (super s) t)
  | MOUNTED_CLIENTS => set_super s (set_mounted_clients (super s) t)
  end.

Definition scoutfs_btree_next (s : server_info) (r : root_sel)
           (key : scoutfs_key) : Z * option btree_item * server_info :=
  let '(f, s) := external_call s in
  if negb (f =? 0) then (f, None, s)
  else let '(ret, it) := btree_next (get_root s r) key in (ret, it, s).

Definition scoutfs_btree_lookup (s : server_info) (r : root_sel)
           (key : scoutfs_key) : Z * option btree_item * server_info :=
  let '(f, s) := external_call s in
  if negb (f =? 0) then (f, None, s)
  else let '(ret, it) := btree_lookup (get_root s r) key in (ret, it, s).

Definition scoutfs_btree_insert (s : server_info) (r : root_sel)
           (key : scoutfs_key) (val : list Z) : Z * server_info :=
  let '(f, s) := external_call s in
  if negb (f =? 0) then (f, s)
  else let '(ret, t) := btree_insert (get_root s r) key val in
       (ret, put_root s r t).

Definition scoutfs_btree_delete (s : server_info) (r : root_sel)
           (key : scoutfs_key) : Z * server_info :=
  let '(f, s) := external_call s in
  if negb (f =? 0) then (f, s)
  else let '(ret, t) := btree_delete (get_root s r) key in
       (ret, put_root s r t).

(** The transport (net.c) is a collaborator: a response handed to it is
    queued for its client and the hand-off succeeds. *)
Definition scoutfs_net_response (s : server_info) (rid cmd id error : Z)
           (data : payload) : Z * server_info :=
  (0, set_sent s (sent s ++ [mk_resp rid cmd id error data])).


(** *** commits *)


Definition scoutfs_server_hold_commit (s : server_info) : Z * server_info :=
  (0, s).

Definition pick (i : bool) (p : Z * Z) : Z := if i then snd p else fst p.
Definition store (i : bool) (p : Z * Z) (v : Z) : Z * Z :=
  if i then (fst p, v) else (v, snd p).

Definition set_roots (s : server_info) (fs logs srch : Z) : server_info :=
  set_roots_field s (mk_roots fs logs srch).

Definition get_roots (s : server_info) : scoutfs_net_roots := roots s.

(** The [out:] label of the commit work: every waiter taken off the list
    is given [ret] and completed.  The waiters live on their callers'
    stacks; the completed batch is handed back beside the state. *)
Definition complete_waiters (s : server_info) (ret : Z)
  : list commit_waiter * server_info :=
  (map (fun cw => mk_cw (cw_id cw) ret true) (commit_waiters s),
   set_waiters s [] (next_cw s)).

(** The work between the written super block and [out:]. *)
Definition commit_swizzle (s : server_info) : server_info :=
  let sup := super s in
  let s := set_roots s (fs_root sup) (logs_root sup) (srch_root sup) in
  let oi := negb (other_ind s) in
  let av := pick (negb oi) (server_meta_avail sup) in
  let fr := pick (negb oi) (server_meta_freed sup) in
  let mi := meta_avail_ind s in
  let avail_len := pick mi (meta_alloc_total_len sup) in
  let freed_len := pick (negb mi) (meta_alloc_total_len sup) in
  let mi := if (avail_len <=? meta_alloc_min s) && (meta_alloc_min s <? freed_len)
            then negb mi else mi in
  set_alloc s av fr oi mi.

(** [scoutfs_server_commit_func].  The allocator and block-writer calls are
    collaborators; of each only the result is kept. *)
Definition scoutfs_server_commit_func (s : server_info)
  : list commit_waiter * server_info :=
  if forcing_unmount s then complete_waiters s (- EIO)
  else
  let '(ret, s) := external_call s in          (* scoutfs_alloc_fill_list *)
  if negb (ret =? 0) then complete_waiters s ret else
  let '(ret, s) := external_call s in          (* scoutfs_alloc_empty_list *)
  if negb (ret =? 0) then complete_waiters s ret else
  let '(ret, s) := external_call s in          (* scoutfs_alloc_prepare_commit *)
  if ret <? 0 then complete_waiters s ret else
  let '(ret, s) := external_call s in          (* scoutfs_block_writer_write *)
  if negb (ret =? 0) then complete_waiters s ret else
  let sup := super s in
  let sup := set_server_meta sup
               (store (negb (other_ind s)) (server_meta_avail sup) (alloc_avail s))
               (store (negb (other_ind s)) (server_meta_freed sup) (alloc_freed s)) in
  let s := set_super s sup in
  let '(ret, s) := external_call s in          (* scoutfs_write_super *)
  if negb (ret =? 0) then complete_waiters s ret else
  let s := set_written_super s (Some (super s)) in
  complete_waiters (commit_swizzle s) 0.

Definition waiter_ret (batch : list commit_waiter) (id : nat) : Z :=
  match List.find (fun cw => Nat.eqb (cw_id cw) id) batch with
  | Some cw => cw_ret cw
  | None => 0
  end.

(** [scoutfs_server_apply_commit]: the caller adds its waiter at the head
    of the list and queues the commit work; it returns when a run of that
    work has completed the waiter, with the result the run stored in it. *)
Definition scoutfs_server_apply_commit (s : server_info) (err : Z)
  : Z * server_info :=
  if err =? 0 then
    let id := next_cw s in
    let s := set_waiters s (mk_cw id 0 false :: commit_waiters s) (S id) in
    let '(batch, s) := scoutfs_server_commit_func s in
    (waiter_ret batch id, s)
  else (err, s).

(** *** request handlers *)

Definition arg_len (arg : list Z) : Z := Z.of_nat (length arg).

Definition server_alloc_inodes (s : server_info) (rid cmd id : Z)
           (arg : list Z) : Z * server_info :=
  if negb (arg_len arg =? 8)
  then scoutfs_net_response s rid cmd id (- EINVAL) (InodeAlloc 0 0)
  else
    let lecount := arg in
    let '(ret, s) := scoutfs_server_hold_commit s in
    if negb (ret =? 0)
    then scoutfs_net_response s rid cmd id ret (InodeAlloc 0 0)
    else
      let ino := next_ino (super s) in
      let nr := Z.min (le_to_cpu lecount) (U64_MAX - ino) in
      let s := set_super s (set_next_ino (super s) (wrap64 (ino + nr))) in
      let '(ret, s) := scoutfs_server_apply_commit s ret in
      let ial := if ret =? 0 then InodeAlloc ino nr else InodeAlloc 0 0 in
      scoutfs_net_response s rid cmd id ret ial.

Definition server_get_roots (s : server_info) (rid cmd id : Z)
           (arg : list Z) : Z * server_info :=
  let '(roots, ret) :=
    if negb (arg_len arg =? 0)
    then (mk_roots 0 0 0, - EINVAL)
    else (get_roots s, 0) in
  scoutfs_net_response s rid cmd id 0 (Roots roots).

(** The [for (;;)] loop of [remove_trans_seq_locked]; [fuel] bounds the
    number of iterations and [None] is a loop that has not left within
    it. *)
Fixpoint remove_trans_seq_loop (fuel : nat) (s : server_info) (rid : Z)
         (key : scoutfs_key) : option (Z * server_info) :=
  match fuel with
  | O => None
  | S fuel' =>
      let '(ret, it, s) := scoutfs_btree_next s TRANS_SEQS key in
      if ret <? 0 then Some (if ret =? - ENOENT then 0 else ret, s)
      else
        match it with
        | None => Some (ret, s)
        | Some it =>
            let key := fst it in
            if skts_rid key =? rid then
              let '(ret, s) := scoutfs_btree_delete s TRANS_SEQS key in
              if ret <? 0 then Some (ret, s)
              else remove_trans_seq_loop fuel' s rid (scoutfs_key_inc key)
            else remove_trans_seq_loop fuel' s rid (scoutfs_key_inc key)
        end
  end.

Definition remove_trans_seq_locked (fuel : nat) (s : server_info) (rid : Z)
  : option (Z * server_info) :=
  remove_trans_seq_loop fuel s rid (init_trans_seq_key 0 0).

Definition remove_trans_seq (fuel : nat) (s : server_info) (rid : Z)
  : option (Z * server_info) :=
  remove_trans_seq_locked fuel s rid.

Definition server_advance_seq (fuel : nat) (s : server_info) (rid cmd id : Z)
           (arg : list Z) : option (Z * server_info) :=
  if negb (arg_len arg =? 0)
  then Some (scoutfs_net_response s rid cmd id (- EINVAL) (Le64 0))
  else
    let '(ret, s) := scoutfs_server_hold_commit s in
    if negb (ret =? 0)
    then Some (scoutfs_net_response s rid cmd id ret (Le64 0))
    else
      '(ret, s) ← remove_trans_seq_locked fuel s rid;
      if ret <? 0 then
        let '(ret, s) := scoutfs_server_apply_commit s ret in
        Some (scoutfs_net_response s rid cmd id ret (Le64 0))
      else
        let seq := next_trans_seq (super s) in
        let s := set_super s (set_next_trans_seq (super s) (wrap64 (seq + 1))) in
        let key := init_trans_seq_key seq rid in
        let '(ret, s) := scoutfs_btree_insert s TRANS_SEQS key [] in
        let leseq := if ret =? 0 then seq else 0 in
        let '(ret, s) := scoutfs_server_apply_commit s ret in
        Some (scoutfs_net_response s rid cmd id ret (Le64 leseq)).

Definition server_get_last_seq (s : server_info) (rid cmd id : Z)
           (arg : list Z) : Z * server_info :=
  if negb (arg_len arg =? 0)
  then scoutfs_net_response s rid cmd id (- EINVAL) (Le64 0)
  else
    let '(ret, it, s) :=
      scoutfs_btree_next s TRANS_SEQS (init_trans_seq_key 0 0) in
    let '(last_seq, ret) :=
      if ret =? 0
      then (match it with Some it => skts_trans_seq (fst it) | None => 0 end, ret)
      else if ret =? - ENOENT then (next_trans_seq (super s), 0)
      else (0, ret) in
    let last_seq := wrap64 (last_seq + U64_MAX) in
    scoutfs_net_response s rid cmd id ret (Le64 last_seq).

(** *** mounted clients and farewell *)

Definition SCOUTFS_MOUNTED_CLIENT_QUORUM : Z := 1.

(** [struct scoutfs_mounted_client_btree_val] is one byte of flags. *)
Definition invalid_mounted_client_item (it : option btree_item) : bool :=
  match it with
  | Some it => negb (Nat.eqb (length (snd it)) 1)
  | None => false
  end.

Definition mcv_flags (it : btree_item) : Z := hd 0 (snd it).

Definition is_quorum (it : btree_item) : bool :=
  negb (Z.land (mcv_flags it) SCOUTFS_MOUNTED_CLIENT_QUORUM =? 0).

Definition delete_mounted_client (s : server_info) (rid : Z) : Z * server_info :=
  let '(ret, s) :=
    scoutfs_btree_delete s MOUNTED_CLIENTS (init_mounted_client_key rid) in
  (if ret =? - ENOENT then 0 else ret, s).

(** [a ?: b] over calls that thread the state. *)
Definition or_call (a : Z * server_info)
           (b : server_info -> Z * server_info) : Z * server_info :=
  if negb (fst a =? 0) then a else b (snd a).

(** [reclaim_rid].  The lock server, log-tree reclaim, srch and omap steps
    are collaborators of which only the result is kept. *)
Definition reclaim_rid (fuel : nat) (s : server_info) (rid : Z)
           (clear_leader : bool) : option (Z * server_info) :=
  let '(ret, s) := scoutfs_server_hold_commit s in
  if ret <? 0 then Some (ret, s)
  else
    let a := external_call s in                (* scoutfs_lock_server_farewell *)
    if negb (fst a =? 0) then Some (scoutfs_server_apply_commit (snd a) (fst a))
    else
      b ← remove_trans_seq fuel (snd a) rid;
      let r :=
        or_call (or_call (or_call (or_call (or_call b
          external_call)                         (* reclaim_log_trees *)
          external_call)                         (* cancel_srch_compact *)
          external_call)                         (* scoutfs_omap_remove_rid *)
          (fun s => if clear_leader then external_call s else (0, s)))
          (fun s => delete_mounted_client s rid) in
      Some (scoutfs_server_apply_commit (snd r) (fst r)).

(** First loop of [farewell_worker]: count the mounted clients. *)
Fixpoint count_mounted_clients (fuel : nat) (s : server_info)
         (key : scoutfs_key) (quo_mnts non_mnts : Z)
  : option (Z * Z * Z * server_info) :=
  match fuel with
  | O => None
  | S fuel' =>
      let '(ret, it, s) := scoutfs_btree_next s MOUNTED_CLIENTS key in
      let ret := if (ret =? 0) && invalid_mounted_client_item it
                 then - EIO else ret in
      if negb (ret =? 0)
      then Some (if ret =? - ENOENT then 0 else ret, quo_mnts, non_mnts, s)
      else
        match it with
        | None => Some (ret, quo_mnts, non_mnts, s)
        | Some it =>
            let key := fst it in
            if is_quorum it
            then count_mounted_clients fuel' s (scoutfs_key_inc key)
                   (wrap32 (quo_mnts + 1)) non_mnts
            else count_mounted_clients fuel' s (scoutfs_key_inc key)
                   quo_mnts (wrap32 (non_mnts + 1))
        end
  end.

(** The locals of [farewell_worker] that its loops hand on. *)
Record farewell_locals := mk_fl {
  fl_ret : Z;
  fl_reqs : list farewell_request;
  fl_send : list farewell_request;
  fl_quo_reqs : Z;
  fl_quo_mnts : Z;
  fl_non_mnts : Z
}.

(** Second loop: look each request's mounted client up.  [list_move] puts
    an entry at the head of [send]; a request that stays keeps its place in
    [reqs].  On an error the walk stops with the lists as they are. *)
Fixpoint check_requests (reqs : list farewell_request) (s : server_info)
         (l : farewell_locals) : farewell_locals * server_info :=
  match reqs with
  | [] => (mk_fl 0 [] (fl_send l) (fl_quo_reqs l) (fl_quo_mnts l) (fl_non_mnts l), s)
  | fw :: rest =>
      let '(ret, it, s) :=
        scoutfs_btree_lookup s MOUNTED_CLIENTS
                             (init_mounted_client_key (fw_rid fw)) in
      let ret := if (ret =? 0) && invalid_mounted_client_item it
                 then - EIO else ret in
      if ret <? 0 then
        if ret =? - ENOENT
        then check_requests rest s
               (mk_fl 0 [] (fw :: fl_send l) (fl_quo_reqs l) (fl_quo_mnts l)
                      (fl_non_mnts l))
        else (mk_fl ret (fw :: rest) (fl_send l) (fl_quo_reqs l)
                    (fl_quo_mnts l) (fl_non_mnts l), s)
      else
        match it with
        | None => (mk_fl ret (fw :: rest) (fl_send l) (fl_quo_reqs l)
                         (fl_quo_mnts l) (fl_non_mnts l), s)
        | Some it =>
            if is_quorum it then
              let '(l', s) :=
                check_requests rest s
                  (mk_fl 0 [] (fl_send l) (wrap32 (fl_quo_reqs l + 1))
                         (fl_quo_mnts l) (fl_non_mnts l)) in
              (mk_fl (fl_ret l') (fw :: fl_reqs l') (fl_send l')
                     (fl_quo_reqs l') (fl_quo_mnts l') (fl_non_mnts l'), s)
            else
              check_requests rest s
                (mk_fl 0 [] (fw :: fl_send l) (fl_quo_reqs l) (fl_quo_mnts l)
                       (wrap32 (fl_non_mnts l - 1)))
        end
  end.

(** The test of the third loop. *)
Definition may_send_quorum (votes quo_mnts quo_reqs non_mnts : Z) : bool :=
  (wrap32 votes <? quo_mnts) || ((quo_reqs =? quo_mnts) && (non_mnts =? 0)).

(** Third loop: only requests of quorum members remain in [reqs];
    [list_move_tail] appends to [send]. *)
Fixpoint release_quorum (votes : Z) (reqs : list farewell_request)
         (l : farewell_locals) : farewell_locals :=
  match reqs with
  | [] => mk_fl (fl_ret l) [] (fl_send l) (fl_quo_reqs l) (fl_quo_mnts l)
                (fl_non_mnts l)
  | fw :: rest =>
      if may_send_quorum votes (fl_quo_mnts l) (fl_quo_reqs l) (fl_non_mnts l)
      then release_quorum votes rest
             (mk_fl (fl_ret l) [] (fl_send l ++ [fw])
                    (wrap32 (fl_quo_reqs l - 1)) (wrap32 (fl_quo_mnts l - 1))
                    (fl_non_mnts l))
      else
        let l' := release_quorum votes rest l in
        mk_fl (fl_ret l') (fw :: fl_reqs l') (fl_send l') (fl_quo_reqs l')
              (fl_quo_mnts l') (fl_non_mnts l')
  end.

(** The first three loops: which requests go to [send]. *)
Definition farewell_classify (fuel : nat) (s : server_info)
           (reqs : list farewell_request)
  : option (farewell_locals * server_info) :=
  '(ret, quo_mnts, non_mnts, s) ←
     count_mounted_clients fuel s (init_mounted_client_key 0) 0 0;
  if negb (ret =? 0) then Some (mk_fl ret reqs [] 0 quo_mnts non_mnts, s)
  else
    let '(l, s) := check_requests reqs s (mk_fl 0 [] [] 0 quo_mnts non_mnts) in
    if negb (fl_ret l =? 0) then Some (l, s)
    else Some (release_quorum (votes_needed s) (fl_reqs l) l, s).






(** [server_farewell]: queue the request for the worker; the [kmalloc] of
    the request can fail.  Neither failure sends a response here. *)
Definition server_farewell (s : server_info) (rid cmd id : Z) (arg : list Z)
  : Z * server_info :=
  if negb (arg_len arg =? 0) then (- EINVAL, s)
  else
    let '(f, s) := external_call s in
    if negb (f =? 0) then (- ENOMEM, s)
    else (0, set_farewell_requests s (farewell_requests s ++ [mk_fw id rid])).

(** *** what the statements about server.c speak of *)

Definition is_u64 (z : Z) : bool := (0 <=? z) && (z <=? U64_MAX).

(** The keys [init_trans_seq_key] makes of a u64 seq and a u64 rid. *)
Definition is_trans_seq_key (k : scoutfs_key) : bool :=
  (sk_zone k =? SCOUTFS_TRANS_SEQ_ZONE) && (sk_type k =? 0) &&
  is_u64 (sk_first k) && is_u64 (sk_second k) &&
  (sk_third k =? 0) && (sk_fourth k =? 0).

(** The trans_seqs tree holds trans-seq items only. *)
Definition trans_seqs_ok (t : btree) : bool :=
  forallb (fun it => is_trans_seq_key (fst it)) t.

Definition owned_by (rid : Z) (it : btree_item) : bool :=
  skts_rid (fst it) =? rid.

(** The server with its trans_seqs tree and fault schedule replaced, and
    all else as it was. *)
Definition with_trans_seqs (s : server_info) (t : btree) (f : list fault)
  : server_info :=
  set_faults (put_root s TRANS_SEQS t) f.

(** What the removal loop, with its cursor at [key], leaves of the tree:
    the items behind the cursor and those of other clients. *)
Definition kept (rid : Z) (key : scoutfs_key) (it : btree_item) : bool :=
  key_ltb (fst it) key || negb (owned_by rid it).

(** The results the five fallible steps of a commit would give, in order:
    refill, empty, prepare, write blocks, write super; a forced unmount
    fails the commit with EIO before any of them. *)
Definition commit_steps (s : server_info) : list Z :=
  if forcing_unmount s then [- EIO]
  else map (fun i => fault_errno (nth i (faults s) NoFault)) [0; 1; 2; 3; 4]%nat.

(** The spec's outcome of a commit: 0 on success, the error of the first
    failing step otherwise. *)
Definition first_failure (results : list Z) : Z :=
  match List.find (fun r => negb (r =? 0)) results with
  | Some e => e
  | None => 0
  end.

Definition commit_outcome (s : server_info) : Z :=
  first_failure (commit_steps s).

(** What a commit leaves alone. *)
Definition same_data (s s' : server_info) : Prop :=
  next_ino (super s') = next_ino (super s) /\
  next_trans_seq (super s') = next_trans_seq (super s) /\
  trans_seqs (super s') = trans_seqs (super s) /\
  mounted_clients (super s') = mounted_clients (super s) /\
  sent s' = sent s /\
  farewell_requests s' = farewell_requests s /\
  votes_needed s' = votes_needed s /\
  forcing_unmount s' = forcing_unmount s.

(** "Sets next_trans_seq to s + 1", of an ADVANCE_SEQ that reports
    success. *)
Definition advance_seq_increments (fuel : nat) (s : server_info)
           (rid cmd id : Z) : Prop :=
  forall ret s' r,
    server_advance_seq fuel s rid cmd id [] = Some (ret, s') ->
    last (sent s') = Some r -> resp_error r = 0 ->
    next_trans_seq (super s') = next_trans_seq (super s) + 1.

(** The invariant as the spec words it: whatever GET_LAST_SEQ answers is
    below the seq of every live item. *)
Definition last_seq_below_live (s : server_info) (rid cmd id : Z) : Prop :=
  forall r v,
    last (sent (snd (server_get_last_seq s rid cmd id []))) = Some r ->
    resp_error r = 0 -> resp_data r = Le64 v ->
    forall x, In x (trans_seqs (super s)) -> v < skts_trans_seq (fst x).

(** The items [insert_mounted_client] writes: a mounted-client key of a
    u64 rid with one byte of flags. *)
Definition is_mounted_client_item (it : btree_item) : bool :=
  (sk_zone (fst it) =? SCOUTFS_MOUNTED_CLIENT_ZONE) && (sk_type (fst it) =? 0) &&
  is_u64 (sk_first (fst it)) && (sk_second (fst it) =? 0) &&
  (sk_third (fst it) =? 0) && (sk_fourth (fst it) =? 0) &&
  Nat.eqb (length (snd it)) 1.

Fixpoint distinct_keys (t : btree) : bool :=
  match t with
  | [] => true
  | it :: rest => negb (has_key rest (fst it)) && distinct_keys rest
  end.

(** The mounted_clients tree holds one well-formed record per rid. *)
Definition mounted_clients_ok (t : btree) : bool :=
  forallb is_mounted_client_item t && distinct_keys t.

Definition client_record (mc : btree) (rid : Z) : option btree_item :=
  List.find (fun it => key_eqb (fst it) (init_mounted_client_key rid)) mc.

(** A farewell of a client whose record carries the quorum flag. *)
Definition quorum_member (mc : btree) (fw : farewell_request) : bool :=
  match client_record mc (fw_rid fw) with
  | Some it => is_quorum it
  | None => false
  end.

(** A farewell of a client whose record is there without the flag. *)
Definition plain_member (mc : btree) (fw : farewell_request) : bool :=
  match client_record mc (fw_rid fw) with
  | Some it => negb (is_quorum it)
  | None => false
  end.

Definition count {A} (f : A -> bool) (l : list A) : Z :=
  Z.of_nat (length (List.filter f l)).

(** The items the counting loop has still to visit, by flag. *)
Definition ahead (key : scoutfs_key) (q : btree_item -> bool)
           (it : btree_item) : bool :=
  key_geb (fst it) key && q it.

(** The test of the third loop on the worker's counters, as a
    proposition. *)
Definition send_test (votes quo_mnts quo_reqs non_mnts : Z) : Prop :=
  wrap32 votes < quo_mnts \/ (quo_reqs = quo_mnts /\ non_mnts = 0).

(** The rids of the mounted clients whose record satisfies [q]. *)
Definition mounted_rids (q : btree_item -> bool) (mc : btree) : list Z :=
  map (fun it => skmc_rid (fst it)) (List.filter q mc).

Definition quorum_rids (mc : btree) : list Z := mounted_rids is_quorum mc.
Definition plain_rids (mc : btree) : list Z :=
  mounted_rids (fun it => negb (is_quorum it)) mc.

(** The quorum mounts that remain once the farewells in [gone] have been
    released. *)
Definition remaining_quorum (mc : btree) (gone : list farewell_request)
  : list Z :=
  List.filter (fun r => negb (existsb (Z.eqb r) (map fw_rid gone)))
              (quorum_rids mc).

(** The rule of the spec for the farewell of a quorum member, when the
    farewells in [gone] have been released before it and those in
    [pending], itself among them, are waiting: the quorum mounts that
    remain exceed the votes needed, or they are just the clients with a
    pending farewell and every other mount has sent its farewell too. *)
Definition mount_rule (votes : Z) (mc : btree)
           (reqs gone pending : list farewell_request) : Prop :=
  votes < Z.of_nat (length (remaining_quorum mc gone)) \/
  ((forall r, In r (remaining_quorum mc gone) <-> In r (map fw_rid pending)) /\
   (forall r, In r (plain_rids mc) -> In r (map fw_rid reqs))).

(** "A farewell of a client without the quorum flag, or whose record is
    gone, is always moved to the send set." *)
Definition plain_always_sent (fuel : nat) (s : server_info)
           (reqs : list farewell_request) : Prop :=
  forall l s',
    farewell_classify fuel s reqs = Some (l, s') ->
    forall fw, In fw reqs ->
      quorum_member (mounted_clients (super s)) fw = false -> In fw (fl_send l).

(** "A farewell of a quorum member is moved to the send set only if" the
    rule holds at its turn, the [j]th among the quorum members'. *)
Definition quorum_sent_by_rule (fuel : nat) (s : server_info)
           (reqs : list farewell_request) : Prop :=
  forall l s' j fw,
    farewell_classify fuel s reqs = Some (l, s') ->
    let mc := mounted_clients (super s) in
    let Q := List.filter (quorum_member mc) reqs in
    nth_error Q j = Some fw -> In fw (fl_send l) ->
    mount_rule (votes_needed s) mc reqs (firstn j Q) (skipn j Q).

(** *** example states *)

(** Clients 1 and 2 with open transactions at seqs 5, 3 and 7; three quorum
    mounts 1, 2, 3 and the plain mount 4; two votes needed. *)
Definition ex_trans_seqs : btree :=
  [(init_trans_seq_key 5 1, []); (init_trans_seq_key 3 2, []);
   (init_trans_seq_key 7 1, [])].

Definition ex_mounted_clients : btree :=
  [(init_mounted_client_key 1, [1]); (init_mounted_client_key 2, [1]);
   (init_mounted_client_key 3, [1]); (init_mounted_client_key 4, [0])].

Definition ex_super : scoutfs_super_block :=
  mk_super 99 1 100 8 ex_trans_seqs ex_mounted_clients 11 12 13
           (0, 0) (0, 0) (0, 0).

Definition ex_server : server_info :=
  mk_server ex_super None false false [] 0 0 0 false false 0
            (mk_roots 1 2 3) [] 2 [] [].

(** Client 7 holds the one open transaction, at seq 0. *)
Definition ex_zero_seq_server : server_info :=
  set_super ex_server
    (set_next_trans_seq
       (set_trans_seqs ex_super [(init_trans_seq_key 0 7, [])]) 1).

(** The last seq there is, is the next to hand out. *)
Definition ex_last_seq_server : server_info :=
  set_super ex_server (set_next_trans_seq ex_super U64_MAX).

(** Farewells of the quorum mount 1, the plain mount 4 and the quorum
    mount 2, in the order they arrived. *)
Definition ex_farewells : list farewell_request :=
  [mk_fw 31 1; mk_fw 34 4; mk_fw 32 2].

(** Client 1 has sent its farewell twice; clients 2 and 4 once, and the
    quorum mount 3 not at all. *)
Definition ex_repeated_farewells : list farewell_request :=
  [mk_fw 31 1; mk_fw 35 1; mk_fw 32 2; mk_fw 34 4].

End Server.

(* ===================================================================== *)
(** ** The block layer's dirty tracking *)
(* ===================================================================== *)

Module BlockProps.
Import Block.

(** The block's buffer is cached and carries a private struct, the
    [block_bh_private] that links it into the dirty tree. *)
Definition is_tracked (sbi : scoutfs_sb_info) (blkno : Z) : bool :=
  match bufs sbi !! blkno with
  | Some bh => b_private bh
  | None => false
  end.

(** The dirty tree holds every block once, and exactly the blocks whose
    buffer carries a private struct. *)
Definition dirty_tracked (sbi : scoutfs_sb_info) : Prop :=
  List.NoDup (block_dirty_tree sbi) /\
  forall b, In b (block_dirty_tree sbi) <-> is_tracked sbi b = true.

(** A block as [scoutfs_block_set_crc] leaves it. *)
Definition crc_set (d : block_data) : block_data :=
  with_crc d (scoutfs_crc_block d).

(** Membership in a list of block numbers. *)
Definition memb (b : Z) (l : list Z) : bool := existsb (Z.eqb b) l.

(** Two states with the same dirty tree and the same private structs. *)
Definition same_tracking (s s' : scoutfs_sb_info) : Prop :=
  block_dirty_tree s' = block_dirty_tree s /\
  forall b, is_tracked s' b = is_tracked s b.

(** [is_tracked] on the buffer cache alone. *)
Definition tracked_in (m : gmap Z buffer_head) (x : Z) : bool :=
  match m !! x with Some b => b_private b | None => false end.

(** A device that accepts and completes every write. *)
Definition ex_working_dev : device := mk_dev (fun _ => 0) (fun _ => true).

End BlockProps.

(* ===================================================================== *)
(** ** What a reclaimed client leaves, and open transactions *)
(* ===================================================================== *)

Module ServerProps.
Import Server.


(** What reclaiming a client leaves alone. *)
Definition same_rest (s s' : server_info) : Prop :=
  next_ino (super s') = next_ino (super s) /\
  next_trans_seq (super s') = next_trans_seq (super s) /\
  sent s' = sent s /\
  farewell_requests s' = farewell_requests s /\
  votes_needed s' = votes_needed s /\
  forcing_unmount s' = forcing_unmount s.

(** The tree without the items of [rid], and without the record of [rid]. *)
Definition without_seqs (rid : Z) (t : btree) : btree :=
  List.filter (fun it => negb (owned_by rid it)) t.

Definition without_client (rid : Z) (t : btree) : btree :=
  List.filter (fun it => negb (key_eqb (fst it) (init_mounted_client_key rid))) t.



End ServerProps.

(* ===================================================================== *)
(** ** server.c: data allocator zone bitmaps *)
(* ===================================================================== *)

Module Zones.

(** A zone bitmap, [__le64 bits[]] addressed by [set_bit_le] and friends,
    as the number whose binary digit [nr] is bit [nr] of the array. *)
Definition set_bit_le (nr bits : Z) : Z := Z.setbit bits nr.
Definition clear_bit_le (nr bits : Z) : Z := Z.clearbit bits nr.

(** The kernel's [find_next_bit_le]: the first set bit at or after
    [offset] and below [size], or [size]. *)
Fixpoint find_next_bit_from (addr : Z) (n : nat) (offset : Z) : Z :=
  match n with
  | O => offset
  | S n' =>
      if Z.testbit addr offset then offset
      else find_next_bit_from addr n' (offset + 1)
  end.

Definition find_next_bit_le (addr size offset : Z) : Z :=
  if size <=? offset then size
  else find_next_bit_from addr (Z.to_nat (size - offset)) offset.

(** The [while (nr <= last_nr)] loop of [mod_extent_bits]; [nr] is a u64. *)
Fixpoint mod_extent_loop (fuel : nat) (bits nr last_nr : Z) (set : bool)
  : option Z :=
  match fuel with
  | O => None
  | S fuel' =>
      if nr <=? last_nr then
        mod_extent_loop fuel'
          (if set then set_bit_le nr bits else clear_bit_le nr bits)
          (wrap64 (nr + 1)) last_nr set
      else Some bits
  end.

(** [mod_extent_bits].  [None] is a call that does not return: the
    division by a zero [zone_blocks] traps, and so does a loop that
    outlasts its fuel. *)
Definition mod_extent_bits (fuel : nat) (bits zone_blocks blkno len : Z)
           (set : bool) : option Z :=
  if zone_blocks =? 0 then None
  else
    let nr := blkno / zone_blocks in
    let last_nr := wrap64 (blkno + len - 1) / zone_blocks in
    if len =? 0 then Some bits
    else mod_extent_loop fuel bits nr last_nr set.

(** The [for (;;)] loop of [mod_bitmap_bits] with [nr] where the source
    has it.  SCOUTFS_DATA_ALLOC_MAX_ZONES is defined in format.h, which is
    absent: the functions take it as [max_zones]. *)
Fixpoint mod_bitmap_loop (fuel efuel : nat) (max_zones : Z)
         (dst dst_zone_blocks src src_zone_blocks : Z) (set : bool) (nr : Z)
  : option Z :=
  match fuel with
  | O => None
  | S fuel' =>
      let nr := find_next_bit_le src max_zones nr in
      if max_zones <=? nr then Some dst
      else
        dst ← mod_extent_bits efuel dst dst_zone_blocks
                              (wrap64 (nr * src_zone_blocks)) src_zone_blocks set;
        mod_bitmap_loop fuel' efuel max_zones dst dst_zone_blocks
                        src src_zone_blocks set (nr + 1)
  end.

Definition mod_bitmap_bits (fuel efuel : nat) (max_zones : Z)
           (dst dst_zone_blocks src src_zone_blocks : Z) (set : bool)
  : option Z :=
  mod_bitmap_loop fuel efuel max_zones dst dst_zone_blocks src src_zone_blocks
                  set 0.

(** Zone [m] of [zone_blocks] blocks and the extent of [len] blocks at
    [blkno] have a block in common. *)
Definition zone_overlaps (zone_blocks m blkno len : Z) : bool :=
  (m * zone_blocks <? blkno + len) && (blkno <? (m + 1) * zone_blocks).


End Zones.

(* ===================================================================== *)
(** ** server.c: the greeting handler and mounted clients *)
(* ===================================================================== *)

Module Greeting.
Import Server.

(** [struct scoutfs_net_greeting], its fields in host order. *)
Record scoutfs_net_greeting := mk_greeting {
  gr_fsid : Z;
  gr_version : Z;
  gr_server_term : Z;
  gr_rid : Z;
  gr_flags : Z
}.

Record greeting_response := mk_gresp {
  gresp_cmd : Z;
  gresp_id : Z;
  gresp_error : Z;
  gresp_greet : scoutfs_net_greeting
}.

(** A call of [scoutfs_net_server_greeting]. *)
Record net_greeting_call := mk_ngc {
  ngc_rid : Z;
  ngc_id : Z;
  ngc_reconnecting : bool;
  ngc_first_contact : bool;
  ngc_farewell : bool
}.

(** The server with what the greeting handler uses beside the core:
    [server->term], the greeting responses handed to the transport, the
    transport's greeting calls, and how often the farewell work was
    queued. *)
Record greeting_server := mk_gs {
  gs_core : server_info;
  gs_term : Z;
  gs_sent : list greeting_response;
  gs_net_greeted : list net_greeting_call;
  gs_farewell_queued : nat
}.

Definition set_core (g : greeting_server) (s : server_info) : greeting_server :=
  mk_gs s (gs_term g) (gs_sent g) (gs_net_greeted g) (gs_farewell_queued g).

(** [insert_mounted_client].  SCOUTFS_NET_GREETING_FLAG_QUORUM is defined
    in format.h, which is absent: it is the argument [FLAG_QUORUM]. *)
Definition insert_mounted_client (FLAG_QUORUM : Z) (s : server_info)
           (rid gr_flags : Z) : Z * server_info :=
  let key := init_mounted_client_key rid in
  let flags := 0 in
  let flags := if negb (Z.land gr_flags FLAG_QUORUM =? 0)
               then Z.lor flags SCOUTFS_MOUNTED_CLIENT_QUORUM else flags in
  let '(ret, s) := scoutfs_btree_insert s MOUNTED_CLIENTS key [flags] in
  (if ret =? - EEXIST then 0 else ret, s).





End Greeting.

(* ===================================================================== *)
(** ** server.c: volume options *)
(* ===================================================================== *)

Module Volopt.
Import Server.

(** Modelled from the spec: format.h is absent.  A bitmask [set_bits] plus
    an array of 64-bit values, the 64 that the loop of
    [server_clear_volopt] walks from [first_valopt] on; the option
    [data_alloc_zone_blocks] is bit 0 and the first value. *)
Record scoutfs_volume_options := mk_volopt {
  set_bits : Z;
  valopts : list Z
}.

Definition SCOUTFS_VOLOPT_DATA_ALLOC_ZONE_BLOCKS_NR : Z := 0.
Definition SCOUTFS_VOLOPT_DATA_ALLOC_ZONE_BLOCKS_BIT : Z := 1.

Definition data_alloc_zone_blocks (v : scoutfs_volume_options) : Z :=
  nth 0 (valopts v) 0.

Definition sizeof_volume_options : Z := 8 + 8 * 64.

(** [first_valopt(volopt) + nr], read. *)
Definition first_valopt (v : scoutfs_volume_options) (nr : Z) : Z :=
  nth (Z.to_nat nr) (valopts v) 0.

(** A response that carries volume options; [None] is the handler's
    [volopt] that was never filled in. *)
Record volopt_response := mk_vresp {
  vr_rid : Z;
  vr_cmd : Z;
  vr_id : Z;
  vr_error : Z;
  vr_volopt : option scoutfs_volume_options
}.

(** The server with the fields the volume option handlers use:
    [server->volopt], [super->volopt] and [super->total_data_blocks]. *)
Record volopt_server := mk_vs {
  vs_core : server_info;
  vs_volopt : scoutfs_volume_options;
  vs_super_volopt : scoutfs_volume_options;
  vs_total_data_blocks : Z;
  vs_sent : list volopt_response
}.

Definition set_core (v : volopt_server) (s : server_info) : volopt_server :=
  mk_vs s (vs_volopt v) (vs_super_volopt v) (vs_total_data_blocks v) (vs_sent v).
Definition set_volopt (v : volopt_server) (o : scoutfs_volume_options)
  : volopt_server :=
  mk_vs (vs_core v) o (vs_super_volopt v) (vs_total_data_blocks v) (vs_sent v).
Definition set_super_volopt (v : volopt_server) (o : scoutfs_volume_options)
  : volopt_server :=
  mk_vs (vs_core v) (vs_volopt v) o (vs_total_data_blocks v) (vs_sent v).

(** [get_volopt_val]: whether option [nr] is set, and its value. *)
Definition get_volopt_val (v : volopt_server) (nr : Z) : bool * Z :=
  let bit := wrap64 (Z.shiftl 1 nr) in
  if negb (Z.land (set_bits (vs_volopt v)) bit =? 0)
  then (true, first_valopt (vs_volopt v) nr)
  else (false, 0).

Definition server_get_volopt (v : volopt_server) (rid cmd id arg_len : Z)
  : Z * volopt_server :=
  let '(ret, volopt) :=
    if negb (arg_len =? 0) then (- EINVAL, None)
    else (0, Some (vs_volopt v)) in
  (0, mk_vs (vs_core v) (vs_volopt v) (vs_super_volopt v)
            (vs_total_data_blocks v)
            (vs_sent v ++ [mk_vresp rid cmd id ret volopt])).

(** The tail of SET_VOLOPT and CLEAR_VOLOPT from [apply:] on: commit, then
    publish the super block's options or take them back. *)
Definition volopt_apply (v : volopt_server) (ret : Z) (rid cmd id : Z)
  : Z * volopt_server :=
  let '(ret, s) := scoutfs_server_apply_commit (vs_core v) ret in
  let v := set_core v s in
  let v := if ret =? 0 then set_volopt v (vs_super_volopt v)
           else set_super_volopt v (vs_volopt v) in
  let '(r, s) := scoutfs_net_response (vs_core v) rid cmd id ret NoData in
  (r, set_core v s).

Definition volopt_reject (v : volopt_server) (ret : Z) (rid cmd id : Z)
  : Z * volopt_server :=
  let '(r, s) := scoutfs_net_response (vs_core v) rid cmd id ret NoData in
  (r, set_core v s).

(** [server_set_volopt].  SCOUTFS_VOLOPT_EXPANSION_BITS,
    SCOUTFS_SERVER_DATA_FILL_TARGET and SCOUTFS_DATA_ALLOC_MAX_ZONES are
    defined in headers that are absent: the handler takes them as
    arguments. *)
Definition server_set_volopt (SCOUTFS_VOLOPT_EXPANSION_BITS
                              SCOUTFS_SERVER_DATA_FILL_TARGET
                              SCOUTFS_DATA_ALLOC_MAX_ZONES : Z)
           (v : volopt_server) (rid cmd id arg_len : Z)
           (volopt : scoutfs_volume_options) : Z * volopt_server :=
  if negb (arg_len =? sizeof_volume_options)
  then volopt_reject v (- EINVAL) rid cmd id
  else if negb (Z.land (set_bits volopt) SCOUTFS_VOLOPT_EXPANSION_BITS =? 0)
  then volopt_reject v (- EINVAL) rid cmd id
  else
    let '(ret, s) := scoutfs_server_hold_commit (vs_core v) in
    let v := set_core v s in
    if negb (ret =? 0) then volopt_reject v ret rid cmd id
    else if negb (Z.land (set_bits volopt)
                         SCOUTFS_VOLOPT_DATA_ALLOC_ZONE_BLOCKS_BIT =? 0)
    then
      let opt := data_alloc_zone_blocks volopt in
      if opt <? SCOUTFS_SERVER_DATA_FILL_TARGET
      then volopt_apply v (- EINVAL) rid cmd id
      else
        let nr := vs_total_data_blocks v / SCOUTFS_DATA_ALLOC_MAX_ZONES in
        if opt <? nr then volopt_apply v (- EINVAL) rid cmd id
        else if vs_total_data_blocks v <? opt
        then volopt_apply v (- EINVAL) rid cmd id
        else
          let sv := vs_super_volopt v in
          let sv := mk_volopt
                      (Z.lor (set_bits sv) SCOUTFS_VOLOPT_DATA_ALLOC_ZONE_BLOCKS_BIT)
                      (<[0%nat := opt]> (valopts sv)) in
          volopt_apply (set_super_volopt v sv) ret rid cmd id
    else volopt_apply v ret rid cmd id.

(** The [for] loop of [server_clear_volopt] over the 64 options. *)
Fixpoint clear_volopt_loop (n : nat) (i bit : Z) (arg_bits : Z)
         (sv : scoutfs_volume_options) : scoutfs_volume_options :=
  match n with
  | O => sv
  | S n' =>
      let sv :=
        if negb (Z.land arg_bits bit =? 0)
        then mk_volopt (Z.land (set_bits sv) (wrap64 (Z.lnot bit)))
                       (<[Z.to_nat i := 0]> (valopts sv))
        else sv in
      clear_volopt_loop n' (i + 1) (wrap64 (Z.shiftl bit 1)) arg_bits sv
  end.

Definition server_clear_volopt (SCOUTFS_VOLOPT_EXPANSION_BITS : Z)
           (v : volopt_server) (rid cmd id arg_len : Z)
           (volopt : scoutfs_volume_options) : Z * volopt_server :=
  if negb (arg_len =? sizeof_volume_options)
  then volopt_reject v (- EINVAL) rid cmd id
  else if negb (Z.land (set_bits volopt) SCOUTFS_VOLOPT_EXPANSION_BITS =? 0)
  then volopt_reject v (- EINVAL) rid cmd id
  else
    let '(ret, s) := scoutfs_server_hold_commit (vs_core v) in
    let v := set_core v s in
    if negb (ret =? 0) then volopt_reject v ret rid cmd id
    else
      let sv := clear_volopt_loop 64 0 1 (set_bits volopt) (vs_super_volopt v) in
      volopt_apply (set_super_volopt v sv) ret rid cmd id.

(** *** example states *)

(** No option set, 1000 data blocks. *)
Definition ex_volopt_server : volopt_server :=
  mk_vs ex_server (mk_volopt 0 (repeat 0 64)) (mk_volopt 0 (repeat 0 64)) 1000 [].

(** Option 0 set to 500 blocks in memory and in the super block. *)
Definition ex_zoned_server : volopt_server :=
  mk_vs ex_server (mk_volopt 1 (500 :: repeat 0 63))
        (mk_volopt 1 (500 :: repeat 0 63)) 1000 [].

End Volopt.


(* ===================================================================== *)
(** ** Properties of the block layer *)
(* ===================================================================== *)

Module BlockFacts.
Import Block.

Lemma next_fault_frame sbi f sbi1 :
  next_fault sbi = (f, sbi1) ->
  f <= 0 /\ super_hdr sbi1 = super_hdr sbi /\ bufs sbi1 = bufs sbi /\
  bud sbi1 = bud sbi /\ block_dirty_tree sbi1 = block_dirty_tree sbi /\
  disk sbi1 = disk sbi.
Proof.
  unfold next_fault, take_fault.
  destruct (faults sbi) as [|[] ?]; intros [= <- <-]; simpl;
    repeat split; auto; unfold EIO, ENOMEM, ENOSPC; lia.
Qed.

Lemma sb_bread_frame sbi blkno o sbi1 :
  sb_bread sbi blkno = (o, sbi1) ->
  super_hdr sbi1 = super_hdr sbi /\ bud sbi1 = bud sbi /\
  faults sbi1 = faults sbi /\ block_dirty_tree sbi1 = block_dirty_tree sbi /\
  (forall bh, o = Some bh -> bufs sbi1 !! blkno = Some bh) /\
  (forall b, b <> blkno -> bufs sbi1 !! b = bufs sbi !! b).
Proof.
  unfold sb_bread. intros H.
  destruct (bufs sbi !! blkno) as [bh0|] eqn:Hb.
  - destruct (b_uptodate bh0).
    + inversion H; subst. repeat split; auto. intros bh' [= <-]. exact Hb.
    + destruct (disk sbi !! blkno); inversion H; subst; simpl; repeat split; auto;
        try discriminate.
      * intros bh' [= <-]. apply lookup_insert_eq.
      * intros k Hne. apply lookup_insert_ne. congruence.
  - destruct (disk sbi !! blkno); inversion H; subst; simpl; repeat split; auto;
      try discriminate.
    + intros bh' [= <-]. apply lookup_insert_eq.
    + intros k Hne. apply lookup_insert_ne. congruence.
Qed.

Lemma block_read_ok sbi blkno bl sbi1 :
  scoutfs_block_read sbi blkno = (BL bl, sbi1) ->
  bl = blkno /\ super_hdr sbi1 = super_hdr sbi /\ bud sbi1 = bud sbi /\
  is_Some (scoutfs_block_data sbi1 blkno).
Proof.
  unfold scoutfs_block_read. destruct (sb_bread sbi blkno) as [[bh|] s1] eqn:E;
    [|discriminate].
  destruct (sb_bread_frame _ _ _ _ E) as (Hs & Hb & _ & _ & Hl & _).
  specialize (Hl bh eq_refl). unfold scoutfs_block_data.
  destruct (b_verified bh).
  - intros [= <- <-]. rewrite Hl. simpl. eauto.
  - destruct (verify_block_header s1 blkno bh =? 0); [|discriminate].
    intros [= <- <-]. simpl. rewrite lookup_insert_eq. simpl. eauto.
Qed.

Lemma alloc_same_choice_in place near l :
  l <> [] -> In (alloc_same_choice place near l) l.
Proof.
  intros Hl. unfold alloc_same_choice.
  destruct (existsb (Z.eqb (place near l)) l) eqn:E.
  - apply existsb_exists in E. destruct E as (x & Hx & Hc).
    apply Z.eqb_eq in Hc. rewrite Hc. exact Hx.
  - destruct l; [contradiction|]. left. reflexivity.
Qed.

Lemma alloc_same_ok place sbi near ret blkno sbi1 :
  scoutfs_buddy_alloc_same place sbi near = (ret, blkno, sbi1) ->
  (ret <? 0) = false ->
  blkno = alloc_same_choice place near (avail (bud sbi)) /\
  In blkno (avail (bud sbi)) /\
  avail (bud sbi1) = rb_erase (avail (bud sbi)) blkno /\
  freed (bud sbi1) = freed (bud sbi) /\
  super_hdr sbi1 = super_hdr sbi /\ bufs sbi1 = bufs sbi.
Proof.
  unfold scoutfs_buddy_alloc_same.
  destruct (next_fault sbi) as [f s1] eqn:E.
  destruct (next_fault_frame _ _ _ E) as (Hf & Hs & Hb & Hbud & _).
  destruct (Z.eqb_spec f 0); simpl.
  - rewrite Hbud. destruct (avail (bud sbi)) as [|b rest] eqn:Ha.
    + intros [= <- <- <-] H. discriminate.
    + intros [= <- <- <-] _. simpl bud. cbn [avail freed].
      repeat split; auto.
      apply alloc_same_choice_in. discriminate.
  - intros [= <- <- <-] H. apply Z.ltb_ge in H. lia.
Qed.

Lemma insert_bhp_frame sbi blkno ret sbi1 :
  insert_bhp sbi blkno = (ret, sbi1) ->
  super_hdr sbi1 = super_hdr sbi /\ bud sbi1 = bud sbi /\
  (forall k, b_data <$> bufs sbi1 !! k = b_data <$> bufs sbi !! k).
Proof.
  unfold insert_bhp. destruct (bufs sbi !! blkno) as [bh|] eqn:Hb.
  - destruct (b_private bh).
    + intros [= <- <-]. auto.
    + destruct (next_fault sbi) as [f s1] eqn:E.
      destruct (next_fault_frame _ _ _ E) as (Hf & Hs & Hbu & Hbud & _).
      destruct (f =? 0); simpl.
      * intros [= <- <-]. simpl. repeat split; auto. intros k.
        rewrite Hbu. destruct (decide (blkno = k)) as [<-|Hne].
        -- rewrite lookup_insert_eq, Hb. reflexivity.
        -- rewrite lookup_insert_ne by exact Hne. reflexivity.
      * intros [= <- <-]. repeat split; auto. intros k. rewrite Hbu. reflexivity.
  - intros [= <- <-]. auto.
Qed.

Lemma block_dirty_ok sbi blkno c sbi1 :
  scoutfs_block_dirty sbi blkno = (BL c, sbi1) ->
  c = blkno /\ super_hdr sbi1 = super_hdr sbi /\ bud sbi1 = bud sbi /\
  is_Some (bufs sbi1 !! blkno) /\
  (forall k, k <> blkno -> scoutfs_block_data sbi1 k = scoutfs_block_data sbi k).
Proof.
  unfold scoutfs_block_dirty, sb_getblk.
  destruct (next_fault sbi) as [f s1] eqn:E.
  destruct (next_fault_frame _ _ _ E) as (Hf & Hs & Hbu & Hbud & _).
  destruct (f =? 0); simpl; [|discriminate].
  destruct (bufs s1 !! blkno) as [bh|] eqn:Hb.
  - destruct (insert_bhp s1 blkno) as [ret s2] eqn:Ei.
    destruct (insert_bhp_frame _ _ _ _ Ei) as (Hs2 & Hbud2 & Hd2).
    destruct (ret <? 0); [discriminate|]. intros [= <- <-]. simpl.
    repeat split; try congruence.
    + rewrite lookup_alter_eq. specialize (Hd2 blkno). rewrite Hb in Hd2.
      destruct (bufs s2 !! blkno); simpl in *; [eauto|discriminate].
    + intros k Hk. unfold scoutfs_block_data. simpl.
      rewrite lookup_alter_ne by congruence. rewrite Hd2, Hbu. reflexivity.
  - destruct (insert_bhp _ blkno) as [ret s2] eqn:Ei.
    destruct (insert_bhp_frame _ _ _ _ Ei) as (Hs2 & Hbud2 & Hd2).
    destruct (ret <? 0); [discriminate|]. intros [= <- <-]. simpl in *.
    repeat split; try congruence.
    + rewrite lookup_alter_eq. specialize (Hd2 blkno).
      rewrite lookup_insert_eq in Hd2.
      destruct (bufs s2 !! blkno); simpl in *; [eauto|discriminate].
    + intros k Hk. unfold scoutfs_block_data. simpl.
      rewrite lookup_alter_ne by congruence. rewrite Hd2.
      rewrite lookup_insert_ne by congruence. rewrite Hbu. reflexivity.
Qed.

Lemma buddy_free_ok sbi seq blkno order sbi1 :
  scoutfs_buddy_free sbi seq blkno order = (0, sbi1) ->
  super_hdr sbi1 = super_hdr sbi /\ bufs sbi1 = bufs sbi /\
  bud sbi1 =
    (if seq =? h_seq (super_hdr sbi)
     then mk_buddy (blkno :: avail (bud sbi)) (freed (bud sbi))
     else mk_buddy (avail (bud sbi)) ((seq, blkno) :: freed (bud sbi))).
Proof.
  unfold scoutfs_buddy_free.
  destruct (next_fault sbi) as [f s1] eqn:E.
  destruct (next_fault_frame _ _ _ E) as (Hf & Hs & Hbu & Hbud & _).
  destruct (Z.eqb_spec f 0); simpl.
  - rewrite Hs, Hbud. destruct (seq =? h_seq (super_hdr sbi));
      intros [= <-]; simpl; auto.
  - intros [= ? ?]. congruence.
Qed.

Lemma dirty_ref_fail_err sbi ref ret c blkno b ref' sbi' :
  dirty_ref_fail sbi ref ret c blkno <> (BL b, ref', sbi').
Proof.
  unfold dirty_ref_fail. destruct c; [|discriminate].
  destruct (scoutfs_buddy_free _ _ _ _). discriminate.
Qed.

Lemma dirty_ref_fail_ref sbi ref ret c blkno :
  snd (fst (dirty_ref_fail sbi ref ret c blkno)) = ref /\
  exists e, fst (fst (dirty_ref_fail sbi ref ret c blkno)) = ERR_PTR e.
Proof.
  unfold dirty_ref_fail. destruct c; [|split; eauto].
  destruct (scoutfs_buddy_free _ _ _ _). split; eauto.
Qed.

Lemma block_dirty_body sbi blkno c sbi1 :
  scoutfs_block_dirty sbi blkno = (BL c, sbi1) ->
  exists d,
    scoutfs_block_data sbi1 blkno = Some d /\
    hdr d = mk_hdr (h_crc (super_hdr sbi)) (h_fsid (super_hdr sbi)) blkno
                   (h_seq (super_hdr sbi)) /\
    forall old, scoutfs_block_data sbi blkno = Some old -> body d = body old.
Proof.
  unfold scoutfs_block_dirty, sb_getblk.
  destruct (next_fault sbi) as [f s1] eqn:E.
  destruct (next_fault_frame _ _ _ E) as (Hf & Hs & Hbu & Hbud & _).
  destruct (f =? 0); simpl; [|discriminate].
  unfold scoutfs_block_data. rewrite <- Hbu.
  destruct (bufs s1 !! blkno) as [bh|] eqn:Hb.
  - destruct (insert_bhp s1 blkno) as [ret s2] eqn:Ei.
    destruct (insert_bhp_frame _ _ _ _ Ei) as (Hs2 & Hbud2 & Hd2).
    destruct (ret <? 0); [discriminate|]. intros [= <- <-]. simpl.
    rewrite lookup_alter_eq. specialize (Hd2 blkno). rewrite Hb in Hd2.
    destruct (bufs s2 !! blkno) as [bh2|]; simpl in *; [|discriminate].
    injection Hd2 as Hd2. eexists. split; [reflexivity|]. simpl.
    split; [congruence|]. intros old [= <-]. congruence.
  - destruct (insert_bhp _ blkno) as [ret s2] eqn:Ei.
    destruct (insert_bhp_frame _ _ _ _ Ei) as (Hs2 & Hbud2 & Hd2).
    destruct (ret <? 0); [discriminate|]. intros [= <- <-]. simpl in *.
    rewrite lookup_alter_eq. specialize (Hd2 blkno).
    rewrite lookup_insert_eq in Hd2.
    destruct (bufs s2 !! blkno) as [bh2|]; simpl in *; [|discriminate].
    eexists. split; [reflexivity|]. simpl.
    split; [congruence|]. intros old H. discriminate H.
Qed.

(** C4, as the code has it.  [scoutfs_block_dirty_ref] of any reference.
    On failure the reference is not touched.  On success, when the
    reference's seq is the dirty seq, the block read at its blkno is
    returned as it was read and the reference is not touched.  Otherwise
    the block returned is the block of avail that the allocator places for
    the old blkno; it carries the old block's body under a header with the
    new blkno and the dirty seq, which the reference now names too; and,
    the new block being another than the old one, it holds the old
    block's contents with just blkno and seq stamped, the old block is as
    it was, and it has been freed under the seq and blkno of its own
    header: onto the freed pool when that seq is not the dirty seq, as
    for every reference whose seq is its block's, back into avail when it
    is. *)
Theorem dirty_ref_same_or_cow place sbi ref :
  let rd := scoutfs_block_read sbi (r_blkno ref) in
  let cur := h_seq (super_hdr sbi) in
  let r := scoutfs_block_dirty_ref place sbi ref in
  let ref' := snd (fst r) in
  let sbi' := snd r in
  match fst (fst r) with
  | ERR_PTR e => ref' = ref
  | BL b =>
      if r_seq ref =? cur then
        b = r_blkno ref /\ ref' = ref /\ sbi' = snd rd
      else
        exists old,
          scoutfs_block_data (snd rd) (r_blkno ref) = Some old /\
          b = alloc_same_choice place (r_blkno ref) (avail (bud sbi)) /\
          In b (avail (bud sbi)) /\
          ref' = mk_ref b cur /\
          (exists d,
             scoutfs_block_data sbi' b = Some d /\ body d = body old /\
             h_blkno (hdr d) = b /\ h_seq (hdr d) = cur) /\
          (b <> r_blkno ref ->
           scoutfs_block_data sbi' b =
             Some (mk_data (mk_hdr (h_crc (hdr old)) (h_fsid (hdr old)) b cur)
                           (body old)) /\
           scoutfs_block_data sbi' (r_blkno ref) = Some old /\
           bud sbi' =
             (if h_seq (hdr old) =? cur
              then mk_buddy (h_blkno (hdr old) :: rb_erase (avail (bud sbi)) b)
                            (freed (bud sbi))
              else mk_buddy (rb_erase (avail (bud sbi)) b)
                            ((h_seq (hdr old), h_blkno (hdr old))
                             :: freed (bud sbi))) /\
           (h_seq (hdr old) = r_seq ref ->
            freed (bud sbi') =
              (r_seq ref, h_blkno (hdr old)) :: freed (bud sbi)))
  end.
Proof.
  cbv zeta. unfold scoutfs_block_dirty_ref.
  destruct (scoutfs_block_read sbi (r_blkno ref)) as [[e|bl] s1] eqn:Er;
    [reflexivity|].
  destruct (block_read_ok _ _ _ _ Er) as (-> & Hs1 & Hbud1 & [old Hold]).
  rewrite Hs1. cbn [snd].
  destruct (r_seq ref =? h_seq (super_hdr sbi)) eqn:Eseq.
  { cbn [fst snd]. auto. }
  destruct (scoutfs_buddy_alloc_same place s1 (r_blkno ref)) as [[ret blkno] s2] eqn:Ea.
  destruct (ret <? 0) eqn:Eret.
  { destruct (dirty_ref_fail_ref s2 ref ret None 0) as (Hr & e & He).
    rewrite He. exact Hr. }
  destruct (alloc_same_ok _ _ _ _ _ _ Ea Eret) as (Hch & Hin & Hav & Hfr & Hs2 & Hb2).
  rewrite Hbud1 in Hch, Hin, Hav, Hfr.
  destruct (scoutfs_block_dirty s2 blkno) as [[e|c] s3] eqn:Ed.
  { destruct (dirty_ref_fail_ref s3 ref e None blkno) as (Hr & e' & He).
    rewrite He. exact Hr. }
  destruct (block_dirty_ok _ _ _ _ Ed) as (-> & Hs3 & Hbud3 & [cbh Hc] & Hd3).
  destruct (block_dirty_body _ _ _ _ Ed) as (dd & Hdd & Hhdr & Hbody).
  assert (Hold2 : scoutfs_block_data s2 (r_blkno ref) = Some old).
  { unfold scoutfs_block_data. rewrite Hb2. exact Hold. }
  assert (Hsrc : exists src,
            scoutfs_block_data s3 (r_blkno ref) = Some src /\ body src = body old /\
            (blkno <> r_blkno ref -> src = old)).
  { destruct (Z.eq_dec blkno (r_blkno ref)) as [E|E].
    - exists dd. rewrite <- E. split; [exact Hdd|]. split; [|contradiction].
      apply Hbody. rewrite E. exact Hold2.
    - exists old. split; [|auto]. rewrite Hd3 by congruence. exact Hold2. }
  destruct Hsrc as (src & Hsrc & Hsb & Hse). rewrite Hsrc.
  destruct (scoutfs_buddy_free s3 (h_seq (hdr src)) (h_blkno (hdr src)) 0)
    as [r4 s4] eqn:Ef.
  destruct (Z.eqb_spec r4 0) as [->|Hr4]; cbn [negb].
  2:{ destruct (dirty_ref_fail_ref s4 ref r4 (Some blkno) blkno) as (Hr & e' & He).
      rewrite He. exact Hr. }
  destruct (buddy_free_ok _ _ _ _ _ Ef) as (Hs4 & Hb4 & Hbud4).
  assert (Hsrc4 : scoutfs_block_data s4 (r_blkno ref) = Some src).
  { unfold scoutfs_block_data. rewrite Hb4. exact Hsrc. }
  rewrite Hsrc4. cbn [fst snd].
  assert (Hcur : h_seq (super_hdr s4) = h_seq (super_hdr sbi))
    by (rewrite Hs4, Hs3, Hs2, Hs1; reflexivity).
  assert (Hnew : scoutfs_block_data
                   (set_bufs s4 (alter (fun bh => set_data bh (cow_data s4 src blkno))
                                       blkno (bufs s4))) blkno =
                 Some (cow_data s4 src blkno)).
  { unfold scoutfs_block_data. cbn [bufs set_bufs].
    rewrite lookup_alter_eq, Hb4, Hc. reflexivity. }
  exists old. split; [exact Hold|]. split; [exact Hch|]. split; [exact Hin|].
  split. { unfold cow_data. cbn [hdr h_blkno h_seq]. rewrite Hcur. reflexivity. }
  split.
  { eexists. split; [exact Hnew|]. unfold cow_data. cbn [body hdr h_blkno h_seq].
    rewrite Hcur. auto. }
  intros Hne. specialize (Hse Hne). subst src.
  split. { rewrite Hnew. unfold cow_data. rewrite Hcur. reflexivity. }
  split.
  { unfold scoutfs_block_data. cbn [bufs set_bufs].
    rewrite lookup_alter_ne by exact Hne. exact Hsrc4. }
  cbn [bud set_bufs]. rewrite Hbud4, Hs3, Hs2, Hs1, Hbud3.
  split.
  { destruct (h_seq (hdr old) =? h_seq (super_hdr sbi)); rewrite Hav, Hfr; reflexivity. }
  intros Hcons. rewrite Hcons, Eseq. cbn [freed]. rewrite Hfr. reflexivity.
Qed.

(** C4 as stated fails for a reference whose seq is behind its block's:
    block 3 is read and dirtied in the transaction of seq 11, and
    [dirty_ref] of the reference [{3, 9}] then moves it to block 4 and
    frees block 3 under seq 11, the seq of its header, which puts it
    back into avail and not onto the freed pool. *)
Lemma dirty_ref_stale_ref_recycles :
  ex_redirtied_sbi = snd (scoutfs_block_dirty (snd (scoutfs_block_read ex_sbi 3)) 3) /\
  fst (scoutfs_block_dirty_ref place_nearest ex_redirtied_sbi (mk_ref 3 9))
    = (BL 4, mk_ref 4 11) /\
  bud (snd (scoutfs_block_dirty_ref place_nearest ex_redirtied_sbi (mk_ref 3 9)))
    = mk_buddy [3; 20; 7] [] /\
  ~ old_block_on_freed place_nearest ex_redirtied_sbi (mk_ref 3 9).
Proof.
  split; [reflexivity|].
  split; [vm_compute; reflexivity|].
  split; [vm_compute; reflexivity|].
  intros H.
  destruct (scoutfs_block_dirty_ref place_nearest ex_redirtied_sbi (mk_ref 3 9))
    as [[p r'] s'] eqn:E.
  assert (Hp : p = BL 4) by (vm_compute in E; congruence).
  assert (Hf : freed (bud s') = []) by (vm_compute in E; inversion E; reflexivity).
  subst p.
  destruct (scoutfs_block_data (snd (scoutfs_block_read ex_redirtied_sbi 3)) 3)
    as [old|] eqn:Eo; [|vm_compute in Eo; discriminate].
  specialize (H 4 r' s' old E ltac:(vm_compute; discriminate) Eo).
  rewrite Hf in H. exact H.
Qed.

Lemma verify_block_header_ok sbi blkno bh :
  verify_block_header sbi blkno bh = 0 <-> header_checks sbi blkno (b_data bh).
Proof.
  unfold verify_block_header, header_checks, EIO.
  destruct (Z.eqb_spec (h_crc (hdr (b_data bh))) (scoutfs_crc_block (b_data bh)));
  destruct (Z.eqb_spec (h_fsid (super_hdr sbi)) 0);
  destruct (Z.eqb_spec (h_fsid (hdr (b_data bh))) (h_fsid (super_hdr sbi)));
  destruct (Z.eqb_spec (h_blkno (hdr (b_data bh))) blkno); simpl;
  split; intros; try discriminate; try tauto; try lia.
Qed.

Lemma verify_block_header_err sbi blkno bh :
  verify_block_header sbi blkno bh = 0 \/ verify_block_header sbi blkno bh = - EIO.
Proof.
  unfold verify_block_header.
  repeat match goal with |- context [if ?c then _ else _] => destruct c end; auto.
Qed.

(** C5, as the code has it.  For a block read at [blkno] whose buffer is
    not marked verified yet: the read succeeds and marks it verified
    exactly when the stored CRC is the CRC32C of the block without its CRC
    field, the stored blkno is [blkno], and the super block's fsid is zero
    or equal to the stored fsid; otherwise the read returns -EIO and the
    block is not marked verified. *)
Theorem block_read_verifies sbi blkno bh sbi1 :
  sb_bread sbi blkno = (Some bh, sbi1) ->
  b_verified bh = false ->
  let r := scoutfs_block_read sbi blkno in
  (header_checks sbi blkno (b_data bh) ->
     fst r = BL blkno /\ is_verified (snd r) blkno = true) /\
  (~ header_checks sbi blkno (b_data bh) ->
     fst r = ERR_PTR (- EIO) /\ is_verified (snd r) blkno = false).
Proof.
  intros Hb Hv r. subst r. unfold scoutfs_block_read. rewrite Hb, Hv.
  destruct (sb_bread_frame _ _ _ _ Hb) as (Hs & _ & _ & _ & Hl & _).
  specialize (Hl bh eq_refl).
  assert (Hc : header_checks sbi1 blkno (b_data bh) <-> header_checks sbi blkno (b_data bh)).
  { unfold header_checks. rewrite Hs. tauto. }
  split; intros H.
  - apply Hc, verify_block_header_ok in H. rewrite H. simpl. split; auto.
    unfold is_verified. simpl. rewrite lookup_insert_eq. reflexivity.
  - destruct (verify_block_header_err sbi1 blkno bh) as [E|E].
    + apply verify_block_header_ok, Hc in E. contradiction.
    + rewrite E. simpl. split; auto. unfold is_verified. rewrite Hl. exact Hv.
Qed.

(** C5 as stated fails where the super block's fsid is zero: block 3 of
    fsid 5 is read and marked verified. *)
Lemma read_zero_fsid_skips_check :
  fst (scoutfs_block_read ex_sbi 3) = BL 3 /\
  is_verified (snd (scoutfs_block_read ex_sbi 3)) 3 = true /\
  h_fsid (hdr ex_block) <> h_fsid (super_hdr ex_sbi) /\
  ~ read_needs_all_three ex_sbi 3.
Proof.
  split; [vm_compute; reflexivity|].
  split; [vm_compute; reflexivity|].
  split; [vm_compute; discriminate|].
  intros H.
  destruct (sb_bread ex_sbi 3) as [o s1] eqn:E.
  vm_compute in E. inversion E; subst. clear E.
  specialize (H _ _ eq_refl eq_refl).
  assert (F : fst (scoutfs_block_read ex_sbi 3) = BL 3) by (vm_compute; reflexivity).
  destruct (H F) as (_ & Hf & _). vm_compute in Hf. discriminate.
Qed.

(** C5 at [ex_sbi]: the checks the code makes hold of block 3. *)
Lemma block_read_verifies_witness :
  fst (scoutfs_block_read ex_sbi 3) = BL 3 /\
  is_verified (snd (scoutfs_block_read ex_sbi 3)) 3 = true.
Proof.
  refine (proj1 (block_read_verifies ex_sbi 3 (mk_bh ex_block true false false)
            (set_bufs ex_sbi (<[3 := mk_bh ex_block true false false]> (bufs ex_sbi)))
            _ _) _).
  - vm_compute. reflexivity.
  - reflexivity.
  - vm_compute. repeat split; auto.
Defined.

Lemma rb_erase_other l n b : In b l -> b <> n -> In b (rb_erase l n).
Proof.
  induction l as [|a l IH]; simpl; auto. intros [->|H] Hne.
  - destruct (Z.eqb_spec b n); [contradiction|left; reflexivity].
  - destruct (a =? n); [exact H|right; auto].
Qed.

Lemma complete_write_frame dev sbi bh :
  let sbi' := complete_write dev sbi bh in
  block_writes sbi' = block_writes sbi - 1 /\
  block_dirty_tree sbi' =
    (if write_completes dev bh then rb_erase (block_dirty_tree sbi) bh
     else block_dirty_tree sbi) /\
  (write_completes dev bh = false ->
   block_write_err sbi' = (if block_write_err sbi =? 0 then - EIO else block_write_err sbi)) /\
  (write_completes dev bh = true -> block_write_err sbi' = block_write_err sbi).
Proof.
  unfold complete_write, block_write_end_io.
  destruct (write_completes dev bh); destruct (scoutfs_block_data sbi bh); simpl;
    repeat split; auto; try discriminate;
    try (intros _; destruct (block_write_err sbi =? 0); reflexivity);
    destruct (block_write_err sbi =? 0); reflexivity.
Qed.

Lemma write_dirty_loop_submitted dev nodes : forall sbi,
  (forall b, In b nodes -> submit_bh dev b = 0) ->
  let r := write_dirty_loop dev nodes sbi in
  fst r = 0 /\ block_writes (snd r) = block_writes sbi /\
  (forall b, In b (block_dirty_tree sbi) -> write_completes dev b = false ->
             In b (block_dirty_tree (snd r))) /\
  (block_write_err sbi = 0 ->
   (exists b, In b nodes /\ write_completes dev b = false) ->
   block_write_err (snd r) = - EIO) /\
  (block_write_err sbi = - EIO -> block_write_err (snd r) = - EIO).
Proof.
  induction nodes as [|n nodes IH]; intros sbi Hs; simpl.
  - repeat split; auto. intros _ (b & [] & _).
  - rewrite (Hs n) by (left; reflexivity). simpl.
    set (s1 := scoutfs_block_set_crc (set_block_writes sbi (block_writes sbi + 1)) n).
    destruct (complete_write_frame dev s1 n) as (Hw & Ht & He0 & He1).
    destruct (IH (complete_write dev s1 n)) as (Hr & Hbw & Hin & Herr & Herr').
    { intros b Hb. apply Hs. right. exact Hb. }
    repeat split.
    + exact Hr.
    + rewrite Hbw, Hw. subst s1. simpl. lia.
    + intros b Hb Hf. apply Hin; [|exact Hf]. rewrite Ht. subst s1. simpl.
      destruct (write_completes dev n) eqn:En; [|exact Hb].
      apply rb_erase_other; [exact Hb|]. intros ->. congruence.
    + intros Hz (b & [->|Hb] & Hf).
      * apply Herr'. rewrite (He0 Hf). subst s1. simpl. rewrite Hz. reflexivity.
      * destruct (write_completes dev n) eqn:En.
        -- apply Herr; [|eauto]. rewrite (He1 eq_refl). subst s1. simpl. exact Hz.
        -- apply Herr'. rewrite (He0 eq_refl). subst s1. simpl. rewrite Hz. reflexivity.
    + intros Hz. apply Herr'. destruct (write_completes dev n) eqn:En.
      * rewrite (He1 eq_refl). subst s1. simpl. exact Hz.
      * rewrite (He0 eq_refl). subst s1. simpl. rewrite Hz. reflexivity.
Qed.

(** What [scoutfs_block_write_dirty] does when every submission is
    accepted: blocks whose write fails stay in the dirty tree and the error
    is recorded in [block_write_err], yet the function returns 0, which is
    what [submit_bh] last returned. *)
Lemma write_dirty_result dev sbi :
  (forall b, In b (block_dirty_tree sbi) -> submit_bh dev b = 0) ->
  let r := scoutfs_block_write_dirty dev sbi in
  fst r = Some 0 /\
  (forall b, In b (block_dirty_tree sbi) -> write_completes dev b = false ->
             In b (block_dirty_tree (snd r))) /\
  ((exists b, In b (block_dirty_tree sbi) /\ write_completes dev b = false) ->
   block_write_err (snd r) = - EIO).
Proof.
  intros Hs. unfold scoutfs_block_write_dirty.
  set (s0 := set_block_write_err (set_block_writes sbi 1) 0).
  destruct (write_dirty_loop_submitted dev (block_dirty_tree s0) s0 Hs)
    as (Hr & Hbw & Hin & Herr & _).
  destruct (write_dirty_loop dev (block_dirty_tree s0) s0) as [ret s1].
  cbn [fst snd] in *. subst ret.
  cbn [block_writes set_block_writes]. rewrite Hbw. subst s0. cbn.
  repeat split; auto.
Qed.

(** C1 at its failing input: block 7 is dirty and its write fails.  The
    block stays in the dirty tree and [block_write_err] records -EIO, but
    the function returns 0. *)
Lemma write_dirty_drops_write_error :
  let r := scoutfs_block_write_dirty ex_failing_dev ex_dirty_sbi in
  block_dirty_tree ex_dirty_sbi = [7] /\
  fst r = Some 0 /\
  block_write_err (snd r) = - EIO /\
  block_dirty_tree (snd r) = [7].
Proof. vm_compute. repeat split; reflexivity. Qed.

End BlockFacts.

(* ===================================================================== *)
(** ** Properties of the server *)
(* ===================================================================== *)

Module ServerFacts.
Import Server.

(** Order facts *)
Lemma or_else_lt c d : or_else c d = Lt <-> c = Lt \/ (c = Eq /\ d = Lt).
Proof. destruct c, d; simpl; intuition congruence. Qed.

Lemma or_else_eq c d : or_else c d = Eq <-> c = Eq /\ d = Eq.
Proof. destruct c, d; simpl; intuition congruence. Qed.

Lemma key_compare_eq a b : scoutfs_key_compare a b = Eq -> a = b.
Proof.
  unfold scoutfs_key_compare. rewrite !or_else_eq, !Z.compare_eq_iff.
  destruct a, b; simpl. intros (-> & -> & -> & -> & -> & ->). reflexivity.
Qed.

Lemma key_compare_refl a : scoutfs_key_compare a a = Eq.
Proof. unfold scoutfs_key_compare. rewrite !Z.compare_refl. reflexivity. Qed.

Lemma key_ltb_spec a b :
  key_ltb a b = true <->
  sk_zone a < sk_zone b \/ (sk_zone a = sk_zone b /\
  (sk_type a < sk_type b \/ (sk_type a = sk_type b /\
  (sk_first a < sk_first b \/ (sk_first a = sk_first b /\
  (sk_second a < sk_second b \/ (sk_second a = sk_second b /\
  (sk_third a < sk_third b \/ (sk_third a = sk_third b /\
   sk_fourth a < sk_fourth b))))))))).
Proof.
  unfold key_ltb, scoutfs_key_compare.
  destruct (or_else _ _) eqn:E.
  - split; [discriminate|]. apply or_else_eq in E.
    rewrite !or_else_eq, !Z.compare_eq_iff in E. lia.
  - rewrite !or_else_lt, !Z.compare_eq_iff, !Z.compare_lt_iff in E. tauto.
  - split; [discriminate|]. intros H. exfalso.
    assert (L : or_else (sk_zone a ?= sk_zone b)
           (or_else (sk_type a ?= sk_type b)
              (or_else (sk_first a ?= sk_first b)
                 (or_else (sk_second a ?= sk_second b)
                    (or_else (sk_third a ?= sk_third b)
                       (sk_fourth a ?= sk_fourth b))))) = Lt).
    { rewrite !or_else_lt, !Z.compare_eq_iff, !Z.compare_lt_iff. tauto. }
    congruence.
Qed.

Lemma key_eqb_spec a b : key_eqb a b = true <-> a = b.
Proof.
  unfold key_eqb. split.
  - destruct (scoutfs_key_compare a b) eqn:E; try discriminate.
    intros _. apply key_compare_eq. exact E.
  - intros ->. rewrite key_compare_refl. reflexivity.
Qed.

Lemma key_ltb_trans a b c :
  key_ltb a b = true -> key_ltb b c = true -> key_ltb a c = true.
Proof. rewrite !key_ltb_spec. lia. Qed.

Lemma key_ltb_irrefl a : key_ltb a a = false.
Proof. destruct (key_ltb a a) eqn:E; auto. apply key_ltb_spec in E. lia. Qed.

Lemma key_total a b : key_ltb a b = true \/ a = b \/ key_ltb b a = true.
Proof.
  rewrite !key_ltb_spec.
  destruct a as [z1 t1 a1 b1 c1 d1], b as [z2 t2 a2 b2 c2 d2]; simpl.
  destruct (Z.lt_total z1 z2) as [?|[?|?]]; [lia| |lia].
  destruct (Z.lt_total t1 t2) as [?|[?|?]]; [lia| |lia].
  destruct (Z.lt_total a1 a2) as [?|[?|?]]; [lia| |lia].
  destruct (Z.lt_total b1 b2) as [?|[?|?]]; [lia| |lia].
  destruct (Z.lt_total c1 c2) as [?|[?|?]]; [lia| |lia].
  destruct (Z.lt_total d1 d2) as [?|[?|?]]; [lia| |lia].
  right; left. subst. reflexivity.
Qed.

Lemma key_ltb_asym a b : key_ltb a b = true -> key_ltb b a = false.
Proof.
  intros H. destruct (key_ltb b a) eqn:E; auto.
  pose proof (key_ltb_trans _ _ _ H E) as F. rewrite key_ltb_irrefl in F. discriminate.
Qed.

(** a < b <= c implies a < c *)
Lemma key_lt_le_trans a b c :
  key_ltb a b = true -> key_ltb c b = false -> key_ltb a c = true.
Proof.
  intros H1 H2. destruct (key_total b c) as [H|[->|H]]; try congruence.
  eapply key_ltb_trans; eauto.
Qed.

(** btree_first_ge *)
Lemma btree_first_ge_some t key m :
  btree_first_ge t key = Some m ->
  In m t /\ key_ltb (fst m) key = false /\
  (forall x, In x t -> key_ltb (fst x) key = false -> key_ltb (fst x) (fst m) = false).
Proof.
  revert m. induction t as [|it t IH]; simpl; [discriminate|]. intros m.
  unfold key_geb.
  destruct (btree_first_ge t key) as [best|] eqn:E.
  - destruct (IH best eq_refl) as (Hin & Hge & Hmin).
    destruct (key_ltb (fst it) key) eqn:Hk; simpl.
    + intros [= <-]. repeat split; auto. intros x [<-|Hx] Hxk; [congruence|auto].
    + destruct (key_ltb (fst it) (fst best)) eqn:Hb; intros [= <-].
      * repeat split; auto. intros x [<-|Hx] Hxk; [apply key_ltb_irrefl|].
        destruct (key_ltb (fst x) (fst it)) eqn:F; auto.
        rewrite <- (Hmin x Hx Hxk). symmetry. eapply key_ltb_trans; eauto.
      * repeat split; auto. intros x [<-|Hx] Hxk; auto.
  - destruct (key_ltb (fst it) key) eqn:Hk; simpl; [discriminate|].
    intros [= <-]. repeat split; auto. intros x [<-|Hx] Hxk; [apply key_ltb_irrefl|].
    exfalso. clear IH. revert x Hx Hxk. induction t as [|y t IHt]; simpl; [tauto|].
    simpl in E. unfold key_geb in E.
    destruct (btree_first_ge t key); [destruct (_ && _); discriminate|].
    destruct (key_ltb (fst y) key) eqn:Hy; simpl in E; [|discriminate].
    intros x [<-|Hx] Hxk; [congruence|]. eapply IHt; eauto.
Qed.

Lemma btree_first_ge_none t key :
  btree_first_ge t key = None ->
  forall x, In x t -> key_ltb (fst x) key = true.
Proof.
  induction t as [|y t IH]; simpl; [tauto|]. unfold key_geb.
  destruct (btree_first_ge t key); [destruct (_ && _); discriminate|].
  destruct (key_ltb (fst y) key) eqn:Hy; simpl; [|discriminate].
  intros _ x [<-|Hx]; auto.
Qed.

Lemma with_trans_seqs_twice s t f t' f' :
  with_trans_seqs (with_trans_seqs s t f) t' f' = with_trans_seqs s t' f'.
Proof. destruct s as [[] ]; reflexivity. Qed.

Lemma is_trans_seq_key_spec k :
  is_trans_seq_key k = true <->
  sk_zone k = SCOUTFS_TRANS_SEQ_ZONE /\ sk_type k = 0 /\
  0 <= sk_first k <= U64_MAX /\ 0 <= sk_second k <= U64_MAX /\
  sk_third k = 0 /\ sk_fourth k = 0.
Proof.
  unfold is_trans_seq_key, is_u64.
  rewrite !andb_true_iff, !Z.eqb_eq, !Z.leb_le. tauto.
Qed.

Lemma key_eqb_refl a : key_eqb a a = true.
Proof. apply key_eqb_spec. reflexivity. Qed.

Lemma key_ltb_false a b :
  key_ltb a b = false <-> (a = b \/ key_ltb b a = true).
Proof.
  split.
  - intros H. destruct (key_total a b) as [F|[F|F]]; auto. congruence.
  - intros [->|H]; [apply key_ltb_irrefl|apply key_ltb_asym; exact H].
Qed.

Lemma trans_seq_key_inc m :
  is_trans_seq_key m = true ->
  scoutfs_key_inc m =
    mk_key (sk_zone m) (sk_type m) (sk_first m) (sk_second m) (sk_third m) 1.
Proof.
  rewrite is_trans_seq_key_spec. intros (_ & _ & _ & _ & _ & H4).
  unfold scoutfs_key_inc. rewrite H4. reflexivity.
Qed.

Lemma trans_seq_succ m x :
  is_trans_seq_key m = true -> is_trans_seq_key x = true ->
  key_ltb x (scoutfs_key_inc m) = negb (key_ltb m x).
Proof.
  intros Hm Hx. rewrite (trans_seq_key_inc m Hm).
  apply is_trans_seq_key_spec in Hm, Hx.
  destruct (key_ltb m x) eqn:E; simpl.
  - apply key_ltb_spec in E. 
    destruct (key_ltb x _) eqn:F; auto. apply key_ltb_spec in F. simpl in F. lia.
  - apply key_ltb_false in E. apply key_ltb_spec. simpl.
    destruct E as [->|E]; [lia|]. apply key_ltb_spec in E. lia.
Qed.

Lemma trans_seq_after_start x :
  is_trans_seq_key x = true -> key_ltb x (init_trans_seq_key 0 0) = false.
Proof.
  intros Hx. apply is_trans_seq_key_spec in Hx.
  destruct (key_ltb x _) eqn:F; auto. apply key_ltb_spec in F. simpl in F. lia.
Qed.

Lemma external_call_spec s f s1 :
  external_call s = (f, s1) ->
  f <= 0 /\ f <> - ENOENT /\ f <> - EEXIST /\
  s1 = set_faults s (tl (faults s)) /\ (faults s = [] -> f = 0).
Proof.
  unfold external_call, take_fault. destruct (faults s) as [|[] r] eqn:E;
    intros [= <- <-]; simpl; unfold EIO, ENOMEM, ENOSPC, ENOENT, EEXIST;
    repeat split; auto; try lia; discriminate.
Qed.

Lemma has_key_in t it : In it t -> has_key t (fst it) = true.
Proof.
  intros H. unfold has_key. apply existsb_exists. exists it. split; auto.
  apply key_eqb_spec. reflexivity.
Qed.

Lemma filter_ext_in {A} (f g : A -> bool) l :
  (forall x, In x l -> f x = g x) -> List.filter f l = List.filter g l.
Proof.
  induction l as [|a l IH]; simpl; auto. intros H.
  rewrite (H a) by auto. rewrite IH by auto. reflexivity.
Qed.

Lemma filter_filter {A} (f g : A -> bool) l :
  List.filter f (List.filter g l) = List.filter (fun x => g x && f x) l.
Proof.
  induction l as [|a l IH]; simpl; auto.
  destruct (g a); simpl; [destruct (f a)|]; rewrite IH; reflexivity.
Qed.

Lemma filter_length_le {A} (f g : A -> bool) l :
  (forall x, In x l -> f x = true -> g x = true) ->
  (length (List.filter f l) <= length (List.filter g l))%nat.
Proof.
  induction l as [|c l IH]; simpl; auto. intros Himp.
  assert (IH' : (length (List.filter f l) <= length (List.filter g l))%nat)
    by (apply IH; intros; apply Himp; auto).
  destruct (f c) eqn:Fc.
  - rewrite (Himp c) by auto. simpl. lia.
  - destruct (g c); simpl; lia.
Qed.

Lemma filter_length_lt {A} (f g : A -> bool) l a :
  (forall x, In x l -> f x = true -> g x = true) ->
  In a l -> g a = true -> f a = false ->
  (length (List.filter f l) < length (List.filter g l))%nat.
Proof.
  induction l as [|b l IH]; simpl; [tauto|]. intros Himp [->|Ha] Hg Hf.
  - rewrite Hg, Hf. simpl.
    assert (length (List.filter f l) <= length (List.filter g l))%nat; [|lia].
    apply filter_length_le. intros; apply Himp; auto.
  - specialize (IH (fun x H => Himp x (or_intror H)) Ha Hg Hf).
    destruct (f b) eqn:Fb.
    + rewrite (Himp b) by auto. simpl. lia.
    + destruct (g b); simpl; lia.
Qed.

Lemma forallb_filter {A} (p f : A -> bool) l :
  forallb p l = true -> forallb p (List.filter f l) = true.
Proof.
  rewrite !forallb_forall. intros H x Hx. apply filter_In in Hx. apply H. tauto.
Qed.

Lemma ahead_shrinks (T : btree) key m :
  (forall x, In x T -> is_trans_seq_key (fst x) = true) ->
  In m T -> key_ltb (fst m) key = false ->
  (length (List.filter (fun it => key_geb (fst it) (scoutfs_key_inc (fst m))) T)
   < length (List.filter (fun it => key_geb (fst it) key) T))%nat.
Proof.
  intros Hall Hin Hge. apply filter_length_lt with (a := m); auto.
  - intros x Hx. unfold key_geb. rewrite trans_seq_succ by auto.
    rewrite negb_involutive. intros Hlt. apply negb_true_iff.
    destruct (key_ltb (fst x) key) eqn:F; auto.
    pose proof (key_lt_le_trans _ _ _ F Hge) as G.
    apply key_ltb_asym in G. congruence.
  - unfold key_geb. rewrite Hge. reflexivity.
  - unfold key_geb. rewrite trans_seq_succ by auto.
    rewrite key_ltb_irrefl. reflexivity.
Qed.

Lemma remove_trans_seq_loop_spec rid : forall fuel s key,
  trans_seqs_ok (trans_seqs (super s)) = true ->
  (length (List.filter (fun it => key_geb (fst it) key) (trans_seqs (super s))) < fuel)%nat ->
  exists ret t' f',
    remove_trans_seq_loop fuel s rid key = Some (ret, with_trans_seqs s t' f') /\
    ret <= 0 /\
    (faults s = [] -> ret = 0 /\ f' = []) /\
    (ret = 0 -> t' = List.filter (kept rid key) (trans_seqs (super s))) /\
    (forall x, In x t' -> In x (trans_seqs (super s))) /\
    (forall x, In x (trans_seqs (super s)) -> owned_by rid x = false -> In x t').
Proof.
  induction fuel as [|fuel IH]; intros s key Hok Hlen; [lia|].
  simpl. unfold scoutfs_btree_next.
  destruct (external_call s) as [f s1] eqn:E1.
  destruct (external_call_spec _ _ _ E1) as (Hf & Hnoent & _ & -> & Hf0).
  remember (trans_seqs (super s)) as T eqn:HT.
  assert (Hs1 : forall F, set_faults s F = with_trans_seqs s T F).
  { intros F. subst T. destruct s as [[] ]; reflexivity. }
  destruct (Z.eqb_spec f 0) as [->|Hne]; simpl.
  2:{ assert ((f <? 0) = true) as -> by lia.
      destruct (Z.eqb_spec f (- ENOENT)); [contradiction|].
      exists f, T, (tl (faults s)). rewrite Hs1.
      split; [reflexivity|]. split; [exact Hf|].
      split; [intros H; elim Hne; auto|].
      split; [intros H; elim Hne; auto|]. auto. }
  cbn [get_root set_faults super]. rewrite <- ?HT.
  unfold btree_next.
  destruct (btree_first_ge T key) as [m|] eqn:Em.
  2:{ (* no item at or after the cursor *)
      simpl. exists 0, T, (tl (faults s)). rewrite Hs1.
      split; [reflexivity|]. split; [lia|].
      split; [intros ->; auto|].
      split; [|auto].
      intros _. symmetry. rewrite <- (filter_ext_in (fun _ => true)).
      - clear. induction T; simpl; congruence.
      - intros x Hx. unfold kept.
        rewrite (btree_first_ge_none _ _ Em x Hx). reflexivity. }
  destruct (btree_first_ge_some _ _ _ Em) as (Hin & Hge & Hmin).
  simpl.
  assert (Hall : forall x, In x T -> is_trans_seq_key (fst x) = true).
  { unfold trans_seqs_ok in Hok. rewrite forallb_forall in Hok. exact Hok. }
  assert (Hm : is_trans_seq_key (fst m) = true) by (apply Hall, Hin).
  (* the delete of m's key and the cursor's step, as one filter *)
  assert (Hstep : forall x, In x T ->
            kept rid (scoutfs_key_inc (fst m)) x
            && negb (key_eqb (fst x) (fst m) && owned_by rid m)
            = kept rid key x).
  { intros x Hx. unfold kept. rewrite trans_seq_succ by auto.
    destruct (key_eqb (fst x) (fst m)) eqn:Ex.
    - apply key_eqb_spec in Ex. rewrite Ex, key_ltb_irrefl, Hge. simpl.
      unfold owned_by. rewrite Ex. destruct (skts_rid (fst m) =? rid); reflexivity.
    - simpl. rewrite andb_true_r. f_equal.
      destruct (key_ltb (fst x) key) eqn:F.
      + apply negb_true_iff. apply key_ltb_asym. eapply key_lt_le_trans; eauto.
      + specialize (Hmin x Hx F). apply key_ltb_false in Hmin.
        destruct Hmin as [Hmin|Hmin]; [rewrite Hmin, key_eqb_refl in Ex; discriminate|].
        rewrite Hmin. reflexivity. }
  pose proof (ahead_shrinks T key m Hall Hin Hge) as Hshrink.
  fold (owned_by rid m).
  destruct (owned_by rid m) eqn:Hown.
  - (* m is the client's: delete it *)
    unfold scoutfs_btree_delete.
    destruct (external_call (set_faults s (tl (faults s)))) as [f2 s2] eqn:E2.
    destruct (external_call_spec _ _ _ E2) as (Hf2 & _ & _ & -> & Hf20).
    simpl faults in *.
    destruct (Z.eqb_spec f2 0) as [->|Hne2]; simpl.
    2:{ assert ((f2 <? 0) = true) as -> by lia.
        exists f2, T, (tl (tl (faults s))).
        split; [f_equal; f_equal; subst T; destruct s as [[] ]; reflexivity|].
        split; [exact Hf2|].
        split; [intros H; elim Hne2; apply Hf20; rewrite H; reflexivity|].
        split; [intros H; elim Hne2; auto|]. auto. }
    cbn [get_root set_faults super]. rewrite <- ?HT.
    unfold btree_delete. rewrite (has_key_in T m Hin). simpl.
    set (T2 := List.filter (fun it => negb (key_eqb (fst it) (fst m))) T).
    match goal with
    | |- context [remove_trans_seq_loop fuel ?x _ _] => set (s3 := x)
    end.
    assert (Hs3 : s3 = with_trans_seqs s T2 (tl (tl (faults s)))).
    { subst s3. destruct s as [[] ]; reflexivity. }
    assert (HT3 : trans_seqs (super s3) = T2) by (rewrite Hs3; destruct s as [[] ]; reflexivity).
    destruct (IH s3 (scoutfs_key_inc (fst m))) as (ret & t' & f' & Hrun & Hret & Hnf & Hz & Hsub & Hkeep).
    { rewrite HT3. apply forallb_filter. exact Hok. }
    { rewrite HT3. subst T2. rewrite filter_filter.
      pose proof (filter_length_le
        (fun x : btree_item => negb (key_eqb (fst x) (fst m))
                               && key_geb (fst x) (scoutfs_key_inc (fst m)))
        (fun it : btree_item => key_geb (fst it) (scoutfs_key_inc (fst m))) T) as Hle.
      cbv beta in Hle.
      assert (forall x : btree_item, In x T ->
                negb (key_eqb (fst x) (fst m)) && key_geb (fst x) (scoutfs_key_inc (fst m)) = true ->
                key_geb (fst x) (scoutfs_key_inc (fst m)) = true) as Himp.
      { intros x _ Hx. apply andb_true_iff in Hx. tauto. }
      specialize (Hle Himp).
      eapply Nat.le_lt_trans; [exact Hle|].
      eapply Nat.lt_le_trans; [exact Hshrink|]. lia. }
    rewrite HT3 in *.
    exists ret, t', f'.
    split; [rewrite Hrun, Hs3, with_trans_seqs_twice; reflexivity|].
    split; [exact Hret|].
    split; [intros H; apply Hnf; rewrite Hs3; destruct s as [[] ]; simpl in *; rewrite H; reflexivity|].
    split; [|split].
    + intros H0. rewrite (Hz H0). subst T2. rewrite filter_filter.
      apply filter_ext_in. intros x Hx. rewrite <- (Hstep x Hx).
      rewrite andb_true_r. apply andb_comm.
    + intros x Hx. apply Hsub in Hx. subst T2. apply filter_In in Hx. tauto.
    + intros x Hx Hox. apply Hkeep; [|exact Hox]. subst T2. apply filter_In.
      split; [exact Hx|]. apply negb_true_iff.
      destruct (key_eqb (fst x) (fst m)) eqn:Ex; auto.
      apply key_eqb_spec in Ex. unfold owned_by in *. rewrite Ex in Hox. congruence.
  - (* another client's: step over it *)
    match goal with
    | |- context [remove_trans_seq_loop fuel ?x _ _] => set (s1 := x)
    end.
    assert (HT1 : trans_seqs (super s1) = T) by (subst s1 T; destruct s as [[] ]; reflexivity).
    destruct (IH s1 (scoutfs_key_inc (fst m))) as (ret & t' & f' & Hrun & Hret & Hnf & Hz & Hsub & Hkeep).
    { rewrite HT1. exact Hok. }
    { rewrite HT1. lia. }
    rewrite HT1 in *.
    exists ret, t', f'.
    split; [rewrite Hrun; subst s1; rewrite Hs1, with_trans_seqs_twice; reflexivity|].
    split; [exact Hret|].
    split; [intros H; apply Hnf; subst s1; simpl; rewrite H; reflexivity|].
    split; [|split; auto].
    intros H0. rewrite (Hz H0). apply filter_ext_in. intros x Hx.
    rewrite <- (Hstep x Hx). rewrite andb_false_r. simpl. rewrite andb_true_r. reflexivity.
Qed.

Lemma filter_length_bound {A} (f : A -> bool) l :
  (length (List.filter f l) <= length l)%nat.
Proof. induction l as [|a l IH]; simpl; [lia|]. destruct (f a); simpl; lia. Qed.

Lemma kept_from_start rid (T : btree) :
  trans_seqs_ok T = true ->
  List.filter (kept rid (init_trans_seq_key 0 0)) T =
  List.filter (fun it => negb (owned_by rid it)) T.
Proof.
  intros Hok. apply filter_ext_in. intros x Hx. unfold kept.
  unfold trans_seqs_ok in Hok. rewrite forallb_forall in Hok.
  rewrite trans_seq_after_start by (apply Hok, Hx). reflexivity.
Qed.

Lemma remove_trans_seq_locked_spec fuel s rid :
  trans_seqs_ok (trans_seqs (super s)) = true ->
  (length (trans_seqs (super s)) < fuel)%nat ->
  exists ret t' f',
    remove_trans_seq_locked fuel s rid = Some (ret, with_trans_seqs s t' f') /\
    ret <= 0 /\
    (faults s = [] -> ret = 0 /\ f' = []) /\
    (ret = 0 ->
     t' = List.filter (fun it => negb (owned_by rid it)) (trans_seqs (super s))) /\
    (forall x, In x t' -> In x (trans_seqs (super s))) /\
    (forall x, In x (trans_seqs (super s)) -> owned_by rid x = false -> In x t').
Proof.
  intros Hok Hlen.
  destruct (remove_trans_seq_loop_spec rid fuel s (init_trans_seq_key 0 0) Hok)
    as (ret & t' & f' & Hrun & Hle & Hnf & Hz & Hsub & Hkeep).
  { eapply Nat.le_lt_trans; [apply filter_length_bound|exact Hlen]. }
  exists ret, t', f'. unfold remove_trans_seq_locked.
  repeat split; auto; try (apply Hnf; assumption).
  intros H0. rewrite (Hz H0). apply kept_from_start. exact Hok.
Qed.

(** C10.  The removal of a client's trans-seq items, as ADVANCE_SEQ
    ([remove_trans_seq_locked]) and farewell and reclaim
    ([remove_trans_seq]) run it, returns and changes nothing of the server
    but the trans_seqs tree and the reads it made: every item of another
    rid is still there, as it was, no item is added, and when it returns 0
    the tree is exactly the old one without the items of [rid], however
    the seqs of the clients interleave.  It returns 0 unless a tree
    operation fails. *)
Theorem remove_trans_seq_only_own fuel s rid :
  trans_seqs_ok (trans_seqs (super s)) = true ->
  (length (trans_seqs (super s)) < fuel)%nat ->
  exists ret t' f',
    remove_trans_seq_locked fuel s rid = Some (ret, with_trans_seqs s t' f') /\
    remove_trans_seq fuel s rid = Some (ret, with_trans_seqs s t' f') /\
    (forall x, In x (trans_seqs (super s)) -> owned_by rid x = false -> In x t') /\
    (forall x, In x t' -> In x (trans_seqs (super s))) /\
    (ret = 0 ->
     t' = List.filter (fun it => negb (owned_by rid it)) (trans_seqs (super s))) /\
    (faults s = [] -> ret = 0).
Proof.
  intros Hok Hlen.
  destruct (remove_trans_seq_locked_spec fuel s rid Hok Hlen)
    as (ret & t' & f' & Hrun & _ & Hnf & Hz & Hsub & Hkeep).
  exists ret, t', f'. unfold remove_trans_seq.
  repeat split; auto. intros H. apply Hnf. exact H.
Qed.

Lemma fault_errno_neg f : fault_errno f <= 0.
Proof. destruct f; simpl; unfold EIO, ENOMEM, ENOSPC; lia. Qed.

Lemma external_call_eq s :
  external_call s =
  (fault_errno (nth 0 (faults s) NoFault), set_faults s (tl (faults s))).
Proof. unfold external_call, take_fault. destruct (faults s); reflexivity. Qed.

Lemma nth_tl {A} n (l : list A) d : nth n (tl l) d = nth (S n) l d.
Proof. destruct l; simpl; [destruct n|]; reflexivity. Qed.

Lemma commit_func_spec s :
  exists s1,
    scoutfs_server_commit_func s = complete_waiters s1 (commit_outcome s) /\
    commit_waiters s1 = commit_waiters s /\ same_data s s1 /\
    (faults s = [] -> faults s1 = []).
Proof.
  unfold scoutfs_server_commit_func, commit_outcome, commit_steps, first_failure.
  destruct (forcing_unmount s) eqn:Hu.
  { exists s. simpl. repeat split; auto. }
  rewrite !external_call_eq. cbn [map List.find faults set_faults set_super].
  rewrite !nth_tl.
  pose proof (fault_errno_neg (nth 2 (faults s) NoFault)) as Hneg.
  remember (fault_errno (nth 0 (faults s) NoFault)) as e0.
  remember (fault_errno (nth 1 (faults s) NoFault)) as e1.
  remember (fault_errno (nth 2 (faults s) NoFault)) as e2.
  remember (fault_errno (nth 3 (faults s) NoFault)) as e3.
  remember (fault_errno (nth 4 (faults s) NoFault)) as e4.
  assert (Hnil : forall F, faults s = [] -> F = tl (faults s) \/ F = tl (tl (faults s))
            \/ F = tl (tl (tl (faults s))) \/ F = tl (tl (tl (tl (faults s))))
            \/ F = tl (tl (tl (tl (tl (faults s))))) -> F = []).
  { intros F -> H. simpl in H. intuition. }
  destruct (Z.eqb_spec e0 0); cbn [negb];
    [|eexists; split; [reflexivity|]; repeat split; auto; intros H; eapply Hnil; eauto].
  destruct (Z.eqb_spec e1 0); cbn [negb];
    [|eexists; split; [reflexivity|]; repeat split; auto; intros H; eapply Hnil; eauto].
  destruct (Z.eqb_spec e2 0) as [E2|E2]; cbn [negb];
    [rewrite E2; replace (0 <? 0) with false by reflexivity
    |replace (e2 <? 0) with true by (symmetry; apply Z.ltb_lt; lia);
     eexists; split; [reflexivity|]; repeat split; auto; intros H; eapply Hnil; eauto 6].
  destruct (Z.eqb_spec e3 0); cbn [negb];
    [|eexists; split; [reflexivity|]; repeat split; auto; intros H; eapply Hnil; eauto 6].
  destruct (Z.eqb_spec e4 0); cbn [negb];
    [|eexists; split; [reflexivity|]; destruct s as [[] ]; repeat split; auto; intros H; eapply Hnil; eauto 7].
  eexists; split; [reflexivity|]. destruct s as [[] ]; repeat split; auto.
  simpl. intros ->. reflexivity.
Qed.

Lemma apply_commit_spec s :
  exists s',
    scoutfs_server_apply_commit s 0 = (commit_outcome s, s') /\
    same_data s s' /\ commit_waiters s' = [] /\
    (faults s = [] -> faults s' = []).
Proof.
  unfold scoutfs_server_apply_commit. simpl.
  set (s0 := set_waiters s _ _).
  destruct (commit_func_spec s0) as (s1 & Hrun & Hw & Hsame & Hf).
  rewrite Hrun. unfold complete_waiters. rewrite Hw. subst s0. simpl.
  unfold waiter_ret. cbn [List.find cw_id]. rewrite Nat.eqb_refl. cbn [cw_ret].
  exists (set_waiters s1 [] (next_cw s1)).
  split; [reflexivity|]. split; [|split; [reflexivity|]].
  - destruct Hsame as (H1 & H2 & H3 & H4 & H5 & H6 & H7 & H8).
    repeat split; assumption.
  - intros H. cbn [faults set_waiters]. apply Hf. exact H.
Qed.

Lemma apply_commit_err s err :
  err <> 0 -> scoutfs_server_apply_commit s err = (err, s).
Proof.
  intros H. unfold scoutfs_server_apply_commit.
  destruct (Z.eqb_spec err 0); [contradiction|reflexivity].
Qed.

Lemma commit_outcome_no_fault s :
  forcing_unmount s = false -> faults s = [] -> commit_outcome s = 0.
Proof.
  intros Hu Hf. unfold commit_outcome, commit_steps. rewrite Hu, Hf. reflexivity.
Qed.

(** C3.  A run of the commit worker completes every waiter it drains from
    the list with the same result, the outcome of that commit: 0 when
    every step succeeds, the error of the first step that fails otherwise.
    The list is left empty and no two waiters of the batch see different
    results. *)
Theorem commit_completes_batch_alike s :
  let ret := commit_outcome s in
  let batch := fst (scoutfs_server_commit_func s) in
  batch = map (fun cw => mk_cw (cw_id cw) ret true) (commit_waiters s) /\
  commit_waiters (snd (scoutfs_server_commit_func s)) = [] /\
  (forall w, In w batch -> cw_ret w = ret /\ cw_done w = true) /\
  (forall w1 w2, In w1 batch -> In w2 batch -> cw_ret w1 = cw_ret w2).
Proof.
  intros ret batch. subst ret batch.
  destruct (commit_func_spec s) as (s1 & Hrun & Hw & _).
  rewrite Hrun. unfold complete_waiters. simpl. rewrite Hw.
  assert (Hall : forall w,
            In w (map (fun cw => mk_cw (cw_id cw) (commit_outcome s) true)
                      (commit_waiters s)) ->
            cw_ret w = commit_outcome s /\ cw_done w = true).
  { intros w Hin. apply in_map_iff in Hin. destruct Hin as (cw & <- & _). auto. }
  repeat split; auto; try apply Hall; auto.
  intros w1 w2 H1 H2. destruct (Hall w1 H1), (Hall w2 H2). congruence.
Qed.

Lemma commit_outcome_same s s' :
  forcing_unmount s' = forcing_unmount s -> faults s' = faults s ->
  commit_outcome s' = commit_outcome s.
Proof. intros H1 H2. unfold commit_outcome, commit_steps. rewrite H1, H2. reflexivity. Qed.

Lemma le_to_cpu_nonneg arg : Forall (fun b => 0 <= b <= 255) arg -> 0 <= le_to_cpu arg.
Proof. induction 1; simpl; lia. Qed.

(** C6.  ALLOC_INODES of [count] with [next_ino = i] reserves
    [nr = min count (U64_MAX - i)], leaves [next_ino] at [i + nr] and
    answers with the commit's result, carrying [{i, nr}] when the commit
    succeeded.  Where [i + count] passes U64_MAX, [next_ino] ends at
    U64_MAX and nr is what was left; at [i = U64_MAX], nr is 0. *)
Theorem alloc_inodes_clamped s rid cmd id arg :
  length arg = 8%nat ->
  Forall (fun b => 0 <= b <= 255) arg ->
  0 <= next_ino (super s) <= U64_MAX ->
  let i := next_ino (super s) in
  let count := le_to_cpu arg in
  let nr := Z.min count (U64_MAX - i) in
  let s' := snd (server_alloc_inodes s rid cmd id arg) in
  next_ino (super s') = i + nr /\
  sent s' =
    sent s ++ [mk_resp rid cmd id (commit_outcome s)
                 (if commit_outcome s =? 0 then InodeAlloc i nr
                  else InodeAlloc 0 0)] /\
  (U64_MAX < i + count -> next_ino (super s') = U64_MAX /\ nr = U64_MAX - i) /\
  (i = U64_MAX -> nr = 0).
Proof.
  intros Hlen Hbytes Hino i count nr s'.
  pose proof (le_to_cpu_nonneg arg Hbytes) as Hc. fold count in Hc.
  assert (Hnr : 0 <= nr /\ i + nr <= U64_MAX) by (subst nr; lia).
  subst s'. unfold server_alloc_inodes, arg_len. rewrite Hlen. simpl negb. cbv iota.
  unfold scoutfs_server_hold_commit. cbv beta iota zeta. simpl negb. cbv iota.
  fold i. fold count. fold nr.
  set (s2 := set_super s (set_next_ino (super s) (wrap64 (i + nr)))).
  destruct (apply_commit_spec s2) as (s3 & Hrun & Hsame & _ & _).
  rewrite Hrun. unfold scoutfs_net_response. cbn [snd sent set_sent super].
  destruct Hsame as (Hi & _ & _ & _ & Hs & _).
  assert (Ho : commit_outcome s2 = commit_outcome s)
    by (apply commit_outcome_same; subst s2; destruct s; reflexivity).
  rewrite Ho, Hi, Hs.
  assert (Hw : wrap64 (i + nr) = i + nr).
  { unfold wrap64. apply Z.mod_small. unfold U64_MAX in *. lia. }
  subst s2. destruct s as [[] ]. cbn in *. rewrite Hw.
  repeat split; auto; lia.
Qed.

Lemma has_key_none (t : btree) key :
  (forall x, In x t -> fst x <> key) -> has_key t key = false.
Proof.
  intros H. unfold has_key.
  destruct (existsb (fun it : btree_item => key_eqb (fst it) key) t) eqn:E; auto.
  apply existsb_exists in E. destruct E as (x & Hx & Hk).
  apply key_eqb_spec in Hk. elim (H x Hx Hk).
Qed.

(** C7, as the code has it.  ADVANCE_SEQ of client [rid] with
    [next_trans_seq = seq] returns and sends one response.  Its error is
    that of the first step that fails: the removal of the client's items,
    the insert of the new item, or else the commit, whose outcome it is
    when both tree steps succeed.  When they do, the trans_seqs tree is the
    old one without the items of [rid] and with the one new item
    [(seq, rid)], [next_trans_seq] is [seq + 1] modulo 2^64, which is
    [seq + 1] below U64_MAX and 0 at U64_MAX, and the response carries
    [seq].  A response without error is one of a commit that succeeded
    after both tree steps did, and there is no error unless the server is
    forced to unmount or a tree or commit step fails. *)
Theorem advance_seq_replaces_items fuel s rid cmd id :
  trans_seqs_ok (trans_seqs (super s)) = true ->
  (length (trans_seqs (super s)) < fuel)%nat ->
  let seq := next_trans_seq (super s) in
  exists ret s' r rm t1 f1,
    server_advance_seq fuel s rid cmd id [] = Some (ret, s') /\
    sent s' = sent s ++ [r] /\
    resp_rid r = rid /\ resp_cmd r = cmd /\ resp_id r = id /\
    remove_trans_seq_locked fuel s rid = Some (rm, with_trans_seqs s t1 f1) /\
    let ins := fault_errno (nth 0 f1 NoFault) in
    resp_error r =
      (if rm <? 0 then rm
       else if negb (ins =? 0) then ins
       else commit_outcome (set_faults s (tl f1))) /\
    (rm = 0 -> ins = 0 ->
       trans_seqs (super s') =
         (init_trans_seq_key seq rid, [])
         :: List.filter (fun it => negb (owned_by rid it)) (trans_seqs (super s)) /\
       next_trans_seq (super s') = wrap64 (seq + 1) /\
       (0 <= seq < U64_MAX -> next_trans_seq (super s') = seq + 1) /\
       (seq = U64_MAX -> next_trans_seq (super s') = 0) /\
       resp_data r = Le64 seq) /\
    (resp_error r = 0 ->
       rm = 0 /\ ins = 0 /\ commit_outcome (set_faults s (tl f1)) = 0) /\
    (forcing_unmount s = false -> faults s = [] -> resp_error r = 0).
Proof.
  intros Hok Hlen seq.
  destruct (remove_trans_seq_locked_spec fuel s rid Hok Hlen)
    as (ret & t' & f' & Hrun & Hle & Hnf & Hz & _ & _).
  unfold server_advance_seq. cbn [arg_len length Z.of_nat Z.eqb negb].
  unfold scoutfs_server_hold_commit. cbv beta iota zeta. cbn [Z.eqb negb].
  rewrite Hrun. cbn [mbind option_bind].
  remember (with_trans_seqs s t' f') as s1 eqn:Hs1 in |- *.
  assert (Hsent1 : sent s1 = sent s) by (subst s1; destruct s as [[] ]; reflexivity).
  assert (Hseq1 : next_trans_seq (super s1) = seq) by (subst s1 seq; destruct s as [[] ]; reflexivity).
  assert (Hfu1 : forcing_unmount s1 = forcing_unmount s) by (subst s1; destruct s as [[] ]; reflexivity).
  assert (Hfl1 : faults s1 = f') by (subst s1; destruct s as [[] ]; reflexivity).
  assert (Ht1 : trans_seqs (super s1) = t') by (subst s1; destruct s as [[] ]; reflexivity).
  destruct (Z.ltb_spec ret 0) as [Hneg|Hpos].
  - (* the removal failed *)
    rewrite apply_commit_err by lia. unfold scoutfs_net_response.
    eexists _, _, _, ret, t', f'. split; [reflexivity|].
    cbn [sent set_sent resp_rid resp_cmd resp_id resp_error].
    rewrite Hsent1.
    split; [reflexivity|]. split; [reflexivity|]. split; [reflexivity|].
    split; [reflexivity|]. split; [rewrite Hs1; reflexivity|].
    cbv zeta. destruct (Z.ltb_spec ret 0) as [_|F]; [|lia].
    split; [reflexivity|].
    cbn [resp_error resp_data].
    split; [intros; lia|]. split; [intros; lia|].
    intros _ Hf. destruct (Hnf Hf); lia.
  - assert (Hret0 : ret = 0) by lia. specialize (Hz Hret0).
    rewrite Hseq1.
    set (s2 := set_super s1 (set_next_trans_seq (super s1) (wrap64 (seq + 1)))).
    assert (Hf2 : faults s2 = f') by (subst s2; rewrite <- Hfl1; destruct s1; reflexivity).
    assert (Hs2 : sent s2 = sent s) by (subst s2; rewrite <- Hsent1; destruct s1 as [[] ]; reflexivity).
    unfold scoutfs_btree_insert. rewrite external_call_eq. rewrite Hf2.
    remember (fault_errno (nth 0 f' NoFault)) as e.
    destruct (Z.eqb_spec e 0) as [He|He]; cbn [negb].
    + assert (Hg : get_root (set_faults s2 (tl f')) TRANS_SEQS = t').
      { subst s2. rewrite <- Ht1. destruct s1 as [[] ]; reflexivity. }
      rewrite Hg. unfold btree_insert.
      rewrite has_key_none.
      2:{ intros x Hx Hk. rewrite Hz in Hx. apply filter_In in Hx.
          destruct Hx as (_ & Hx). unfold owned_by in Hx. rewrite Hk in Hx.
          cbn in Hx. rewrite Z.eqb_refl in Hx. discriminate. }
      cbn [Z.eqb].
      set (s3 := put_root _ TRANS_SEQS _).
      destruct (apply_commit_spec s3) as (s4 & Hrun4 & Hsame & _ & Hnf4).
      rewrite Hrun4. unfold scoutfs_net_response.
      assert (Ho : commit_outcome s3 = commit_outcome (set_faults s (tl f'))).
      { apply commit_outcome_same.
        - transitivity (forcing_unmount s1); [|exact Hfu1].
          subst s3 s2. destruct s1 as [[] ]; reflexivity.
        - subst s3 s2. destruct s1 as [[] ]; reflexivity. }
      eexists _, _, _, ret, t', f'. split; [reflexivity|].
      cbn [sent set_sent resp_rid resp_cmd resp_id resp_error resp_data super].
      destruct Hsame as (_ & Hts & Htr & _ & Hs & _).
      rewrite Hs.
      assert (Hs3 : sent s3 = sent s) by (subst s3; rewrite <- Hs2; destruct s2 as [[] ]; reflexivity).
      assert (Hn3 : next_trans_seq (super s3) = wrap64 (seq + 1))
        by (subst s3 s2; destruct s1 as [[] ]; reflexivity).
      assert (Ht3 : trans_seqs (super s3) = (init_trans_seq_key seq rid, []) :: t')
        by (subst s3 s2; destruct s1 as [[] ]; reflexivity).
      rewrite Hs3, Hts, Htr, Hn3, Ht3, <- Hz, Ho.
      split; [reflexivity|]. split; [reflexivity|]. split; [reflexivity|].
      split; [reflexivity|]. split; [rewrite Hs1; reflexivity|].
      cbv zeta. rewrite <- Heqe.
      subst ret. change (0 <? 0) with false. cbv iota.
      rewrite He. change (negb (0 =? 0)) with false. cbv iota.
      cbn [resp_error resp_data].
      split; [reflexivity|].
      split.
      { intros _ _. split; [reflexivity|]. split; [reflexivity|].
        split. { intros Hseq. unfold wrap64. apply Z.mod_small. unfold U64_MAX in Hseq. lia. }
        split; [|reflexivity].
        intros ->. reflexivity. }
      split; [intros H0; auto|].
      intros Hu Hf. apply commit_outcome_no_fault.
      * exact Hu.
      * destruct (Hnf Hf) as (_ & Hf0). cbn [faults set_faults]. rewrite Hf0. reflexivity.
    + (* the insert failed *)
      rewrite apply_commit_err by exact He. unfold scoutfs_net_response.
      eexists _, _, _, ret, t', f'. split; [reflexivity|].
      cbn [sent set_sent resp_rid resp_cmd resp_id resp_error resp_data super set_faults].
      rewrite Hs2.
      split; [reflexivity|]. split; [reflexivity|]. split; [reflexivity|].
      split; [reflexivity|]. split; [rewrite Hs1; reflexivity|].
      cbv zeta. rewrite <- Heqe.
      subst ret. change (0 <? 0) with false. cbv iota.
      destruct (Z.eqb_spec e 0) as [|_]; [contradiction|]. cbn [negb].
      cbn [resp_error resp_data].
      split; [reflexivity|].
      split; [intros _ F; contradiction|].
      split; [intros F; contradiction|].
      intros _ Hf. exfalso. apply He.
      destruct (Hnf Hf) as (_ & Hf0). subst e. rewrite Hf0. reflexivity.
Qed.

(** C7 as stated fails at the last seq: with [next_trans_seq] at U64_MAX,
    ADVANCE_SEQ hands out U64_MAX, reports success and leaves
    [next_trans_seq] at 0, not at U64_MAX + 1. *)
Lemma advance_seq_wraps_at_max :
  snd <$> server_advance_seq 4 ex_last_seq_server 1 5 77 [] <> None /\
  (forall ret s', server_advance_seq 4 ex_last_seq_server 1 5 77 [] = Some (ret, s') ->
     sent s' = [mk_resp 1 5 77 0 (Le64 U64_MAX)] /\
     next_trans_seq (super s') = 0) /\
  ~ advance_seq_increments 4 ex_last_seq_server 1 5 77.
Proof.
  destruct (server_advance_seq 4 ex_last_seq_server 1 5 77 []) as [[ret s']|] eqn:E;
    [|vm_compute in E; discriminate].
  assert (Hs : sent s' = [mk_resp 1 5 77 0 (Le64 U64_MAX)])
    by (vm_compute in E; inversion E; reflexivity).
  assert (Hn : next_trans_seq (super s') = 0)
    by (vm_compute in E; inversion E; reflexivity).
  split; [discriminate|].
  split. { intros ret0 s0 [= <- <-]. auto. }
  intros H. specialize (H ret s' (mk_resp 1 5 77 0 (Le64 U64_MAX))).
  rewrite E in H. specialize (H eq_refl). rewrite Hs in H.
  specialize (H eq_refl eq_refl). rewrite Hn in H. vm_compute in H. discriminate H.
Qed.

Lemma wrap64_minus_one z : wrap64 (z + U64_MAX) = wrap64 (z - 1).
Proof.
  unfold wrap64, U64_MAX.
  replace (z + (2 ^ 64 - 1)) with (z - 1 + 1 * 2 ^ 64) by lia.
  apply Z.mod_add. lia.
Qed.

Lemma least_seq_first (T : btree) m :
  trans_seqs_ok T = true ->
  btree_first_ge T (init_trans_seq_key 0 0) = Some m ->
  In m T /\
  forall x, In x T -> skts_trans_seq (fst m) <= skts_trans_seq (fst x).
Proof.
  intros Hok Em. destruct (btree_first_ge_some _ _ _ Em) as (Hin & _ & Hmin).
  split; [exact Hin|]. intros x Hx.
  unfold trans_seqs_ok in Hok. rewrite forallb_forall in Hok.
  pose proof (Hok m Hin) as Hm. pose proof (Hok x Hx) as Hxk.
  specialize (Hmin x Hx (trans_seq_after_start _ Hxk)).
  apply is_trans_seq_key_spec in Hm, Hxk.
  destruct (Z.lt_ge_cases (sk_first (fst x)) (sk_first (fst m))) as [Hlt|Hge];
    [|unfold skts_trans_seq; lia].
  assert (F : key_ltb (fst x) (fst m) = true) by (apply key_ltb_spec; lia).
  congruence.
Qed.

(** C8, as the code has it.  GET_LAST_SEQ sends one response.  When the
    read of the tree does not fail, it carries, as a u64, the smallest seq
    of the trans_seqs tree minus one, or [next_trans_seq] minus one when
    the tree is empty; the subtraction wraps, and the value is strictly
    less than the seq of every item provided the smallest seq is not 0. *)
Theorem get_last_seq_answer s rid cmd id :
  trans_seqs_ok (trans_seqs (super s)) = true ->
  let T := trans_seqs (super s) in
  exists r,
    sent (snd (server_get_last_seq s rid cmd id [])) = sent s ++ [r] /\
    resp_rid r = rid /\ resp_cmd r = cmd /\ resp_id r = id /\
    (faults s = [] -> resp_error r = 0) /\
    (resp_error r = 0 ->
       (T = [] -> resp_data r = Le64 (wrap64 (next_trans_seq (super s) - 1))) /\
       (T <> [] ->
        exists m, In m T /\
          (forall x, In x T -> skts_trans_seq (fst m) <= skts_trans_seq (fst x)) /\
          resp_data r = Le64 (wrap64 (skts_trans_seq (fst m) - 1)) /\
          (0 < skts_trans_seq (fst m) ->
           forall x, In x T ->
             wrap64 (skts_trans_seq (fst m) - 1) < skts_trans_seq (fst x)))).
Proof.
  intros Hok T. subst T. remember (trans_seqs (super s)) as T eqn:HT.
  unfold server_get_last_seq.
  cbn [arg_len length Z.of_nat Z.eqb negb].
  unfold scoutfs_btree_next. rewrite external_call_eq.
  remember (fault_errno (nth 0 (faults s) NoFault)) as e.
  assert (Hg : get_root (set_faults s (tl (faults s))) TRANS_SEQS = T)
    by (subst T; reflexivity).
  destruct (Z.eqb_spec e 0) as [He|He]; cbn [negb].
  - rewrite Hg. unfold btree_next.
    destruct (btree_first_ge T (init_trans_seq_key 0 0)) as [m|] eqn:Em.
    + cbn [Z.eqb]. unfold scoutfs_net_response. cbn [snd sent set_sent set_faults].
      eexists. split; [reflexivity|].
      cbn [resp_rid resp_cmd resp_id resp_error resp_data].
      destruct (least_seq_first T m Hok Em) as (Hin & Hmin).
      repeat split; auto.
      * intros HT0. rewrite HT0 in Hin. destruct Hin.
      * intros _. exists m. rewrite wrap64_minus_one. repeat split; auto.
        intros Hpos x Hx. specialize (Hmin x Hx).
        unfold trans_seqs_ok in Hok. rewrite forallb_forall in Hok.
        pose proof (Hok m Hin) as Hm. apply is_trans_seq_key_spec in Hm.
        unfold wrap64. rewrite Z.mod_small; unfold skts_trans_seq, U64_MAX in *; lia.
    + replace (- ENOENT =? 0) with false by reflexivity.
      rewrite Z.eqb_refl. unfold scoutfs_net_response. cbn [snd sent set_sent set_faults].
      eexists. split; [reflexivity|].
      cbn [resp_rid resp_cmd resp_id resp_error resp_data super].
      repeat split; auto.
      * intros _. rewrite wrap64_minus_one. reflexivity.
      * intros HT0. exfalso. destruct T as [|x T']; [congruence|].
        pose proof (btree_first_ge_none _ _ Em x (or_introl eq_refl)) as F.
        unfold trans_seqs_ok in Hok. rewrite forallb_forall in Hok.
        rewrite trans_seq_after_start in F by (apply Hok; left; reflexivity).
        discriminate.
  - destruct (Z.eqb_spec e 0); [contradiction|].
    assert (Hne : e <> - ENOENT).
    { revert He. subst e. destruct (nth 0 (faults s) NoFault);
        simpl; unfold ENOENT, EIO, ENOMEM, ENOSPC; lia. }
    destruct (Z.eqb_spec e (- ENOENT)); [contradiction|].
    unfold scoutfs_net_response. cbn [snd sent set_sent set_faults].
    eexists. split; [reflexivity|].
    cbn [resp_rid resp_cmd resp_id resp_error resp_data super].
    repeat split; auto; try contradiction.
    intros Hf. exfalso. apply He. subst e. rewrite Hf. reflexivity.
Qed.

Lemma count_cons {A} (f : A -> bool) a l :
  count f (a :: l) = (if f a then 1 else 0) + count f l.
Proof. unfold count. simpl. destruct (f a); simpl length; lia. Qed.

Lemma count_ext {A} (f g : A -> bool) l :
  (forall x, In x l -> f x = g x) -> count f l = count g l.
Proof. intros H. unfold count. rewrite (filter_ext_in f g l H). reflexivity. Qed.

Lemma count_split {A} (f g h : A -> bool) l :
  (forall x, In x l -> f x = g x || h x) ->
  (forall x, In x l -> g x && h x = false) ->
  count f l = count g l + count h l.
Proof.
  induction l as [|a l IH]; intros Hf Hx; [reflexivity|].
  rewrite !count_cons.
  rewrite IH; [| intros; apply Hf; right; assumption
               | intros; apply Hx; right; assumption].
  specialize (Hf a (or_introl eq_refl)). specialize (Hx a (or_introl eq_refl)).
  destruct (f a), (g a), (h a); simpl in *; try discriminate; lia.
Qed.

Lemma count_one_key (q : btree_item -> bool) (T : btree) m :
  distinct_keys T = true -> In m T ->
  count (fun x => key_eqb (fst x) (fst m) && q x) T = if q m then 1 else 0.
Proof.
  induction T as [|a T IH]; simpl; [tauto|]. intros Hd [->|Hin].
  - rewrite count_cons, key_eqb_refl. simpl.
    apply andb_true_iff in Hd. destruct Hd as (Hn & _). apply negb_true_iff in Hn.
    assert (Hz : count (fun x => key_eqb (fst x) (fst m) && q x) T = 0).
    { unfold count. rewrite (filter_ext_in _ (fun _ => false)).
      - clear. induction T; simpl; auto.
      - intros x Hx. destruct (key_eqb (fst x) (fst m)) eqn:E; auto.
        apply key_eqb_spec in E. exfalso.
        apply not_true_iff_false in Hn. apply Hn. unfold has_key.
        apply existsb_exists. exists x. split; auto. apply key_eqb_spec. exact E. }
    rewrite Hz. lia.
  - apply andb_true_iff in Hd. destruct Hd as (Hn & Hd). apply negb_true_iff in Hn.
    rewrite count_cons, (IH Hd Hin).
    destruct (key_eqb (fst a) (fst m)) eqn:E; simpl; [|lia].
    apply key_eqb_spec in E. rewrite E in Hn. rewrite (has_key_in T m Hin) in Hn.
    discriminate.
Qed.

Lemma fourth_zero_succ m x :
  sk_fourth m = 0 -> sk_fourth x = 0 ->
  key_ltb x (scoutfs_key_inc m) = negb (key_ltb m x).
Proof.
  intros Hm Hx.
  assert (Hinc : scoutfs_key_inc m =
    mk_key (sk_zone m) (sk_type m) (sk_first m) (sk_second m) (sk_third m) 1).
  { unfold scoutfs_key_inc. rewrite Hm. reflexivity. }
  rewrite Hinc.
  destruct (key_ltb m x) eqn:E; simpl.
  - apply key_ltb_spec in E.
    destruct (key_ltb x _) eqn:F; auto. apply key_ltb_spec in F. simpl in F. lia.
  - apply key_ltb_false in E. apply key_ltb_spec. simpl.
    destruct E as [->|E]; [lia|]. apply key_ltb_spec in E. lia.
Qed.

Lemma is_mounted_client_item_spec it :
  is_mounted_client_item it = true <->
  sk_zone (fst it) = SCOUTFS_MOUNTED_CLIENT_ZONE /\ sk_type (fst it) = 0 /\
  0 <= sk_first (fst it) <= U64_MAX /\ sk_second (fst it) = 0 /\
  sk_third (fst it) = 0 /\ sk_fourth (fst it) = 0 /\ length (snd it) = 1%nat.
Proof.
  unfold is_mounted_client_item, is_u64.
  rewrite !andb_true_iff, !Z.eqb_eq, !Z.leb_le, Nat.eqb_eq. tauto.
Qed.

Lemma mounted_after_start it :
  is_mounted_client_item it = true ->
  key_ltb (fst it) (init_mounted_client_key 0) = false.
Proof.
  intros H. apply is_mounted_client_item_spec in H.
  destruct (key_ltb (fst it) _) eqn:F; auto. apply key_ltb_spec in F. simpl in F. lia.
Qed.

Lemma wrap32_add_l a b : wrap32 (wrap32 a + b) = wrap32 (a + b).
Proof. unfold wrap32. apply Zplus_mod_idemp_l. Qed.

Lemma wrap32_sub_l a b : wrap32 (wrap32 a - b) = wrap32 (a - b).
Proof. unfold wrap32. apply Zminus_mod_idemp_l. Qed.

Lemma count_ahead_step (T : btree) key m q :
  forallb is_mounted_client_item T = true -> distinct_keys T = true ->
  btree_first_ge T key = Some m ->
  count (ahead key q) T =
  (if q m then 1 else 0) + count (ahead (scoutfs_key_inc (fst m)) q) T.
Proof.
  intros Hall Hd Em. destruct (btree_first_ge_some _ _ _ Em) as (Hin & Hge & Hmin).
  rewrite forallb_forall in Hall.
  assert (H4 : forall x, In x T -> sk_fourth (fst x) = 0).
  { intros x Hx. apply Hall, is_mounted_client_item_spec in Hx. tauto. }
  rewrite <- (count_one_key q T m Hd Hin).
  apply count_split.
  - intros x Hx. unfold ahead, key_geb. rewrite fourth_zero_succ by auto.
    rewrite negb_involutive.
    destruct (key_eqb (fst x) (fst m)) eqn:E.
    + apply key_eqb_spec in E. rewrite E, Hge, key_ltb_irrefl. simpl. 
      destruct (q x); reflexivity.
    + simpl. f_equal. destruct (key_ltb (fst x) key) eqn:F; simpl.
      * symmetry. apply key_ltb_asym. eapply key_lt_le_trans; eauto.
      * specialize (Hmin x Hx F). apply key_ltb_false in Hmin.
        destruct Hmin as [Hmin|Hmin]; [rewrite Hmin, key_eqb_refl in E; discriminate|].
        rewrite Hmin. reflexivity.
  - intros x Hx. unfold ahead, key_geb. rewrite fourth_zero_succ by auto.
    rewrite negb_involutive.
    destruct (key_eqb (fst x) (fst m)) eqn:E; simpl; auto.
    apply key_eqb_spec in E. rewrite E, key_ltb_irrefl. destruct (q x); reflexivity.
Qed.

Lemma ahead_shrinks_mc (T : btree) key m :
  (forall x, In x T -> sk_fourth (fst x) = 0) ->
  In m T -> key_ltb (fst m) key = false ->
  (length (List.filter (fun it => key_geb (fst it) (scoutfs_key_inc (fst m))) T)
   < length (List.filter (fun it => key_geb (fst it) key) T))%nat.
Proof.
  intros Hall Hin Hge. apply filter_length_lt with (a := m); auto.
  - intros x Hx. unfold key_geb. rewrite fourth_zero_succ by auto.
    rewrite negb_involutive. intros Hlt. apply negb_true_iff.
    destruct (key_ltb (fst x) key) eqn:F; auto.
    pose proof (key_lt_le_trans _ _ _ F Hge) as G.
    apply key_ltb_asym in G. congruence.
  - unfold key_geb. rewrite Hge. reflexivity.
  - unfold key_geb. rewrite fourth_zero_succ by auto.
    rewrite key_ltb_irrefl. reflexivity.
Qed.

Lemma wrap32_idem a : wrap32 (wrap32 a) = wrap32 a.
Proof. unfold wrap32. apply Z.mod_mod. lia. Qed.

Lemma count_mounted_clients_spec : forall fuel s key quo non,
  mounted_clients_ok (mounted_clients (super s)) = true ->
  (length (List.filter (fun it => key_geb (fst it) key) (mounted_clients (super s))) < fuel)%nat ->
  wrap32 quo = quo -> wrap32 non = non ->
  exists ret quo' non' f',
    count_mounted_clients fuel s key quo non = Some (ret, quo', non', set_faults s f') /\
    ret <= 0 /\
    (faults s = [] -> ret = 0 /\ f' = []) /\
    (ret = 0 ->
     quo' = wrap32 (quo + count (ahead key is_quorum) (mounted_clients (super s))) /\
     non' = wrap32 (non + count (ahead key (fun it => negb (is_quorum it)))
                                (mounted_clients (super s)))).
Proof.
  induction fuel as [|fuel IH]; intros s key quo non Hok Hlen Hq Hn; [lia|].
  simpl. unfold scoutfs_btree_next. rewrite external_call_eq.
  remember (mounted_clients (super s)) as T eqn:HT.
  remember (fault_errno (nth 0 (faults s) NoFault)) as e.
  assert (Hok' := Hok). unfold mounted_clients_ok in Hok'.
  apply andb_true_iff in Hok'. destruct Hok' as (Hall & Hd).
  destruct (Z.eqb_spec e 0) as [He|He]; cbn [negb].
  2:{ cbn [invalid_mounted_client_item andb]. rewrite andb_false_r.
      destruct (Z.eqb_spec e 0); [contradiction|]. cbn [negb].
      assert (Hne : e <> - ENOENT).
      { revert He. subst e. destruct (nth 0 (faults s) NoFault);
          simpl; unfold ENOENT, EIO, ENOMEM, ENOSPC; lia. }
      destruct (Z.eqb_spec e (- ENOENT)); [contradiction|].
      exists e, quo, non, (tl (faults s)).
      split; [reflexivity|]. split; [subst e; apply fault_errno_neg|].
      split; [intros Hf; exfalso; apply He; subst e; rewrite Hf; reflexivity|].
      intros; contradiction. }
  cbn [get_root set_faults super]. rewrite <- HT. unfold btree_next.
  destruct (btree_first_ge T key) as [m|] eqn:Em.
  2:{ cbn [invalid_mounted_client_item andb]. rewrite andb_false_r.
      replace (- ENOENT =? 0) with false by reflexivity. cbn [negb].
      rewrite Z.eqb_refl.
      exists 0, quo, non, (tl (faults s)).
      split; [reflexivity|]. split; [lia|].
      split; [intros ->; auto|]. intros _.
      assert (Hz : forall q, count (ahead key q) T = 0).
      { intros q. unfold count. rewrite (filter_ext_in _ (fun _ => false)).
        - clear. induction T; simpl; auto.
        - intros x Hx. unfold ahead, key_geb.
          rewrite (btree_first_ge_none _ _ Em x Hx). reflexivity. }
      rewrite !Hz, !Z.add_0_r. auto. }
  destruct (btree_first_ge_some _ _ _ Em) as (Hin & Hge & Hmin).
  assert (Hall' : forall x, In x T -> is_mounted_client_item x = true)
    by (rewrite forallb_forall in Hall; exact Hall).
  assert (Hvm : invalid_mounted_client_item (Some m) = false).
  { pose proof (Hall' m Hin) as Hm. apply is_mounted_client_item_spec in Hm.
    unfold invalid_mounted_client_item.
    destruct Hm as (_ & _ & _ & _ & _ & _ & ->). reflexivity. }
  rewrite Hvm. cbn [Z.eqb andb negb].
  assert (H4 : forall x, In x T -> sk_fourth (fst x) = 0).
  { intros x Hx. apply Hall', is_mounted_client_item_spec in Hx. tauto. }
  pose proof (ahead_shrinks_mc T key m H4 Hin Hge) as Hshrink.
  set (s1 := set_faults s (tl (faults s))).
  assert (HT1 : mounted_clients (super s1) = T) by (subst s1 T; reflexivity).
  assert (Hs1 : forall F, set_faults s1 F = set_faults s F) by (intros; destruct s; reflexivity).
  assert (Hf1 : faults s = [] -> faults s1 = []) by (intros H; subst s1; simpl; rewrite H; reflexivity).
  rewrite (count_ahead_step T key m is_quorum Hall Hd Em).
  rewrite (count_ahead_step T key m (fun it => negb (is_quorum it)) Hall Hd Em).
  destruct (is_quorum m) eqn:Hqm; cbn [negb].
  - destruct (IH s1 (scoutfs_key_inc (fst m)) (wrap32 (quo + 1)) non)
      as (ret & quo' & non' & f' & Hrun & Hle & Hnf & Hz).
    { rewrite HT1. exact Hok. } { rewrite HT1. lia. }
    { apply wrap32_idem. } { exact Hn. }
    rewrite Hrun, Hs1. exists ret, quo', non', f'.
    split; [reflexivity|]. split; [exact Hle|]. split; [auto|].
    intros H0. destruct (Hz H0) as (-> & ->). rewrite HT1.
    rewrite wrap32_add_l. split; f_equal; lia.
  - destruct (IH s1 (scoutfs_key_inc (fst m)) quo (wrap32 (non + 1)))
      as (ret & quo' & non' & f' & Hrun & Hle & Hnf & Hz).
    { rewrite HT1. exact Hok. } { rewrite HT1. lia. }
    { exact Hq. } { apply wrap32_idem. }
    rewrite Hrun, Hs1. exists ret, quo', non', f'.
    split; [reflexivity|]. split; [exact Hle|]. split; [auto|].
    intros H0. destruct (Hz H0) as (-> & ->). rewrite HT1.
    rewrite wrap32_add_l. split; f_equal; lia.
Qed.

Lemma btree_lookup_record (mc : btree) rid :
  btree_lookup mc (init_mounted_client_key rid) =
  match client_record mc rid with
  | Some it => (0, Some it)
  | None => (- ENOENT, None)
  end.
Proof. reflexivity. Qed.

Lemma client_record_in (mc : btree) rid it :
  client_record mc rid = Some it -> In it mc.
Proof. unfold client_record. intros H. apply find_some in H. tauto. Qed.

Lemma check_requests_spec (mc : btree) : forall reqs s l,
  mounted_clients (super s) = mc ->
  forallb is_mounted_client_item mc = true ->
  wrap32 (fl_quo_reqs l) = fl_quo_reqs l ->
  wrap32 (fl_non_mnts l) = fl_non_mnts l ->
  exists l' f',
    check_requests reqs s l = (l', set_faults s f') /\
    fl_quo_mnts l' = fl_quo_mnts l /\
    (faults s = [] -> fl_ret l' = 0 /\ f' = []) /\
    (fl_ret l' = 0 ->
       fl_send l' =
         rev (List.filter (fun fw => negb (quorum_member mc fw)) reqs) ++ fl_send l /\
       fl_reqs l' = List.filter (quorum_member mc) reqs /\
       fl_quo_reqs l' = wrap32 (fl_quo_reqs l + count (quorum_member mc) reqs) /\
       fl_non_mnts l' = wrap32 (fl_non_mnts l - count (plain_member mc) reqs)).
Proof.
  induction reqs as [|fw rest IH]; intros s l Hmc Hall Hq Hn.
  - exists (mk_fl 0 [] (fl_send l) (fl_quo_reqs l) (fl_quo_mnts l) (fl_non_mnts l)),
           (faults s).
    simpl. split; [f_equal; destruct s; reflexivity|].
    split; [reflexivity|]. split; [auto|]. intros _.
    unfold count. simpl. rewrite Z.add_0_r, Z.sub_0_r. auto.
  - cbn [check_requests]. unfold scoutfs_btree_lookup. rewrite external_call_eq.
    remember (fault_errno (nth 0 (faults s) NoFault)) as e.
    set (s1 := set_faults s (tl (faults s))).
    assert (Hmc1 : mounted_clients (super s1) = mc) by (subst s1 mc; reflexivity).
    assert (Hs1 : forall F, set_faults s1 F = set_faults s F) by (intros; destruct s; reflexivity).
    assert (Hf1 : faults s = [] -> faults s1 = [])
      by (intros H; subst s1; simpl; rewrite H; reflexivity).
    destruct (Z.eqb_spec e 0) as [He|He]; cbn [negb].
    2:{ cbn [invalid_mounted_client_item]. rewrite andb_false_r.
        assert (Hneg : e < 0).
        { pose proof (fault_errno_neg (nth 0 (faults s) NoFault)). lia. }
        assert (Hne : e <> - ENOENT).
        { revert He. subst e. destruct (nth 0 (faults s) NoFault);
            simpl; unfold ENOENT, EIO, ENOMEM, ENOSPC; lia. }
        replace (e <? 0) with true by (symmetry; apply Z.ltb_lt; exact Hneg).
        destruct (Z.eqb_spec e (- ENOENT)); [contradiction|].
        eexists _, _. split; [reflexivity|]. cbn [fl_quo_mnts fl_ret].
        split; [reflexivity|].
        split; [intros Hf; exfalso; apply He; subst e; rewrite Hf; reflexivity|].
        intros; contradiction. }
    cbn [get_root]. rewrite Hmc1, btree_lookup_record.
    cbn [List.filter]. rewrite !count_cons.
    assert (Eq : quorum_member mc fw =
                 match client_record mc (fw_rid fw) with
                 | Some it => is_quorum it | None => false end) by reflexivity.
    assert (Ep : plain_member mc fw =
                 match client_record mc (fw_rid fw) with
                 | Some it => negb (is_quorum it) | None => false end) by reflexivity.
    destruct (client_record mc (fw_rid fw)) as [it|] eqn:Er; rewrite Eq, Ep; clear Eq Ep.
    + assert (Hv : invalid_mounted_client_item (Some it) = false).
      { apply client_record_in in Er. rewrite forallb_forall in Hall.
        apply Hall, is_mounted_client_item_spec in Er.
        unfold invalid_mounted_client_item.
        destruct Er as (_ & _ & _ & _ & _ & _ & ->). reflexivity. }
      rewrite Hv. cbn [Z.eqb andb Z.ltb Z.compare].
      destruct (is_quorum it) eqn:Hqi; cbn [negb].
      * destruct (IH s1 (mk_fl 0 [] (fl_send l) (wrap32 (fl_quo_reqs l + 1))
                           (fl_quo_mnts l) (fl_non_mnts l)) Hmc1 Hall)
          as (l' & f' & Hrun & Hqm & Hnf & Hz).
        { apply wrap32_idem. } { exact Hn. }
        rewrite Hrun, Hs1. eexists _, f'. split; [reflexivity|].
        cbn [fl_quo_mnts fl_ret fl_send fl_reqs fl_quo_reqs fl_non_mnts] in *.
        split; [exact Hqm|]. split; [auto|]. intros H0.
        destruct (Hz H0) as (-> & -> & -> & ->).
        rewrite wrap32_add_l. repeat split; f_equal; lia.
      * destruct (IH s1 (mk_fl 0 [] (fw :: fl_send l) (fl_quo_reqs l)
                           (fl_quo_mnts l) (wrap32 (fl_non_mnts l - 1))) Hmc1 Hall)
          as (l' & f' & Hrun & Hqm & Hnf & Hz).
        { exact Hq. } { apply wrap32_idem. }
        rewrite Hrun, Hs1. eexists _, f'. split; [reflexivity|].
        cbn [fl_quo_mnts fl_ret fl_send fl_reqs fl_quo_reqs fl_non_mnts] in *.
        split; [exact Hqm|]. split; [auto|]. intros H0.
        destruct (Hz H0) as (-> & -> & -> & ->).
        rewrite wrap32_sub_l. cbn [rev]. rewrite <- app_assoc.
        repeat split; f_equal; lia.
    + cbn [invalid_mounted_client_item]. rewrite andb_false_r.
      replace (- ENOENT <? 0) with true by reflexivity. rewrite Z.eqb_refl.
      cbn [negb].
      destruct (IH s1 (mk_fl 0 [] (fw :: fl_send l) (fl_quo_reqs l)
                         (fl_quo_mnts l) (fl_non_mnts l)) Hmc1 Hall)
        as (l' & f' & Hrun & Hqm & Hnf & Hz).
      { exact Hq. } { exact Hn. }
      rewrite Hrun, Hs1. eexists _, f'. split; [reflexivity|].
      cbn [fl_quo_mnts fl_ret fl_send fl_reqs fl_quo_reqs fl_non_mnts] in *.
      split; [exact Hqm|]. split; [auto|]. intros H0.
      destruct (Hz H0) as (-> & -> & -> & ->).
      cbn [rev]. rewrite <- app_assoc.
      repeat split; f_equal; lia.
Qed.

Lemma release_quorum_held votes : forall reqs l,
  may_send_quorum votes (fl_quo_mnts l) (fl_quo_reqs l) (fl_non_mnts l) = false ->
  release_quorum votes reqs l =
  mk_fl (fl_ret l) reqs (fl_send l) (fl_quo_reqs l) (fl_quo_mnts l) (fl_non_mnts l).
Proof.
  induction reqs as [|fw rest IH]; intros l H; simpl; [reflexivity|].
  rewrite H, (IH l H). reflexivity.
Qed.

Lemma release_quorum_spec votes : forall reqs l,
  wrap32 (fl_quo_mnts l) = fl_quo_mnts l ->
  wrap32 (fl_quo_reqs l) = fl_quo_reqs l ->
  let l' := release_quorum votes reqs l in
  fl_ret l' = fl_ret l /\
  exists k,
    (k <= length reqs)%nat /\
    fl_send l' = fl_send l ++ firstn k reqs /\
    fl_reqs l' = skipn k reqs /\
    (forall j, (j < k)%nat ->
       may_send_quorum votes (wrap32 (fl_quo_mnts l - Z.of_nat j))
                       (wrap32 (fl_quo_reqs l - Z.of_nat j)) (fl_non_mnts l) = true) /\
    ((k < length reqs)%nat ->
       may_send_quorum votes (wrap32 (fl_quo_mnts l - Z.of_nat k))
                       (wrap32 (fl_quo_reqs l - Z.of_nat k)) (fl_non_mnts l) = false).
Proof.
  induction reqs as [|fw rest IH]; intros l Hm Hr.
  - simpl. split; [reflexivity|]. exists 0%nat. simpl. rewrite app_nil_r.
    repeat split; auto; intros; lia.
  - cbn [release_quorum].
    destruct (may_send_quorum votes (fl_quo_mnts l) (fl_quo_reqs l) (fl_non_mnts l)) eqn:Hmay.
    + destruct (IH (mk_fl (fl_ret l) [] (fl_send l ++ [fw])
                      (wrap32 (fl_quo_reqs l - 1)) (wrap32 (fl_quo_mnts l - 1))
                      (fl_non_mnts l)))
        as (Hret & k & Hk & Hsend & Hreqs & Hbefore & Hat);
        cbn [fl_quo_mnts fl_quo_reqs fl_ret fl_send fl_non_mnts] in *;
        try apply wrap32_idem.
      split; [exact Hret|]. exists (S k). simpl length.
      split; [lia|]. split; [rewrite Hsend, <- app_assoc; reflexivity|].
      split; [exact Hreqs|]. split.
      * intros [|j] Hj.
        -- rewrite !Z.sub_0_r, Hm, Hr. exact Hmay.
        -- specialize (Hbefore j ltac:(lia)). rewrite !wrap32_sub_l in Hbefore.
           replace (fl_quo_mnts l - Z.of_nat (S j)) with (fl_quo_mnts l - 1 - Z.of_nat j) by lia.
           replace (fl_quo_reqs l - Z.of_nat (S j)) with (fl_quo_reqs l - 1 - Z.of_nat j) by lia.
           exact Hbefore.
      * intros Hlt. specialize (Hat ltac:(lia)). rewrite !wrap32_sub_l in Hat.
        replace (fl_quo_mnts l - Z.of_nat (S k)) with (fl_quo_mnts l - 1 - Z.of_nat k) by lia.
        replace (fl_quo_reqs l - Z.of_nat (S k)) with (fl_quo_reqs l - 1 - Z.of_nat k) by lia.
        exact Hat.
    + rewrite (release_quorum_held votes rest l Hmay).
      cbn [fl_quo_mnts fl_quo_reqs fl_ret fl_send fl_non_mnts fl_reqs].
      split; [reflexivity|]. exists 0%nat. simpl. rewrite app_nil_r.
      repeat split; auto; try lia.
      intros _. rewrite !Z.sub_0_r, Hm, Hr. exact Hmay.
Qed.

Lemma may_send_quorum_spec v a b c :
  may_send_quorum v a b c = true <-> send_test v a b c.
Proof.
  unfold may_send_quorum, send_test.
  rewrite orb_true_iff, andb_true_iff, Z.ltb_lt, !Z.eqb_eq. tauto.
Qed.

Lemma count_from_start (q : btree_item -> bool) (T : btree) :
  forallb is_mounted_client_item T = true ->
  count (ahead (init_mounted_client_key 0) q) T = count q T.
Proof.
  intros H. apply count_ext. intros x Hx. unfold ahead, key_geb.
  rewrite forallb_forall in H. rewrite mounted_after_start by auto. reflexivity.
Qed.

(** A pass of the farewell worker that meets no error, by the worker's
    counters: the farewells of clients without a record or without the
    quorum flag are in the send set, and of those of quorum members a
    prefix is, each one having passed the test on the counters as they
    stood, and the first one kept having failed it. *)
Lemma classify_by_counts fuel s reqs l s' :
  mounted_clients_ok (mounted_clients (super s)) = true ->
  (length (mounted_clients (super s)) < fuel)%nat ->
  farewell_classify fuel s reqs = Some (l, s') ->
  fl_ret l = 0 ->
  let mc := mounted_clients (super s) in
  let Q := List.filter (quorum_member mc) reqs in
  let quo_mnts := wrap32 (count is_quorum mc) in
  let non_mnts :=
    wrap32 (count (fun it => negb (is_quorum it)) mc - count (plain_member mc) reqs) in
  let quo_reqs := wrap32 (count (quorum_member mc) reqs) in
  (forall fw, In fw reqs -> quorum_member mc fw = false -> In fw (fl_send l)) /\
  exists k,
    (k <= length Q)%nat /\
    fl_send l =
      rev (List.filter (fun fw => negb (quorum_member mc fw)) reqs) ++ firstn k Q /\
    fl_reqs l = skipn k Q /\
    (forall j, (j < k)%nat ->
       send_test (votes_needed s) (wrap32 (quo_mnts - Z.of_nat j))
                 (wrap32 (quo_reqs - Z.of_nat j)) non_mnts) /\
    ((k < length Q)%nat ->
       ~ send_test (votes_needed s) (wrap32 (quo_mnts - Z.of_nat k))
                   (wrap32 (quo_reqs - Z.of_nat k)) non_mnts).
Proof.
  intros Hok Hlen Hrun Hret mc Q quo_mnts non_mnts quo_reqs.
  assert (Hok' := Hok). unfold mounted_clients_ok in Hok'.
  apply andb_true_iff in Hok'. destruct Hok' as (Hall & Hd).
  unfold farewell_classify in Hrun.
  destruct (count_mounted_clients_spec fuel s (init_mounted_client_key 0) 0 0 Hok)
    as (ret & qm & nm & f1 & Hcount & _ & _ & Hz); try reflexivity.
  { eapply Nat.le_lt_trans; [apply filter_length_bound|exact Hlen]. }
  rewrite Hcount in Hrun. cbn [mbind option_bind] in Hrun.
  destruct (Z.eqb_spec ret 0) as [Hr0|Hr0]; cbn [negb] in Hrun.
  2:{ inversion Hrun; subst l. cbn in Hret. contradiction. }
  destruct (Hz Hr0) as (Hqm & Hnm). clear Hz.
  rewrite !count_from_start in Hqm, Hnm by exact Hall.
  rewrite Z.add_0_l in Hqm, Hnm. fold mc in Hqm, Hnm.
  set (s1 := set_faults s f1) in *.
  destruct (check_requests_spec mc reqs s1 (mk_fl 0 [] [] 0 qm nm))
    as (l2 & f2 & Hcheck & Hqm2 & _ & Hz2); try reflexivity; auto.
  { cbn [fl_non_mnts]. rewrite Hnm. apply wrap32_idem. }
  rewrite Hcheck in Hrun.
  destruct (Z.eqb_spec (fl_ret l2) 0) as [Hr2|Hr2]; cbn [negb] in Hrun.
  2:{ inversion Hrun; subst l. contradiction. }
  destruct (Hz2 Hr2) as (Hsend2 & Hreqs2 & Hqr2 & Hnm2). clear Hz2.
  cbn [fl_send fl_quo_reqs fl_non_mnts fl_quo_mnts] in *.
  rewrite app_nil_r in Hsend2. rewrite Z.add_0_l in Hqr2.
  rewrite Hnm, wrap32_sub_l in Hnm2.
  injection Hrun as Hl Hs'.
  destruct (release_quorum_spec (votes_needed (set_faults s1 f2)) (fl_reqs l2) l2)
    as (_ & k & Hk & Hsend & Hreqs & Hbefore & Hat).
  { rewrite Hqm2, Hqm. apply wrap32_idem. }
  { rewrite Hqr2. apply wrap32_idem. }
  change (votes_needed (set_faults s1 f2)) with (votes_needed s) in *.
  cbv zeta in Hsend, Hreqs. rewrite Hl in Hsend, Hreqs.
  rewrite Hreqs2 in Hk, Hsend, Hreqs, Hat. rewrite Hsend2 in Hsend.
  rewrite Hqm2, Hqr2, Hnm2, Hqm in Hbefore, Hat.
  fold Q quo_mnts quo_reqs non_mnts in Hk, Hsend, Hreqs, Hbefore, Hat.
  split.
  - intros fw Hin Hnq. rewrite Hsend. apply in_or_app. left.
    rewrite <- in_rev. apply filter_In.
    split; [exact Hin|]. rewrite Hnq. reflexivity.
  - exists k. split; [exact Hk|]. split; [exact Hsend|]. split; [exact Hreqs|].
    split.
    + intros j Hj. apply may_send_quorum_spec. apply Hbefore. exact Hj.
    + intros Hlt Hs. apply may_send_quorum_spec in Hs.
      rewrite (Hat Hlt) in Hs. discriminate.
Qed.

Lemma mounted_key_rid it :
  is_mounted_client_item it = true ->
  fst it = init_mounted_client_key (skmc_rid (fst it)).
Proof.
  intros H. apply is_mounted_client_item_spec in H.
  destruct it as [[] v]. unfold init_mounted_client_key, skmc_rid. simpl in *.
  f_equal; lia.
Qed.

Lemma distinct_keys_inj (t : btree) :
  distinct_keys t = true ->
  forall a b, In a t -> In b t -> fst a = fst b -> a = b.
Proof.
  induction t as [|it rest IH]; intros Hd a b Ha Hb Hk; [destruct Ha|].
  cbn [distinct_keys] in Hd. apply andb_true_iff in Hd. destruct Hd as (Hn & Hd).
  apply negb_true_iff in Hn.
  destruct Ha as [<-|Ha], Hb as [<-|Hb]; auto.
  - rewrite Hk, (has_key_in rest b Hb) in Hn. discriminate.
  - rewrite <- Hk, (has_key_in rest a Ha) in Hn. discriminate.
Qed.

Lemma mounted_rids_nodup q (mc : btree) :
  mounted_clients_ok mc = true -> List.NoDup (mounted_rids q mc).
Proof.
  intros Hok. unfold mounted_clients_ok in Hok. apply andb_true_iff in Hok.
  destruct Hok as (Hall & Hd). rewrite forallb_forall in Hall.
  unfold mounted_rids. apply Finite.Injective_map_NoDup_in.
  - intros x y Hx Hy Hr. apply filter_In in Hx, Hy.
    destruct Hx as (Hx & _), Hy as (Hy & _).
    apply (distinct_keys_inj mc Hd); auto.
    rewrite (mounted_key_rid x), (mounted_key_rid y) by auto.
    cbv beta in Hr. rewrite Hr. reflexivity.
  - apply List.NoDup_filter.
    clear Hall. induction mc as [|it rest IH]; [constructor|].
    cbn [distinct_keys] in Hd. apply andb_true_iff in Hd. destruct Hd as (Hn & Hd).
    constructor; [|auto]. intros Hin. apply negb_true_iff in Hn.
    rewrite (has_key_in rest it Hin) in Hn. discriminate.
Qed.

Lemma member_rids q (mc : btree) rid :
  mounted_clients_ok mc = true ->
  match client_record mc rid with Some it => q it | None => false end = true <->
  In rid (mounted_rids q mc).
Proof.
  intros Hok. unfold mounted_clients_ok in Hok. apply andb_true_iff in Hok.
  destruct Hok as (Hall & Hd). rewrite forallb_forall in Hall.
  unfold mounted_rids. rewrite in_map_iff. split.
  - destruct (client_record mc rid) as [it|] eqn:E; [|discriminate].
    intros Hq. unfold client_record in E. apply find_some in E.
    destruct E as (Hin & Hk). apply key_eqb_spec in Hk.
    exists it. split; [rewrite Hk; reflexivity|]. apply filter_In. auto.
  - intros (it & Hr & Hin). apply filter_In in Hin. destruct Hin as (Hin & Hq).
    assert (Hk : fst it = init_mounted_client_key rid).
    { rewrite (mounted_key_rid it) by auto. rewrite Hr. reflexivity. }
    destruct (client_record mc rid) as [it'|] eqn:E.
    + unfold client_record in E. apply find_some in E. destruct E as (Hin' & Hk').
      apply key_eqb_spec in Hk'.
      rewrite (distinct_keys_inj mc Hd it' it Hin' Hin) by congruence. exact Hq.
    + unfold client_record in E. pose proof (find_none _ _ E it Hin) as F.
      cbv beta in F. rewrite Hk, key_eqb_refl in F. discriminate.
Qed.

Lemma nodup_map_filter {A B} (g : A -> B) (f : A -> bool) (l : list A) :
  List.NoDup (map g l) -> List.NoDup (map g (List.filter f l)).
Proof.
  induction l as [|a l IH]; intros H; [constructor|].
  cbn [map] in H. apply List.NoDup_cons_iff in H. destruct H as (Hn & H).
  cbn [List.filter]. destruct (f a); [|auto]. cbn [map].
  constructor; [|auto]. intros Hin. apply Hn.
  apply in_map_iff in Hin. destruct Hin as (x & Hx & Hin).
  apply filter_In in Hin. apply in_map_iff. exists x. tauto.
Qed.

Lemma nodup_app_disjoint {A} (l1 l2 : list A) :
  List.NoDup (l1 ++ l2) -> forall a, In a l1 -> ~ In a l2.
Proof.
  induction l1 as [|x l1 IH]; intros H a Ha; [destruct Ha|].
  cbn in H. apply List.NoDup_cons_iff in H. destruct H as (Hn & H).
  destruct Ha as [<-|Ha]; [|auto].
  intros Hin. apply Hn. apply in_or_app. right. exact Hin.
Qed.

Lemma memb_in (x : Z) l : existsb (Z.eqb x) l = true <-> In x l.
Proof.
  rewrite existsb_exists. split.
  - intros (y & Hy & E). apply Z.eqb_eq in E. subst. exact Hy.
  - intros H. exists x. split; [exact H|apply Z.eqb_refl].
Qed.

(** Of a list without repeats, the members outside a part of it. *)
Lemma filter_out_length (G L : list Z) :
  List.NoDup G -> List.NoDup L -> incl G L ->
  Z.of_nat (length (List.filter (fun x => negb (existsb (Z.eqb x) G)) L)) =
  Z.of_nat (length L) - Z.of_nat (length G).
Proof.
  intros HG HL Hincl.
  pose proof (filter_length (fun x => existsb (Z.eqb x) G) L) as Hsum.
  assert (Hin : length (List.filter (fun x => existsb (Z.eqb x) G) L) = length G).
  { apply Permutation_length. apply Permutation.NoDup_Permutation.
    - apply List.NoDup_filter. exact HL.
    - exact HG.
    - intros x. rewrite filter_In, memb_in. split; [tauto|]. intros H. auto. }
  lia.
Qed.

Lemma same_members_length (l1 l2 : list Z) :
  List.NoDup l1 -> List.NoDup l2 -> incl l1 l2 ->
  (length l1 = length l2 <-> incl l2 l1).
Proof.
  intros H1 H2 Hi. split.
  - intros E. apply NoDup_length_incl; auto. lia.
  - intros Hi2. apply Nat.le_antisymm; apply NoDup_incl_length; auto.
Qed.

Lemma wrap32_small z : 0 <= z < 2 ^ 32 -> wrap32 z = z.
Proof. intros H. unfold wrap32. apply Z.mod_small. exact H. Qed.

(** For farewells of distinct clients the counters of the worker count
    mounts: its test is the rule on the mounts that remain. *)
Lemma send_test_mount_rule (mc : btree) (reqs : list farewell_request)
      (votes : Z) (j : nat) :
  mounted_clients_ok mc = true ->
  List.NoDup (map fw_rid reqs) ->
  Z.of_nat (length mc) < 2 ^ 32 ->
  0 <= votes < 2 ^ 32 ->
  let Q := List.filter (quorum_member mc) reqs in
  (j <= length Q)%nat ->
  send_test votes
    (wrap32 (wrap32 (count is_quorum mc) - Z.of_nat j))
    (wrap32 (wrap32 (count (quorum_member mc) reqs) - Z.of_nat j))
    (wrap32 (count (fun it => negb (is_quorum it)) mc - count (plain_member mc) reqs))
  <-> mount_rule votes mc reqs (firstn j Q) (skipn j Q).
Proof.
  intros Hok Hnd Hlen Hv Q Hj.
  set (qr := quorum_rids mc). set (pr := plain_rids mc).
  set (QR := map fw_rid Q).
  set (P := List.filter (plain_member mc) reqs). set (PR := map fw_rid P).
  set (G := map fw_rid (firstn j Q)). set (Pn := map fw_rid (skipn j Q)).
  assert (Nqr : List.NoDup qr) by (apply mounted_rids_nodup; exact Hok).
  assert (Npr : List.NoDup pr) by (apply mounted_rids_nodup; exact Hok).
  assert (NQ : List.NoDup QR) by (apply nodup_map_filter; exact Hnd).
  assert (NP : List.NoDup PR) by (apply nodup_map_filter; exact Hnd).
  assert (IQ : incl QR qr).
  { intros r Hr. apply in_map_iff in Hr. destruct Hr as (fw & <- & Hin).
    apply filter_In in Hin. destruct Hin as (_ & Hq).
    apply (member_rids is_quorum mc (fw_rid fw) Hok). exact Hq. }
  assert (IP : incl PR pr).
  { intros r Hr. apply in_map_iff in Hr. destruct Hr as (fw & <- & Hin).
    apply filter_In in Hin. destruct Hin as (_ & Hq).
    apply (member_rids (fun it => negb (is_quorum it)) mc (fw_rid fw) Hok). exact Hq. }
  assert (HQR : QR = G ++ Pn).
  { subst QR G Pn. rewrite <- map_app, firstn_skipn. reflexivity. }
  assert (NG : List.NoDup G) by (rewrite HQR in NQ; eapply NoDup_app_remove_r; exact NQ).
  assert (IG : incl G qr).
  { intros r Hr. apply IQ. rewrite HQR. apply in_or_app. left. exact Hr. }
  assert (LG : length G = j).
  { subst G. rewrite length_map, length_firstn. lia. }
  assert (Lqr : count is_quorum mc = Z.of_nat (length qr)).
  { unfold count, qr, quorum_rids, mounted_rids. rewrite length_map. reflexivity. }
  assert (Lpr : count (fun it => negb (is_quorum it)) mc = Z.of_nat (length pr)).
  { unfold count, pr, plain_rids, mounted_rids. rewrite length_map. reflexivity. }
  assert (LQ : count (quorum_member mc) reqs = Z.of_nat (length QR)).
  { unfold count, QR, Q. rewrite length_map. reflexivity. }
  assert (LP : count (plain_member mc) reqs = Z.of_nat (length PR)).
  { unfold count, PR, P. rewrite length_map. reflexivity. }
  assert (Bqr : (length qr <= length mc)%nat).
  { unfold qr, quorum_rids, mounted_rids. rewrite length_map. apply filter_length_bound. }
  assert (Bpr : (length pr <= length mc)%nat).
  { unfold pr, plain_rids, mounted_rids. rewrite length_map. apply filter_length_bound. }
  assert (BQ : (length QR <= length qr)%nat) by (apply NoDup_incl_length; assumption).
  assert (BP : (length PR <= length pr)%nat) by (apply NoDup_incl_length; assumption).
  assert (LQj : length QR = length Q) by (subst QR; apply length_map).
  assert (Lrem : Z.of_nat (length (remaining_quorum mc (firstn j Q))) =
                 Z.of_nat (length qr) - Z.of_nat j).
  { unfold remaining_quorum. fold G qr. rewrite filter_out_length by assumption. lia. }
  rewrite Lqr, Lpr, LQ, LP.
  rewrite (wrap32_small (Z.of_nat (length qr))) by lia.
  rewrite (wrap32_small (Z.of_nat (length QR))) by lia.
  rewrite !wrap32_small by lia.
  unfold send_test, mount_rule. rewrite Lrem.
  assert (E1 : Z.of_nat (length QR) - Z.of_nat j = Z.of_nat (length qr) - Z.of_nat j <->
               (forall r, In r (remaining_quorum mc (firstn j Q)) <-> In r Pn)).
  { transitivity (length QR = length qr); [lia|].
    rewrite (same_members_length QR qr NQ Nqr IQ).
    unfold remaining_quorum. fold G qr. split.
    - intros Hi r. rewrite filter_In, negb_true_iff. split.
      + intros (Hr & Hn). specialize (Hi r Hr). rewrite HQR in Hi.
        apply in_app_or in Hi. destruct Hi as [Hi|Hi]; [|exact Hi].
        apply memb_in in Hi. congruence.
      + intros Hr. split.
        * apply IQ. rewrite HQR. apply in_or_app. right. exact Hr.
        * destruct (existsb (Z.eqb r) G) eqn:E; [|reflexivity].
          apply memb_in in E. rewrite HQR in NQ.
          elim (nodup_app_disjoint G Pn NQ r E Hr).
    - intros Hi r Hr. rewrite HQR. apply in_or_app.
      destruct (existsb (Z.eqb r) G) eqn:E.
      + left. apply memb_in. exact E.
      + right. apply Hi. apply filter_In. rewrite E. auto. }
  assert (E2 : Z.of_nat (length pr) - Z.of_nat (length PR) = 0 <->
               (forall r, In r pr -> In r (map fw_rid reqs))).
  { transitivity (length PR = length pr); [lia|].
    rewrite (same_members_length PR pr NP Npr IP). split.
    - intros Hi r Hr. specialize (Hi r Hr). apply in_map_iff in Hi.
      destruct Hi as (fw & <- & Hin). apply filter_In in Hin.
      apply in_map. tauto.
    - intros Hi r Hr. specialize (Hi r Hr). apply in_map_iff in Hi.
      destruct Hi as (fw & <- & Hin). apply in_map. apply filter_In.
      split; [exact Hin|].
      apply (member_rids (fun it => negb (is_quorum it)) mc (fw_rid fw) Hok). exact Hr. }
  rewrite E1, E2. rewrite (wrap32_small votes) by lia. reflexivity.
Qed.

Lemma classify_returns fuel s reqs :
  mounted_clients_ok (mounted_clients (super s)) = true ->
  (length (mounted_clients (super s)) < fuel)%nat ->
  exists l f,
    farewell_classify fuel s reqs = Some (l, set_faults s f) /\
    (faults s = [] -> fl_ret l = 0).
Proof.
  intros Hok Hlen. unfold farewell_classify.
  assert (Hok' := Hok). unfold mounted_clients_ok in Hok'.
  apply andb_true_iff in Hok'. destruct Hok' as (Hall & Hd).
  destruct (count_mounted_clients_spec fuel s (init_mounted_client_key 0) 0 0 Hok)
    as (ret & qm & nm & f1 & Hcount & _ & Hnf & Hz); try reflexivity.
  { eapply Nat.le_lt_trans; [apply filter_length_bound|exact Hlen]. }
  rewrite Hcount. cbn [mbind option_bind].
  destruct (Z.eqb_spec ret 0) as [Hr0|Hr0]; cbn [negb].
  2:{ eexists _, _. split; [reflexivity|].
      intros Hnil. destruct (Hnf Hnil) as (E & _). contradiction. }
  destruct (Hz Hr0) as (Hqm & Hnm).
  set (s1 := set_faults s f1).
  destruct (check_requests_spec (mounted_clients (super s)) reqs s1
              (mk_fl 0 [] [] 0 qm nm))
    as (l2 & f2 & Hcheck & Hqm2 & Hnf2 & Hz2); try reflexivity; auto.
  { cbn [fl_non_mnts]. rewrite Hnm. apply wrap32_idem. }
  rewrite Hcheck.
  assert (Hs1 : forall g, set_faults s1 g = set_faults s g)
    by (intros; destruct s; reflexivity).
  rewrite Hs1.
  destruct (Z.eqb_spec (fl_ret l2) 0) as [Hr2|Hr2]; cbn [negb].
  2:{ eexists _, _. split; [reflexivity|].
      intros Hnil. destruct (Hnf Hnil) as (_ & ->).
      destruct Hnf2 as (E & _); [reflexivity|]. contradiction. }
  destruct (Hz2 Hr2) as (_ & _ & Hqr2 & _).
  destruct (release_quorum_spec (votes_needed (set_faults s f2)) (fl_reqs l2) l2)
    as (Hret & _).
  { rewrite Hqm2. cbn [fl_quo_mnts]. rewrite Hqm. apply wrap32_idem. }
  { rewrite Hqr2. apply wrap32_idem. }
  eexists _, _. split; [reflexivity|]. intros _. rewrite Hret. exact Hr2.
Qed.

(** C9, as the code has it.  A pass of the farewell worker over farewells
    of distinct clients, up to the point where it reclaims and responds.
    The classification returns, and without an error when no tree read
    fails.  When it meets no error, every farewell of a client that has no
    mounted-client record, or one without the quorum flag, is in the send
    set; and of the farewells of quorum members, taken in order, a prefix
    is in the send set and the rest stay pending: for each one sent, the
    quorum mounts then remaining exceeded the votes needed, or they were
    just the clients with a farewell pending and no other mount remained;
    and for the first one kept neither was so. *)
Theorem farewell_send_rule fuel s reqs :
  mounted_clients_ok (mounted_clients (super s)) = true ->
  (length (mounted_clients (super s)) < fuel)%nat ->
  Z.of_nat (length (mounted_clients (super s))) < 2 ^ 32 ->
  0 <= votes_needed s < 2 ^ 32 ->
  List.NoDup (map fw_rid reqs) ->
  let mc := mounted_clients (super s) in
  let Q := List.filter (quorum_member mc) reqs in
  exists l s',
    farewell_classify fuel s reqs = Some (l, s') /\
    (faults s = [] -> fl_ret l = 0) /\
    (fl_ret l = 0 ->
     (forall fw, In fw reqs -> quorum_member mc fw = false -> In fw (fl_send l)) /\
     exists k,
       (k <= length Q)%nat /\
       fl_send l =
         rev (List.filter (fun fw => negb (quorum_member mc fw)) reqs) ++ firstn k Q /\
       fl_reqs l = skipn k Q /\
       (forall j, (j < k)%nat ->
          mount_rule (votes_needed s) mc reqs (firstn j Q) (skipn j Q)) /\
       ((k < length Q)%nat ->
          ~ mount_rule (votes_needed s) mc reqs (firstn k Q) (skipn k Q))).
Proof.
  intros Hok Hlen Hmax Hv Hnd mc Q.
  destruct (classify_returns fuel s reqs Hok Hlen) as (l & f & Hrun & Hnf).
  exists l, (set_faults s f). split; [exact Hrun|]. split; [exact Hnf|].
  intros Hret.
  destruct (classify_by_counts fuel s reqs l _ Hok Hlen Hrun Hret)
    as (Hplain & k & Hk & Hsend & Hreqs & Hbefore & Hat).
  split; [exact Hplain|]. exists k.
  split; [exact Hk|]. split; [exact Hsend|]. split; [exact Hreqs|]. split.
  - intros j Hj. apply (send_test_mount_rule mc reqs (votes_needed s) j); auto.
    cbv zeta. unfold Q, mc in *. lia.
  - intros Hlt Hrule. apply Hat; [exact Hlt|].
    apply (send_test_mount_rule mc reqs (votes_needed s) k); auto.
Qed.

(** C9 as stated fails in two ways.  A client whose farewell is pending
    twice is counted twice: of three quorum mounts with two votes needed,
    the farewells of clients 1, 1 again and 2 are all released, the second
    at a point where the quorum mounts 2 and 3 remain, which neither
    exceed the votes needed nor have both sent a farewell.  And a pass
    whose first read of the tree fails moves nothing to the send set, the
    farewell of the plain mount 4 included. *)
Lemma farewell_repeated_request_released :
  (exists l s',
     farewell_classify 5 ex_server ex_repeated_farewells = Some (l, s') /\
     fl_ret l = 0 /\ fl_reqs l = [] /\ In (mk_fw 35 1) (fl_send l)) /\
  remaining_quorum ex_mounted_clients [mk_fw 31 1] = [2; 3] /\
  ~ quorum_sent_by_rule 5 ex_server ex_repeated_farewells /\
  ~ plain_always_sent 5 (set_faults ex_server [FailIO]) ex_farewells.
Proof.
  assert (E : exists l s',
            farewell_classify 5 ex_server ex_repeated_farewells = Some (l, s') /\
            fl_ret l = 0 /\ fl_reqs l = [] /\ In (mk_fw 35 1) (fl_send l)).
  { eexists _, _. split; [vm_compute; reflexivity|].
    split; [reflexivity|]. split; [reflexivity|]. cbn. auto. }
  split; [exact E|]. split; [vm_compute; reflexivity|]. split.
  - intros H. destruct E as (l & s' & Hrun & _ & _ & Hin).
    specialize (H l s' 1%nat (mk_fw 35 1) Hrun eq_refl Hin).
    destruct H as [H|(H & _)].
    + vm_compute in H. discriminate H.
    + assert (F : In 3 (map fw_rid (skipn 1
                    (List.filter (quorum_member (mounted_clients (super ex_server)))
                                 ex_repeated_farewells)))).
      { apply H. vm_compute. auto. }
      vm_compute in F. intuition discriminate.
  - intros H.
    destruct (farewell_classify 5 (set_faults ex_server [FailIO]) ex_farewells)
      as [[l s']|] eqn:Hrun; [|vm_compute in Hrun; discriminate].
    assert (Hs : fl_send l = []) by (vm_compute in Hrun; inversion Hrun; reflexivity).
    specialize (H l s' Hrun (mk_fw 34 4)). rewrite Hs in H.
    apply H; [cbn; auto|vm_compute; reflexivity].
Qed.

(** C10 at [ex_server]: removing the items of rid 1 leaves the item of
    rid 2. *)
Lemma remove_trans_seq_only_own_witness :
  exists ret t' f',
    remove_trans_seq 4 ex_server 1 = Some (ret, with_trans_seqs ex_server t' f') /\
    (forall x, In x ex_trans_seqs -> owned_by 1 x = false -> In x t') /\
    (ret = 0 -> t' = [(init_trans_seq_key 3 2, [])]).
Proof.
  destruct (remove_trans_seq_only_own 4 ex_server 1)
    as (ret & t' & f' & _ & Hrun & Hkeep & _ & Hz & _).
  - reflexivity.
  - simpl. lia.
  - exists ret, t', f'. split; [exact Hrun|]. split; [exact Hkeep|]. exact Hz.
Defined.

(** C7 at [ex_server]: client 1 advances to seq 8, its old item gives way
    to the new one, and the response carries the commit's result. *)
Lemma advance_seq_replaces_items_witness :
  exists ret s' r,
    server_advance_seq 4 ex_server 1 5 77 [] = Some (ret, s') /\
    sent s' = [r] /\ resp_error r = 0 /\
    trans_seqs (super s') =
      [(init_trans_seq_key 8 1, []); (init_trans_seq_key 3 2, [])] /\
    next_trans_seq (super s') = 9 /\ resp_data r = Le64 8.
Proof.
  destruct (advance_seq_replaces_items 4 ex_server 1 5 77)
    as (ret & s' & r & rm & t1 & f1 & Hrun & Hsent & _ & _ & _ & Hrm & He & Hz & _ & Hok).
  - reflexivity.
  - simpl. lia.
  - assert (Hrm0 : rm = 0 /\ f1 = []) by (vm_compute in Hrm; inversion Hrm; auto).
    destruct Hrm0 as (-> & ->).
    destruct (Hz eq_refl eq_refl) as (Ht & _ & Hn & _ & Hd).
    exists ret, s', r. split; [exact Hrun|]. split; [exact Hsent|].
    split; [apply Hok; reflexivity|]. split; [exact Ht|].
    split; [apply Hn; vm_compute; split; [discriminate|reflexivity]|exact Hd].
Defined.

(** C6 at three inodes from the end: a request for 10 leaves [next_ino]
    at U64_MAX. *)
Lemma alloc_inodes_clamped_witness :
  next_ino (super (snd (server_alloc_inodes
     (set_super ex_server (set_next_ino ex_super (U64_MAX - 3))) 1 1 77
     [10; 0; 0; 0; 0; 0; 0; 0]))) = U64_MAX.
Proof.
  pose proof (alloc_inodes_clamped
     (set_super ex_server (set_next_ino ex_super (U64_MAX - 3))) 1 1 77
     [10; 0; 0; 0; 0; 0; 0; 0]) as H.
  cbv zeta in H.
  destruct H as (H & _).
  - reflexivity.
  - repeat constructor; lia.
  - vm_compute. split; discriminate.
  - rewrite H. reflexivity.
Defined.

(** C8 at [ex_server], whose smallest open seq is 3. *)
Lemma get_last_seq_answer_witness :
  exists r,
    sent (snd (server_get_last_seq ex_server 1 6 77 [])) = [r] /\
    (resp_error r = 0 -> resp_data r = Le64 2).
Proof.
  destruct (get_last_seq_answer ex_server 1 6 77) as (r & Hsent & _ & _ & _ & _ & Hz).
  - reflexivity.
  - exists r. split; [exact Hsent|]. intros H0. destruct (Hz H0) as (_ & Hne).
    destruct Hne as (m & _ & _ & Hdata & _); [discriminate|].
    assert (E : sent (snd (server_get_last_seq ex_server 1 6 77 [])) =
                [mk_resp 1 6 77 0 (Le64 2)]) by reflexivity.
    rewrite E in Hsent. inversion Hsent. reflexivity.
Defined.

(** The state of [ex_zero_seq_server] is what ADVANCE_SEQ of client 7
    leaves of a super block whose [next_trans_seq] is 0. *)
Lemma zero_seq_state_reached :
  option_map (fun p => (fst p, super (snd p)))
    (server_advance_seq 4
       (set_super ex_server (set_next_trans_seq (set_trans_seqs ex_super []) 0))
       7 5 76 []) =
  Some (0, super ex_zero_seq_server).
Proof. vm_compute. reflexivity. Qed.

(** C8 as stated fails where the smallest open seq is 0: the answer is
    U64_MAX, which is not less than the seq of the item. *)
Lemma last_seq_not_below_seq_zero :
  trans_seqs (super ex_zero_seq_server) = [(init_trans_seq_key 0 7, [])] /\
  sent (snd (server_get_last_seq ex_zero_seq_server 7 6 77 [])) =
    [mk_resp 7 6 77 0 (Le64 U64_MAX)] /\
  ~ last_seq_below_live ex_zero_seq_server 7 6 77.
Proof.
  split; [reflexivity|]. split; [vm_compute; reflexivity|].
  intros H.
  specialize (H (mk_resp 7 6 77 0 (Le64 U64_MAX)) U64_MAX eq_refl eq_refl eq_refl
                (init_trans_seq_key 0 7, []) (or_introl eq_refl)).
  vm_compute in H. discriminate H.
Qed.

(** C9 at [ex_server]: of the farewells of the quorum mounts 1 and 2 and
    the plain mount 4, that of mount 4 is sent. *)
Lemma farewell_send_rule_witness :
  exists l s',
    farewell_classify 5 ex_server ex_farewells = Some (l, s') /\
    fl_ret l = 0 /\ In (mk_fw 34 4) (fl_send l).
Proof.
  destruct (farewell_send_rule 5 ex_server ex_farewells)
    as (l & s' & Hrun & Hnf & Hz).
  - reflexivity.
  - simpl. lia.
  - vm_compute. reflexivity.
  - vm_compute. split; [discriminate|reflexivity].
  - repeat constructor; simpl; intuition discriminate.
  - exists l, s'. split; [exact Hrun|]. split; [apply Hnf; reflexivity|].
    destruct (Hz (Hnf eq_refl)) as (Hplain & _).
    apply Hplain; [simpl; auto|reflexivity].
Defined.

(** C2 at its failing input: GET_ROOTS with a payload of one byte is
    answered with error 0 and zeroed roots, not with -EINVAL. *)
Lemma get_roots_bad_length_answer :
  server_get_roots ex_server 1 4 77 [0] =
  (0, set_sent ex_server [mk_resp 1 4 77 0 (Roots (mk_roots 0 0 0))]).
Proof. reflexivity. Qed.

(** Whatever the payload, the one response of GET_ROOTS has error 0. *)
Lemma get_roots_never_reports s rid cmd id arg :
  exists r, sent (snd (server_get_roots s rid cmd id arg)) = sent s ++ [r] /\
            resp_error r = 0.
Proof.
  unfold server_get_roots. destruct (negb (arg_len arg =? 0));
    eexists; split; reflexivity.
Qed.

Lemma arg_len_nonempty (arg : list Z) : arg <> [] -> negb (arg_len arg =? 0) = true.
Proof.
  destruct arg; [congruence|]. intros _. unfold arg_len. simpl length.
  apply negb_true_iff, Z.eqb_neq. lia.
Qed.

(** With a payload where none is expected, GET_LAST_SEQ and ADVANCE_SEQ
    do respond with -EINVAL; FAREWELL returns -EINVAL without queueing a
    response. *)
Lemma sibling_handlers_report_bad_length fuel s rid cmd id arg :
  arg <> [] ->
  sent (snd (server_get_last_seq s rid cmd id arg)) =
    sent s ++ [mk_resp rid cmd id (- EINVAL) (Le64 0)] /\
  (exists r, server_advance_seq fuel s rid cmd id arg = Some (r, set_sent s
    (sent s ++ [mk_resp rid cmd id (- EINVAL) (Le64 0)]))) /\
  server_farewell s rid cmd id arg = (- EINVAL, s).
Proof.
  intros H. unfold server_get_last_seq, server_advance_seq, server_farewell.
  rewrite (arg_len_nonempty arg H). repeat split. eexists. reflexivity.
Qed.

End ServerFacts.

(* ===================================================================== *)
(** ** Block layer: dirty tracking, writes and reads *)
(* ===================================================================== *)

Module BlockMoreFacts.
Import Block BlockProps.

Lemma same_tracking_refl s : same_tracking s s.
Proof. split; auto. Qed.

Lemma same_tracking_trans a b c :
  same_tracking a b -> same_tracking b c -> same_tracking a c.
Proof. intros [H1 H2] [H3 H4]. split; [congruence|]. intros x. rewrite H4. apply H2. Qed.

Lemma dirty_tracked_same s s' :
  same_tracking s s' -> dirty_tracked s -> dirty_tracked s'.
Proof.
  intros [Ht Hp] [Hn Hi]. split; rewrite Ht; [exact Hn|].
  intros b. rewrite Hp. apply Hi.
Qed.

Lemma same_tracking_fields s s' :
  block_dirty_tree s' = block_dirty_tree s -> bufs s' = bufs s -> same_tracking s s'.
Proof. intros H1 H2. split; [exact H1|]. intros b. unfold is_tracked. rewrite H2. reflexivity. Qed.

Lemma is_tracked_in s x : is_tracked s x = tracked_in (bufs s) x.
Proof. reflexivity. Qed.

Lemma tracked_insert m k bh x :
  tracked_in (<[k := bh]> m) x = if decide (x = k) then b_private bh else tracked_in m x.
Proof.
  unfold tracked_in. destruct (decide (x = k)) as [->|Hne].
  - rewrite lookup_insert_eq. reflexivity.
  - rewrite lookup_insert_ne by congruence. reflexivity.
Qed.

Lemma tracked_insert_same m k bh x :
  b_private bh = tracked_in m k -> tracked_in (<[k := bh]> m) x = tracked_in m x.
Proof. intros H. rewrite tracked_insert. destruct (decide (x = k)) as [->|]; auto. Qed.

Lemma tracked_alter m k f x :
  (forall bh, b_private (f bh) = b_private bh) ->
  tracked_in (alter f k m) x = tracked_in m x.
Proof.
  intros Hf. unfold tracked_in. destruct (decide (x = k)) as [->|Hne].
  - rewrite lookup_alter_eq. destruct (m !! k); simpl; auto.
  - rewrite lookup_alter_ne by congruence. reflexivity.
Qed.

Lemma next_fault_same sbi :
  same_tracking sbi (snd (next_fault sbi)).
Proof.
  destruct (next_fault sbi) as [f s1] eqn:E.
  destruct (BlockFacts.next_fault_frame _ _ _ E) as (_ & _ & Hb & _ & Ht & _).
  apply same_tracking_fields; assumption.
Qed.

Lemma sb_bread_same sbi blkno :
  same_tracking sbi (snd (sb_bread sbi blkno)).
Proof.
  unfold sb_bread. destruct (bufs sbi !! blkno) as [bh|] eqn:Hb.
  - destruct (b_uptodate bh); [apply same_tracking_refl|].
    destruct (disk sbi !! blkno); [|apply same_tracking_refl].
    split; [reflexivity|]. intros x. rewrite !is_tracked_in. cbn [snd bufs set_bufs].
    apply tracked_insert_same. unfold tracked_in. rewrite Hb. reflexivity.
  - destruct (disk sbi !! blkno); [|apply same_tracking_refl].
    split; [reflexivity|]. intros x. rewrite !is_tracked_in. cbn [snd bufs set_bufs].
    apply tracked_insert_same. unfold tracked_in. rewrite Hb. reflexivity.
Qed.

Lemma block_read_same sbi blkno :
  same_tracking sbi (snd (scoutfs_block_read sbi blkno)).
Proof.
  unfold scoutfs_block_read.
  pose proof (sb_bread_same sbi blkno) as H.
  destruct (sb_bread sbi blkno) as [[bh|] s1] eqn:E; cbn [snd] in *; [|exact H].
  destruct (BlockFacts.sb_bread_frame _ _ _ _ E) as (_ & _ & _ & _ & Hl & _).
  specialize (Hl bh eq_refl).
  destruct (b_verified bh); [exact H|].
  destruct (verify_block_header s1 blkno bh =? 0); [|exact H]. cbn [snd].
  eapply same_tracking_trans; [exact H|].
  split; [reflexivity|]. intros x. rewrite !is_tracked_in. cbn [bufs set_bufs].
  apply tracked_insert_same. unfold tracked_in. rewrite Hl. reflexivity.
Qed.

Lemma read_ref_same sbi ref :
  same_tracking sbi (snd (scoutfs_block_read_ref sbi ref)).
Proof.
  unfold scoutfs_block_read_ref.
  pose proof (block_read_same sbi (r_blkno ref)) as H.
  destruct (scoutfs_block_read sbi (r_blkno ref)) as [[e|b] s1]; cbn [snd] in *;
    [exact H|].
  destruct (scoutfs_block_data s1 b) as [d|]; [|exact H].
  destruct (negb (h_seq (hdr d) =? r_seq ref)); [|exact H]. cbn [snd].
  eapply same_tracking_trans; [exact H|].
  split; [reflexivity|]. intros x. rewrite !is_tracked_in.
  unfold clear_buffer_uptodate. cbn [bufs set_bufs].
  apply tracked_alter. reflexivity.
Qed.

(** The in-order sequence of the dirty tree. *)
Lemma insert_bhp_rb_in t b x : In x (insert_bhp_rb t b) <-> x = b \/ In x t.
Proof.
  induction t as [|a t IH]; simpl; [intuition|].
  destruct (b <? a); simpl; [intuition|]. rewrite IH. intuition.
Qed.

Lemma insert_bhp_rb_nodup t b :
  List.NoDup t -> ~ In b t -> List.NoDup (insert_bhp_rb t b).
Proof.
  induction t as [|a t IH]; simpl; intros Hn Hb.
  - apply List.NoDup_cons_iff. split; [intros []|apply List.NoDup_nil].
  - destruct (b <? a).
    + apply List.NoDup_cons_iff. split; [exact Hb|exact Hn].
    + apply List.NoDup_cons_iff in Hn. destruct Hn as [Ha Hn].
      apply List.NoDup_cons_iff. split.
      * rewrite insert_bhp_rb_in. intros [->|H]; [apply Hb; left; reflexivity|auto].
      * apply IH; [exact Hn|]. intros H. apply Hb. right. exact H.
Qed.

Lemma rb_erase_in t b x :
  List.NoDup t -> (In x (rb_erase t b) <-> In x t /\ x <> b).
Proof.
  induction t as [|a t IH]; simpl; intros Hn; [intuition|].
  apply List.NoDup_cons_iff in Hn. destruct Hn as [Ha Hn].
  destruct (Z.eqb_spec a b) as [->|Hne].
  - split; [intros H; split; [right; exact H|intros ->; contradiction]|].
    intros [[->|H] Hx]; [contradiction|exact H].
  - simpl. rewrite (IH Hn). split.
    + intros [->|[H Hx]]; auto.
    + intros [[->|H] Hx]; auto.
Qed.

Lemma rb_erase_nodup t b : List.NoDup t -> List.NoDup (rb_erase t b).
Proof.
  induction t as [|a t IH]; simpl; intros Hn; [constructor|].
  pose proof Hn as Hn0.
  apply List.NoDup_cons_iff in Hn. destruct Hn as [Ha Hn].
  destruct (a =? b); [exact Hn|].
  apply List.NoDup_cons_iff. split; [|auto].
  rewrite (rb_erase_in t b a Hn). intros [H _]. contradiction.
Qed.

Lemma rb_erase_absent t b : ~ In b t -> rb_erase t b = t.
Proof.
  induction t as [|a t IH]; simpl; intros H; [reflexivity|].
  destruct (Z.eqb_spec a b) as [->|Hne]; [exfalso; apply H; left; reflexivity|].
  f_equal. apply IH. intros Hin. apply H. right. exact Hin.
Qed.

Lemma erase_bhp_tracked sbi blkno :
  dirty_tracked sbi -> dirty_tracked (erase_bhp sbi blkno).
Proof.
  intros [Hn Hi]. unfold erase_bhp. split; cbn [block_dirty_tree set_bufs set_dirty_tree].
  - apply rb_erase_nodup. exact Hn.
  - intros b. rewrite (rb_erase_in _ _ _ Hn), Hi, !is_tracked_in.
    cbn [bufs set_bufs set_dirty_tree]. unfold tracked_in.
    destruct (decide (b = blkno)) as [->|Hne].
    + rewrite lookup_alter_eq. destruct (bufs sbi !! blkno); simpl; intuition congruence.
    + rewrite lookup_alter_ne by congruence. intuition.
Qed.

Lemma insert_bhp_tracked sbi blkno :
  dirty_tracked sbi -> dirty_tracked (snd (insert_bhp sbi blkno)).
Proof.
  intros Hd. unfold insert_bhp.
  destruct (bufs sbi !! blkno) as [bh|] eqn:Hb; [|exact Hd].
  destruct (b_private bh) eqn:Hp; [exact Hd|].
  pose proof (next_fault_same sbi) as Hs.
  destruct (next_fault sbi) as [f s1]. cbn [snd] in Hs.
  pose proof (dirty_tracked_same _ _ Hs Hd) as [Hn Hi].
  destruct (negb (f =? 0)); cbn [snd]; [split; assumption|].
  assert (Hnot : ~ In blkno (block_dirty_tree s1)).
  { rewrite Hi. destruct Hs as [_ Hs]. rewrite Hs, is_tracked_in. unfold tracked_in.
    rewrite Hb, Hp. discriminate. }
  split; cbn [block_dirty_tree set_bufs set_dirty_tree].
  - apply insert_bhp_rb_nodup; assumption.
  - intros b. rewrite insert_bhp_rb_in, Hi, !is_tracked_in.
    cbn [bufs set_bufs set_dirty_tree]. rewrite tracked_insert.
    destruct (decide (b = blkno)) as [->|Hne]; simpl; intuition.
Qed.

Lemma sb_getblk_same sbi blkno :
  same_tracking sbi (snd (sb_getblk sbi blkno)).
Proof.
  unfold sb_getblk. pose proof (next_fault_same sbi) as Hs.
  destruct (next_fault sbi) as [f s1]. cbn [snd] in Hs.
  destruct (negb (f =? 0)); [exact Hs|].
  destruct (bufs s1 !! blkno) as [bh|] eqn:Hb; [exact Hs|]. cbn [snd].
  eapply same_tracking_trans; [exact Hs|].
  split; [reflexivity|]. intros x. rewrite !is_tracked_in. cbn [bufs set_bufs].
  apply tracked_insert_same. unfold tracked_in. rewrite Hb. reflexivity.
Qed.

Lemma block_dirty_tracked sbi blkno :
  dirty_tracked sbi -> dirty_tracked (snd (scoutfs_block_dirty sbi blkno)).
Proof.
  intros Hd. unfold scoutfs_block_dirty.
  pose proof (sb_getblk_same sbi blkno) as Hs.
  destruct (sb_getblk sbi blkno) as [[bh|] s1]; cbn [snd] in *;
    [|eapply dirty_tracked_same; eauto].
  pose proof (insert_bhp_tracked s1 blkno (dirty_tracked_same _ _ Hs Hd)) as Hi.
  destruct (insert_bhp s1 blkno) as [ret s2]. cbn [snd] in Hi.
  destruct (ret <? 0); [exact Hi|]. cbn [snd].
  eapply dirty_tracked_same; [|exact Hi].
  split; [reflexivity|]. intros x. rewrite !is_tracked_in. cbn [bufs set_bufs].
  apply tracked_alter. reflexivity.
Qed.

Lemma buddy_alloc_same_same place sbi near :
  same_tracking sbi (snd (scoutfs_buddy_alloc_same place sbi near)).
Proof.
  unfold scoutfs_buddy_alloc_same. pose proof (next_fault_same sbi) as Hs.
  destruct (next_fault sbi) as [f s1]. cbn [snd] in Hs.
  destruct (negb (f =? 0)); [exact Hs|].
  destruct (avail (bud s1)); exact Hs.
Qed.

Lemma buddy_alloc_tracking sbi :
  same_tracking sbi (snd (scoutfs_buddy_alloc sbi)).
Proof.
  unfold scoutfs_buddy_alloc. pose proof (next_fault_same sbi) as Hs.
  destruct (next_fault sbi) as [f s1]. cbn [snd] in Hs.
  destruct (negb (f =? 0)); [exact Hs|].
  destruct (avail (bud s1)); exact Hs.
Qed.

Lemma buddy_free_same sbi seq blkno order :
  same_tracking sbi (snd (scoutfs_buddy_free sbi seq blkno order)).
Proof.
  unfold scoutfs_buddy_free. pose proof (next_fault_same sbi) as Hs.
  destruct (next_fault sbi) as [f s1]. cbn [snd] in Hs.
  destruct (negb (f =? 0)); [exact Hs|].
  destruct (seq =? h_seq (super_hdr s1)); exact Hs.
Qed.

Lemma dirty_ref_fail_tracked sbi ref ret c blkno :
  dirty_tracked sbi -> dirty_tracked (snd (dirty_ref_fail sbi ref ret c blkno)).
Proof.
  intros Hd. unfold dirty_ref_fail. destruct c; [|exact Hd].
  pose proof (buddy_free_same sbi (h_seq (super_hdr sbi)) blkno 0) as Hs.
  destruct (scoutfs_buddy_free sbi (h_seq (super_hdr sbi)) blkno 0) as [r s1].
  cbn [snd] in *. eapply dirty_tracked_same; eauto.
Qed.

Lemma dirty_ref_tracked place sbi ref :
  dirty_tracked sbi -> dirty_tracked (snd (scoutfs_block_dirty_ref place sbi ref)).
Proof.
  intros Hd. unfold scoutfs_block_dirty_ref.
  pose proof (block_read_same sbi (r_blkno ref)) as Hr.
  destruct (scoutfs_block_read sbi (r_blkno ref)) as [[e|bl] s1]; cbn [snd] in *.
  { eapply dirty_tracked_same; eauto. }
  pose proof (dirty_tracked_same _ _ Hr Hd) as H1.
  destruct (r_seq ref =? h_seq (super_hdr s1)); [exact H1|].
  pose proof (buddy_alloc_same_same place s1 (r_blkno ref)) as Ha.
  destruct (scoutfs_buddy_alloc_same place s1 (r_blkno ref)) as [[ret blkno] s2].
  cbn [snd] in Ha. pose proof (dirty_tracked_same _ _ Ha H1) as H2.
  destruct (ret <? 0); [apply dirty_ref_fail_tracked; exact H2|].
  pose proof (block_dirty_tracked s2 blkno H2) as H3.
  destruct (scoutfs_block_dirty s2 blkno) as [[e|copy_bl] s3]; cbn [snd] in H3.
  { apply dirty_ref_fail_tracked; exact H3. }
  destruct (scoutfs_block_data s3 bl) as [old|]; [|exact H3].
  pose proof (buddy_free_same s3 (h_seq (hdr old)) (h_blkno (hdr old)) 0) as Hf.
  destruct (scoutfs_buddy_free s3 (h_seq (hdr old)) (h_blkno (hdr old)) 0) as [r s4].
  cbn [snd] in Hf. pose proof (dirty_tracked_same _ _ Hf H3) as H4.
  destruct (negb (r =? 0)); [apply dirty_ref_fail_tracked; exact H4|].
  destruct (scoutfs_block_data s4 bl) as [src|]; [|exact H4]. cbn [snd].
  eapply dirty_tracked_same; [|exact H4].
  split; [reflexivity|]. intros x. rewrite !is_tracked_in. cbn [bufs set_bufs].
  apply tracked_alter. reflexivity.
Qed.

Lemma dirty_alloc_tracked sbi :
  dirty_tracked sbi -> dirty_tracked (snd (scoutfs_block_dirty_alloc sbi)).
Proof.
  intros Hd. unfold scoutfs_block_dirty_alloc.
  pose proof (buddy_alloc_tracking sbi) as Ha.
  destruct (scoutfs_buddy_alloc sbi) as [[ret blkno] s1]. cbn [snd] in Ha.
  pose proof (dirty_tracked_same _ _ Ha Hd) as H1.
  destruct (ret <? 0); [exact H1|].
  pose proof (block_dirty_tracked s1 blkno H1) as H2.
  destruct (scoutfs_block_dirty s1 blkno) as [[e|b] s2]; cbn [snd] in *; [|exact H2].
  pose proof (buddy_free_same s2 (stable_seq s2) blkno 0) as Hf.
  destruct (scoutfs_buddy_free s2 (stable_seq s2) blkno 0) as [r s3].
  cbn [snd] in *. eapply dirty_tracked_same; eauto.
Qed.

Lemma forget_tracked sbi blkno :
  dirty_tracked sbi -> dirty_tracked (scoutfs_block_forget sbi blkno).
Proof.
  intros Hd. unfold scoutfs_block_forget.
  destruct (bufs sbi !! blkno) as [bh|]; [|exact Hd].
  destruct (b_private bh); [|exact Hd]. apply erase_bhp_tracked. exact Hd.
Qed.

Lemma set_crc_same sbi b : same_tracking sbi (scoutfs_block_set_crc sbi b).
Proof.
  split; [reflexivity|]. intros x. rewrite !is_tracked_in.
  unfold scoutfs_block_set_crc. cbn [bufs set_bufs]. apply tracked_alter. reflexivity.
Qed.

Lemma complete_write_tracked dev sbi b :
  dirty_tracked sbi -> dirty_tracked (complete_write dev sbi b).
Proof.
  intros Hd. unfold complete_write, block_write_end_io.
  set (s1 := match scoutfs_block_data sbi b with
             | Some d => if write_completes dev b
                         then set_disk sbi (<[b:=d]> (disk sbi)) else sbi
             | None => sbi end).
  assert (H1 : dirty_tracked s1).
  { subst s1. destruct (scoutfs_block_data sbi b); [|exact Hd].
    destruct (write_completes dev b); exact Hd. }
  destruct (write_completes dev b).
  - eapply dirty_tracked_same; [|exact (erase_bhp_tracked s1 b H1)].
    apply same_tracking_fields; reflexivity.
  - eapply dirty_tracked_same; [|exact H1].
    destruct (block_write_err s1 =? 0); apply same_tracking_fields; reflexivity.
Qed.

Lemma write_dirty_loop_tracked dev nodes : forall sbi,
  dirty_tracked sbi -> dirty_tracked (snd (write_dirty_loop dev nodes sbi)).
Proof.
  induction nodes as [|n nodes IH]; intros sbi Hd; simpl; [exact Hd|].
  set (s1 := scoutfs_block_set_crc _ n).
  assert (H1 : dirty_tracked s1).
  { subst s1. eapply dirty_tracked_same; [apply set_crc_same|]. exact Hd. }
  destruct (negb (submit_bh dev n =? 0)); [exact H1|].
  apply IH. apply complete_write_tracked. exact H1.
Qed.

Lemma write_dirty_tracked dev sbi :
  dirty_tracked sbi -> dirty_tracked (snd (scoutfs_block_write_dirty dev sbi)).
Proof.
  intros Hd. unfold scoutfs_block_write_dirty.
  set (s0 := set_block_write_err (set_block_writes sbi 1) 0).
  pose proof (write_dirty_loop_tracked dev (block_dirty_tree s0) s0 Hd) as H.
  destruct (write_dirty_loop dev (block_dirty_tree s0) s0) as [ret s1].
  cbn [snd] in H.
  destruct (block_writes (set_block_writes s1 (block_writes s1 - 1)) =? 0); exact H.
Qed.

(** The dirty tree and the private structs of the buffers stay in step:
    every entry point of the block layer keeps the tree free of duplicates
    and holding exactly the blocks whose buffer carries a private struct. *)
Theorem dirty_tracking_kept place sbi dev blkno ref :
  dirty_tracked sbi ->
  dirty_tracked (snd (scoutfs_block_read sbi blkno)) /\
  dirty_tracked (snd (scoutfs_block_read_ref sbi ref)) /\
  dirty_tracked (snd (scoutfs_block_dirty sbi blkno)) /\
  dirty_tracked (snd (scoutfs_block_dirty_ref place sbi ref)) /\
  dirty_tracked (snd (scoutfs_block_dirty_alloc sbi)) /\
  dirty_tracked (scoutfs_block_forget sbi blkno) /\
  dirty_tracked (snd (scoutfs_block_write_dirty dev sbi)).
Proof.
  intros Hd.
  split; [eapply dirty_tracked_same; [apply block_read_same|exact Hd]|].
  split; [eapply dirty_tracked_same; [apply read_ref_same|exact Hd]|].
  split; [apply block_dirty_tracked; exact Hd|].
  split; [apply dirty_ref_tracked; exact Hd|].
  split; [apply dirty_alloc_tracked; exact Hd|].
  split; [apply forget_tracked; exact Hd|].
  apply write_dirty_tracked; exact Hd.
Qed.

(** *** scoutfs_block_dirty *)

Lemma block_read_cached sbi blkno bh :
  bufs sbi !! blkno = Some bh -> b_uptodate bh = true -> b_verified bh = true ->
  scoutfs_block_read sbi blkno = (BL blkno, sbi).
Proof.
  intros Hb Hu Hv. unfold scoutfs_block_read, sb_bread. rewrite Hb, Hu, Hv. reflexivity.
Qed.

Lemma insert_bhp_result sbi blkno bh :
  bufs sbi !! blkno = Some bh ->
  let r := insert_bhp sbi blkno in
  (fst r = 0 /\
   bufs (snd r) !! blkno = Some (set_private bh true) /\
   (forall k, k <> blkno -> bufs (snd r) !! k = bufs sbi !! k) /\
   (block_dirty_tree (snd r) =
      if b_private bh then block_dirty_tree sbi
      else insert_bhp_rb (block_dirty_tree sbi) blkno)) \/
  (fst r = - ENOMEM /\ bufs (snd r) = bufs sbi /\
   block_dirty_tree (snd r) = block_dirty_tree sbi).
Proof.
  intros Hb. unfold insert_bhp. rewrite Hb.
  destruct (b_private bh) eqn:Hp.
  - left. cbn [fst snd]. repeat split; auto. rewrite Hb. f_equal.
    unfold set_private. destruct bh; simpl in *; subst; reflexivity.
  - destruct (next_fault sbi) as [f s1] eqn:E.
    destruct (BlockFacts.next_fault_frame _ _ _ E) as (_ & _ & Hbu & _ & Ht & _).
    destruct (negb (f =? 0)); cbn [fst snd].
    + right. auto.
    + left. cbn [bufs set_bufs set_dirty_tree block_dirty_tree]. rewrite Hbu, Ht.
      repeat split.
      * apply lookup_insert_eq.
      * intros k Hk. apply lookup_insert_ne. congruence.
Qed.

(** What [scoutfs_block_dirty] gives.  It fails only with -ENOMEM, and then
    leaves the dirty tree and every cached buffer alone.  When it succeeds
    the dirty tree has gained the block and nothing else, the block's
    buffer is up to date, verified and tracked, its header is the super
    block's header with the block's own number, a buffer that was cached
    keeps the rest of its contents, no other buffer is touched, and a read
    of the block then comes from the cache and changes nothing. *)
Theorem block_dirty_outcome sbi blkno :
  dirty_tracked sbi ->
  let r := scoutfs_block_dirty sbi blkno in
  (fst r = ERR_PTR (- ENOMEM) /\
   block_dirty_tree (snd r) = block_dirty_tree sbi /\
   (forall k bh, bufs sbi !! k = Some bh -> bufs (snd r) !! k = Some bh)) \/
  (fst r = BL blkno /\
   (forall k, In k (block_dirty_tree (snd r)) <-> k = blkno \/ In k (block_dirty_tree sbi)) /\
   (exists bh, bufs (snd r) !! blkno = Some bh /\
      hdr (b_data bh) =
        mk_hdr (h_crc (super_hdr sbi)) (h_fsid (super_hdr sbi)) blkno
               (h_seq (super_hdr sbi)) /\
      b_uptodate bh = true /\ b_verified bh = true /\ b_private bh = true /\
      (forall old, bufs sbi !! blkno = Some old ->
                   body (b_data bh) = body (b_data old))) /\
   (forall k, k <> blkno -> bufs (snd r) !! k = bufs sbi !! k) /\
   scoutfs_block_read (snd r) blkno = (BL blkno, snd r)).
Proof.
  intros Hd. cbv zeta. unfold scoutfs_block_dirty, sb_getblk.
  destruct (next_fault sbi) as [f s1] eqn:E.
  destruct (BlockFacts.next_fault_frame _ _ _ E) as (_ & Hs & Hbu & _ & Ht & _).
  destruct (negb (f =? 0)).
  { left. cbn [fst snd]. rewrite Ht, Hbu. auto. }
  set (s2 := match bufs s1 !! blkno with
             | Some _ => s1
             | None => set_bufs s1 (<[blkno := mk_bh zero_data false false false]> (bufs s1))
             end).
  set (bh0 := match bufs s1 !! blkno with
              | Some bh => bh | None => mk_bh zero_data false false false end).
  assert (Hb2 : bufs s2 !! blkno = Some bh0).
  { subst s2 bh0. destruct (bufs s1 !! blkno) eqn:Hb; [exact Hb|].
    cbn [bufs set_bufs]. apply lookup_insert_eq. }
  assert (Ho2 : forall k, k <> blkno -> bufs s2 !! k = bufs sbi !! k).
  { intros k Hk. subst s2. rewrite <- Hbu. destruct (bufs s1 !! blkno); [reflexivity|].
    cbn [bufs set_bufs]. apply lookup_insert_ne. congruence. }
  assert (Ht2 : block_dirty_tree s2 = block_dirty_tree sbi).
  { subst s2. rewrite <- Ht. destruct (bufs s1 !! blkno); reflexivity. }
  assert (Hs2 : super_hdr s2 = super_hdr sbi).
  { subst s2. rewrite <- Hs. destruct (bufs s1 !! blkno); reflexivity. }
  assert (Hold : forall old, bufs sbi !! blkno = Some old -> bh0 = old).
  { intros old Ho. subst bh0. rewrite Hbu, Ho. reflexivity. }
  assert (Hpriv : b_private bh0 = true -> In blkno (block_dirty_tree sbi)).
  { intros Hp. destruct Hd as [_ Hi]. apply Hi. unfold is_tracked.
    subst bh0. rewrite <- Hbu. destruct (bufs s1 !! blkno); [exact Hp|discriminate]. }
  replace (match bufs s1 !! blkno with
           | Some bh => (Some bh, s1)
           | None => (Some (mk_bh zero_data false false false),
                      set_bufs s1 (<[blkno := mk_bh zero_data false false false]> (bufs s1)))
           end) with (Some bh0, s2)
    by (subst bh0 s2; destruct (bufs s1 !! blkno); reflexivity).
  destruct (insert_bhp_result s2 blkno bh0 Hb2) as [(Hr & Hl & Ho & Htr)|(Hr & Hbs & Htr)];
    assert (Hs3 := BlockFacts.insert_bhp_frame s2 blkno);
    destruct (insert_bhp s2 blkno) as [ret s3]; cbn [fst snd] in *; subst ret;
    destruct (Hs3 _ _ eq_refl) as (Hs3' & _); clear Hs3.
  - right. cbn [Z.ltb Z.compare fst snd].
    cbn [bufs set_bufs block_dirty_tree].
    split; [reflexivity|]. split; [|split; [|split]].
    + intros k. rewrite Htr, Ht2. destruct (b_private bh0) eqn:Hp.
      * split; [auto|]. intros [->|H]; auto.
      * apply insert_bhp_rb_in.
    + eexists. split; [rewrite lookup_alter_eq, Hl; reflexivity|].
      cbn. rewrite Hs3', Hs2. repeat split.
      intros old Ho'. rewrite (Hold old Ho'). reflexivity.
    + intros k Hk. rewrite lookup_alter_ne by congruence. rewrite Ho, Ho2; auto.
    + eapply block_read_cached.
      * cbn [bufs set_bufs]. rewrite lookup_alter_eq, Hl. reflexivity.
      * reflexivity.
      * reflexivity.
  - left. replace (- ENOMEM <? 0) with true by reflexivity. cbn [fst snd].
    split; [reflexivity|]. split; [congruence|].
    intros k bh Hk. rewrite Hbs. destruct (decide (k = blkno)) as [->|Hne].
    + rewrite Hb2. f_equal. apply Hold. exact Hk.
    + rewrite Ho2 by exact Hne. exact Hk.
Qed.

Lemma block_read_leaves sbi blkno c sbi1 :
  scoutfs_block_read sbi blkno = (BL c, sbi1) ->
  c = blkno /\ super_hdr sbi1 = super_hdr sbi /\
  exists bh, bufs sbi1 !! blkno = Some bh /\ b_uptodate bh = true /\
             b_verified bh = true.
Proof.
  unfold scoutfs_block_read, sb_bread.
  destruct (bufs sbi !! blkno) as [bh|] eqn:Hb.
  - destruct (b_uptodate bh) eqn:Hu.
    + destruct (b_verified bh) eqn:Hv.
      * intros [= <- <-]. eauto 7.
      * destruct (verify_block_header sbi blkno bh =? 0); [|discriminate].
        intros [= <- <-]. cbn. rewrite lookup_insert_eq. eauto 7.
    + destruct (disk sbi !! blkno) as [d|]; [|discriminate].
      destruct (b_verified bh) eqn:Hv; cbn [b_verified].
      * intros [= <- <-]. cbn. rewrite lookup_insert_eq. eauto 7.
      * destruct (verify_block_header _ blkno _ =? 0); [|discriminate].
        intros [= <- <-]. cbn. rewrite lookup_insert_eq. eauto 7.
  - destruct (disk sbi !! blkno) as [d|]; [|discriminate]. cbn [b_verified].
    destruct (verify_block_header _ blkno _ =? 0); [|discriminate].
    intros [= <- <-]. cbn. rewrite lookup_insert_eq. eauto 7.
Qed.

Lemma block_dirty_flags sbi blkno c sbi1 :
  scoutfs_block_dirty sbi blkno = (BL c, sbi1) ->
  exists bh, bufs sbi1 !! blkno = Some bh /\ b_uptodate bh = true /\
             b_verified bh = true.
Proof.
  intros H. destruct (BlockFacts.block_dirty_ok _ _ _ _ H) as (_ & _ & _ & [bh Hb] & _).
  revert H Hb. unfold scoutfs_block_dirty.
  destruct (sb_getblk sbi blkno) as [[g|] s1]; [|discriminate].
  destruct (insert_bhp s1 blkno) as [ret s2].
  destruct (ret <? 0); [discriminate|]. intros [= _ <-]. cbn [bufs set_bufs].
  rewrite lookup_alter_eq. destruct (bufs s2 !! blkno) as [x|]; [|discriminate].
  intros _. cbn. eauto.
Qed.

(** A reference that [scoutfs_block_dirty_ref] has made writable stays
    where it is: dirtying it again in the same transaction returns the same
    block and changes neither the reference nor any state. *)
Theorem dirty_ref_again place sbi ref b ref' sbi' :
  scoutfs_block_dirty_ref place sbi ref = (BL b, ref', sbi') ->
  scoutfs_block_dirty_ref place sbi' ref' = (BL b, ref', sbi').
Proof.
  intros H.
  assert (Hgoal : b = r_blkno ref' /\ r_seq ref' = h_seq (super_hdr sbi') /\
            exists bh, bufs sbi' !! b = Some bh /\ b_uptodate bh = true /\
                       b_verified bh = true).
  { unfold scoutfs_block_dirty_ref in H.
    destruct (scoutfs_block_read sbi (r_blkno ref)) as [[e|bl] s1] eqn:Er;
      [discriminate|].
    destruct (block_read_leaves _ _ _ _ Er) as (-> & Hs1 & Hbh).
    destruct (Z.eqb_spec (r_seq ref) (h_seq (super_hdr s1))) as [Hseq|Hseq].
    { inversion H; subst. auto. }
    destruct (scoutfs_buddy_alloc_same place s1 (r_blkno ref)) as [[ret blkno] s2] eqn:Ea.
    destruct (ret <? 0) eqn:Eret;
      [exfalso; eapply BlockFacts.dirty_ref_fail_err; exact H|].
    destruct (scoutfs_block_dirty s2 blkno) as [[e|c] s3] eqn:Ed;
      [exfalso; eapply BlockFacts.dirty_ref_fail_err; exact H|].
    destruct (BlockFacts.block_dirty_ok _ _ _ _ Ed) as (-> & Hs3 & _).
    destruct (block_dirty_flags _ _ _ _ Ed) as (cbh & Hc & Hu & Hv).
    destruct (scoutfs_block_data s3 (r_blkno ref)) as [old|]; [|discriminate].
    destruct (scoutfs_buddy_free s3 (h_seq (hdr old)) (h_blkno (hdr old)) 0)
      as [r4 s4] eqn:Ef.
    destruct (Z.eqb_spec r4 0) as [->|]; cbn [negb] in H;
      [|exfalso; eapply BlockFacts.dirty_ref_fail_err; exact H].
    destruct (BlockFacts.buddy_free_ok _ _ _ _ _ Ef) as (Hs4 & Hb4 & _).
    destruct (scoutfs_block_data s4 (r_blkno ref)) as [src|]; [|discriminate].
    inversion H; subst b ref' sbi'. clear H. cbn.
    split; [reflexivity|]. split; [reflexivity|].
    rewrite lookup_alter_eq, Hb4, Hc. cbn. eauto. }
  destruct Hgoal as (-> & Hseq & bh & Hb & Hu & Hv).
  unfold scoutfs_block_dirty_ref.
  rewrite (block_read_cached _ _ _ Hb Hu Hv). rewrite Hseq, Z.eqb_refl. reflexivity.
Qed.

(** *** scoutfs_block_write_dirty *)

Lemma memb_in_list b l : memb b l = true <-> In b l.
Proof.
  unfold memb. rewrite existsb_exists. split.
  - intros (x & Hx & E). apply Z.eqb_eq in E. subst. exact Hx.
  - intros H. exists b. split; [exact H|apply Z.eqb_refl].
Qed.

Lemma memb_cons b n l : memb b (n :: l) = (b =? n) || memb b l.
Proof. reflexivity. Qed.

Lemma memb_false b l : ~ In b l -> memb b l = false.
Proof. intros H. apply not_true_iff_false. rewrite memb_in_list. exact H. Qed.

Lemma rb_erase_app kept n rest :
  ~ In n kept -> rb_erase (kept ++ n :: rest) n = kept ++ rest.
Proof.
  induction kept as [|a kept IH]; simpl; intros H.
  - rewrite Z.eqb_refl. reflexivity.
  - destruct (Z.eqb_spec a n) as [->|Hne]; [exfalso; apply H; left; reflexivity|].
    f_equal. apply IH. intros Hin. apply H. right. exact Hin.
Qed.

Lemma crc_block_with_crc d c : scoutfs_crc_block (with_crc d c) = scoutfs_crc_block d.
Proof. reflexivity. Qed.

Lemma set_crc_data sbi n b :
  scoutfs_block_data (scoutfs_block_set_crc sbi n) b =
  if b =? n then crc_set <$> scoutfs_block_data sbi b else scoutfs_block_data sbi b.
Proof.
  unfold scoutfs_block_data, scoutfs_block_set_crc. cbn [bufs set_bufs].
  destruct (Z.eqb_spec b n) as [->|Hne].
  - rewrite lookup_alter_eq. destruct (bufs sbi !! n); reflexivity.
  - rewrite lookup_alter_ne by congruence. reflexivity.
Qed.

Lemma erase_bhp_data sbi n b :
  scoutfs_block_data (erase_bhp sbi n) b = scoutfs_block_data sbi b.
Proof.
  unfold scoutfs_block_data, erase_bhp. cbn [bufs set_bufs set_dirty_tree].
  destruct (decide (b = n)) as [->|Hne].
  - rewrite lookup_alter_eq. destruct (bufs sbi !! n); reflexivity.
  - rewrite lookup_alter_ne by congruence. reflexivity.
Qed.

Lemma complete_write_data dev sbi n b :
  scoutfs_block_data (complete_write dev sbi n) b = scoutfs_block_data sbi b.
Proof.
  unfold complete_write, block_write_end_io.
  destruct (scoutfs_block_data sbi n) as [d|] eqn:Hd;
    destruct (write_completes dev n); cbn zeta.
  - change (scoutfs_block_data (set_block_writes (erase_bhp (set_disk sbi (<[n:=d]> (disk sbi))) n) _) b)
      with (scoutfs_block_data (erase_bhp (set_disk sbi (<[n:=d]> (disk sbi))) n) b).
    rewrite erase_bhp_data. reflexivity.
  - destruct (block_write_err sbi =? 0); reflexivity.
  - change (scoutfs_block_data (set_block_writes (erase_bhp sbi n) _) b)
      with (scoutfs_block_data (erase_bhp sbi n) b).
    apply erase_bhp_data.
  - destruct (block_write_err sbi =? 0); reflexivity.
Qed.

Lemma complete_write_disk dev sbi n b :
  disk (complete_write dev sbi n) !! b =
  if (b =? n) && write_completes dev n
  then match scoutfs_block_data sbi n with
       | Some d => Some d
       | None => disk sbi !! b
       end
  else disk sbi !! b.
Proof.
  unfold complete_write, block_write_end_io.
  destruct (scoutfs_block_data sbi n) as [d|] eqn:Hd;
    destruct (write_completes dev n); cbn zeta; rewrite ?andb_true_r, ?andb_false_r.
  - cbn. destruct (Z.eqb_spec b n) as [->|Hne].
    + apply lookup_insert_eq.
    + apply lookup_insert_ne. congruence.
  - destruct (block_write_err sbi =? 0); reflexivity.
  - cbn. destruct (b =? n); reflexivity.
  - destruct (block_write_err sbi =? 0); reflexivity.
Qed.

Lemma complete_write_super dev sbi n :
  super_hdr (complete_write dev sbi n) = super_hdr sbi.
Proof.
  unfold complete_write, block_write_end_io.
  destruct (scoutfs_block_data sbi n); destruct (write_completes dev n); cbn zeta;
    try reflexivity; destruct (block_write_err _ =? 0); reflexivity.
Qed.

Lemma write_dirty_loop_outcome dev nodes : forall kept sbi,
  block_dirty_tree sbi = kept ++ nodes -> List.NoDup (kept ++ nodes) ->
  (forall b, In b nodes -> submit_bh dev b = 0) ->
  let r := write_dirty_loop dev nodes sbi in
  fst r = 0 /\
  block_writes (snd r) = block_writes sbi /\
  super_hdr (snd r) = super_hdr sbi /\
  block_dirty_tree (snd r) =
    kept ++ List.filter (fun b => negb (write_completes dev b)) nodes /\
  block_write_err (snd r) =
    (if forallb (write_completes dev) nodes then block_write_err sbi
     else if block_write_err sbi =? 0 then - EIO else block_write_err sbi) /\
  (forall b, scoutfs_block_data (snd r) b =
             if memb b nodes then crc_set <$> scoutfs_block_data sbi b
             else scoutfs_block_data sbi b) /\
  (forall b, disk (snd r) !! b =
             if memb b nodes && write_completes dev b
             then match scoutfs_block_data sbi b with
                  | Some d => Some (crc_set d)
                  | None => disk sbi !! b
                  end
             else disk sbi !! b).
Proof.
  induction nodes as [|n nodes IH]; intros kept sbi Ht Hn Hs; cbn zeta.
  - simpl. rewrite app_nil_r in *. repeat split; auto.
  - cbn [write_dirty_loop]. rewrite (Hs n) by (left; reflexivity). cbn [Z.eqb negb].
    set (s1 := scoutfs_block_set_crc (set_block_writes sbi (block_writes sbi + 1)) n).
    set (s2 := complete_write dev s1 n).
    assert (Hnk : ~ In n kept /\ ~ In n nodes).
    { apply List.NoDup_remove_2 in Hn. split; intros H; apply Hn, in_or_app; auto. }
    destruct Hnk as [Hnk Hnn].
    destruct (BlockFacts.complete_write_frame dev s1 n) as (Hw & Htr & He0 & He1).
    fold s2 in Hw, Htr, He0, He1.
    assert (Ht1 : block_dirty_tree s1 = kept ++ n :: nodes) by exact Ht.
    set (kept' := if write_completes dev n then kept else kept ++ [n]).
    assert (Ht2 : block_dirty_tree s2 = kept' ++ nodes).
    { rewrite Htr, Ht1. subst kept'. destruct (write_completes dev n).
      - apply rb_erase_app. exact Hnk.
      - rewrite <- app_assoc. reflexivity. }
    assert (Hn2 : List.NoDup (kept' ++ nodes)).
    { subst kept'. destruct (write_completes dev n).
      - eapply List.NoDup_remove_1. exact Hn.
      - rewrite <- app_assoc. exact Hn. }
    destruct (IH kept' s2 Ht2 Hn2) as (Hr & Hbw & Hsup & Htree & Herr & Hdata & Hdisk).
    { intros b Hb. apply Hs. right. exact Hb. }
    split; [exact Hr|]. split; [rewrite Hbw, Hw; subst s1; cbn; lia|].
    split; [rewrite Hsup; subst s2; rewrite complete_write_super; reflexivity|].
    split; [|split; [|split]].
    + rewrite Htree. subst kept'. cbn [List.filter].
      destruct (write_completes dev n); cbn [negb]; [reflexivity|].
      rewrite <- app_assoc. reflexivity.
    + rewrite Herr. cbn [forallb].
      assert (He : block_write_err s1 = block_write_err sbi) by reflexivity.
      destruct (write_completes dev n) eqn:Ec; cbn [andb].
      * rewrite (He1 eq_refl), He. reflexivity.
      * rewrite (He0 eq_refl), He.
        destruct (Z.eqb_spec (block_write_err sbi) 0) as [Hz|Hz].
        -- destruct (forallb (write_completes dev) nodes); reflexivity.
        -- destruct (forallb (write_completes dev) nodes); [reflexivity|].
           destruct (Z.eqb_spec (block_write_err sbi) 0); [contradiction|reflexivity].
    + intros b. rewrite Hdata, memb_cons. subst s2.
      rewrite complete_write_data. subst s1. rewrite set_crc_data.
      change (scoutfs_block_data (set_block_writes sbi (block_writes sbi + 1)) b)
        with (scoutfs_block_data sbi b).
      destruct (Z.eqb_spec b n) as [->|Hne]; cbn [orb]; [|reflexivity].
      rewrite (memb_false _ _ Hnn). reflexivity.
    + intros b. rewrite Hdisk, memb_cons. subst s2.
      rewrite complete_write_data, complete_write_disk. subst s1.
      rewrite !set_crc_data. rewrite Z.eqb_refl.
      change (scoutfs_block_data (set_block_writes sbi (block_writes sbi + 1)))
        with (scoutfs_block_data sbi).
      change (disk (scoutfs_block_set_crc (set_block_writes sbi (block_writes sbi + 1)) n))
        with (disk sbi).
      destruct (Z.eqb_spec b n) as [->|Hne]; cbn [orb andb].
      * rewrite (memb_false _ _ Hnn). cbn [andb].
        destruct (write_completes dev n); [|reflexivity].
        destruct (scoutfs_block_data sbi n); reflexivity.
      * reflexivity.
Qed.

Lemma write_dirty_unfold dev sbi :
  (forall b, In b (block_dirty_tree sbi) -> submit_bh dev b = 0) ->
  List.NoDup (block_dirty_tree sbi) ->
  let s0 := set_block_write_err (set_block_writes sbi 1) 0 in
  let l := write_dirty_loop dev (block_dirty_tree sbi) s0 in
  fst (scoutfs_block_write_dirty dev sbi) = Some 0 /\
  snd (scoutfs_block_write_dirty dev sbi) =
    set_block_writes (snd l) (block_writes (snd l) - 1).
Proof.
  intros Hs Hn s0 l. unfold scoutfs_block_write_dirty. fold s0.
  change (block_dirty_tree s0) with (block_dirty_tree sbi). fold l.
  destruct (write_dirty_loop_outcome dev (block_dirty_tree sbi) [] s0 eq_refl Hn Hs)
    as (Hr & Hbw & _). fold l in Hr, Hbw.
  destruct l as [ret s1]. cbn [fst snd] in *. subst ret.
  cbn [block_writes set_block_writes]. rewrite Hbw. cbn. auto.
Qed.

(** What a commit write leaves when the device accepts every submission.
    The function returns 0 whatever the completions say.  Each dirty block
    has had its CRC set; a block whose write completed is on the device
    with that CRC and has left the dirty tree; a block whose write failed
    stays in the tree, in its place, with the device as it was.
    [block_write_err] is -EIO exactly when some write failed.  Blocks that
    were not dirty are untouched, in the cache and on the device. *)
Theorem write_dirty_outcome dev sbi :
  dirty_tracked sbi ->
  (forall b, In b (block_dirty_tree sbi) -> submit_bh dev b = 0) ->
  let r := scoutfs_block_write_dirty dev sbi in
  fst r = Some 0 /\
  block_dirty_tree (snd r) =
    List.filter (fun b => negb (write_completes dev b)) (block_dirty_tree sbi) /\
  block_write_err (snd r) =
    (if forallb (write_completes dev) (block_dirty_tree sbi) then 0 else - EIO) /\
  (forall b, In b (block_dirty_tree sbi) ->
     exists d, scoutfs_block_data sbi b = Some d /\
               scoutfs_block_data (snd r) b = Some (crc_set d) /\
               disk (snd r) !! b =
                 if write_completes dev b then Some (crc_set d) else disk sbi !! b) /\
  (forall b, ~ In b (block_dirty_tree sbi) ->
     scoutfs_block_data (snd r) b = scoutfs_block_data sbi b /\
     disk (snd r) !! b = disk sbi !! b).
Proof.
  intros [Hn Hi] Hs. cbv zeta.
  destruct (write_dirty_unfold dev sbi Hs Hn) as (Hf & Hsnd).
  rewrite Hf, Hsnd. clear Hf Hsnd.
  set (s0 := set_block_write_err (set_block_writes sbi 1) 0).
  destruct (write_dirty_loop_outcome dev (block_dirty_tree sbi) [] s0 eq_refl Hn Hs)
    as (_ & _ & _ & Htree & Herr & Hdata & Hdisk).
  set (l := write_dirty_loop dev (block_dirty_tree sbi) s0) in *.
  change (scoutfs_block_data s0) with (scoutfs_block_data sbi) in *.
  change (disk s0) with (disk sbi) in *.
  split; [reflexivity|]. split; [exact Htree|]. split; [exact Herr|]. split.
  - intros b Hb.
    assert (Hd : exists d, scoutfs_block_data sbi b = Some d).
    { apply Hi in Hb. unfold is_tracked in Hb. unfold scoutfs_block_data.
      destruct (bufs sbi !! b) as [bh|]; [eauto|discriminate]. }
    destruct Hd as [d Hd]. exists d. split; [exact Hd|].
    change (scoutfs_block_data (set_block_writes (snd l) (block_writes (snd l) - 1)))
      with (scoutfs_block_data (snd l)).
    change (disk (set_block_writes (snd l) (block_writes (snd l) - 1)))
      with (disk (snd l)).
    rewrite Hdata, Hdisk, Hd. apply memb_in_list in Hb. rewrite Hb. cbn [andb].
    split; reflexivity.
  - intros b Hb.
    change (scoutfs_block_data (set_block_writes (snd l) (block_writes (snd l) - 1)))
      with (scoutfs_block_data (snd l)).
    change (disk (set_block_writes (snd l) (block_writes (snd l) - 1)))
      with (disk (snd l)).
    rewrite Hdata, Hdisk, (memb_false _ _ Hb). split; reflexivity.
Qed.

(** A block that was dirtied and written is found again: once its write has
    completed, a read through an empty cache takes the block from the
    device, finds its header in order and returns it verified, with the
    contents it had when it was written and the CRC over them. *)
Theorem written_block_reads_back dev sbi b d :
  dirty_tracked sbi ->
  (forall k, In k (block_dirty_tree sbi) -> submit_bh dev k = 0) ->
  In b (block_dirty_tree sbi) -> write_completes dev b = true ->
  scoutfs_block_data sbi b = Some d ->
  h_blkno (hdr d) = b -> h_fsid (hdr d) = h_fsid (super_hdr sbi) ->
  let s' := set_bufs (snd (scoutfs_block_write_dirty dev sbi)) ∅ in
  scoutfs_block_read s' b =
    (BL b, set_bufs s' {[ b := mk_bh (crc_set d) true true false ]}).
Proof.
  intros [Hn Hi] Hs Hb Hc Hd Hblk Hfs. cbv zeta.
  destruct (write_dirty_unfold dev sbi Hs Hn) as (_ & Hsnd). rewrite Hsnd. clear Hsnd.
  set (s0 := set_block_write_err (set_block_writes sbi 1) 0).
  destruct (write_dirty_loop_outcome dev (block_dirty_tree sbi) [] s0 eq_refl Hn Hs)
    as (_ & _ & Hsup & _ & _ & _ & Hdisk).
  set (l := write_dirty_loop dev (block_dirty_tree sbi) s0) in *.
  change (scoutfs_block_data s0) with (scoutfs_block_data sbi) in *.
  specialize (Hdisk b). apply memb_in_list in Hb. rewrite Hb, Hc, Hd in Hdisk. cbn in Hdisk.
  unfold scoutfs_block_read, sb_bread. cbn [bufs set_bufs disk set_block_writes].
  rewrite lookup_empty, Hdisk. cbn [b_verified].
  assert (Hv : verify_block_header
                 (set_bufs (set_bufs (set_block_writes (snd l) (block_writes (snd l) - 1)) ∅)
                           (<[b := mk_bh (crc_set d) true false false]> ∅))
                 b (mk_bh (crc_set d) true false false) = 0).
  { unfold verify_block_header. cbn [b_data super_hdr set_bufs set_block_writes].
    rewrite Hsup. change (super_hdr s0) with (super_hdr sbi).
    unfold crc_set at 1. cbn [hdr with_crc h_crc h_fsid h_blkno].
    unfold crc_set. rewrite crc_block_with_crc, Z.eqb_refl. cbn [negb].
    cbn [hdr with_crc h_fsid h_blkno]. rewrite Hfs, Hblk, !Z.eqb_refl.
    cbn [negb]. rewrite andb_false_r. reflexivity. }
  rewrite Hv. cbn. f_equal. f_equal.
  rewrite insert_insert_eq. reflexivity.
Qed.

(** *** scoutfs_block_read_ref *)

Lemma sb_bread_disk sbi blkno : disk (snd (sb_bread sbi blkno)) = disk sbi.
Proof.
  unfold sb_bread. destruct (bufs sbi !! blkno) as [bh|].
  - destruct (b_uptodate bh); [reflexivity|]. destruct (disk sbi !! blkno); reflexivity.
  - destruct (disk sbi !! blkno); reflexivity.
Qed.

Lemma block_read_disk sbi blkno : disk (snd (scoutfs_block_read sbi blkno)) = disk sbi.
Proof.
  unfold scoutfs_block_read. pose proof (sb_bread_disk sbi blkno) as H.
  destruct (sb_bread sbi blkno) as [[bh|] s1]; cbn [snd] in *; [|exact H].
  destruct (b_verified bh); [exact H|].
  destruct (verify_block_header s1 blkno bh =? 0); exact H.
Qed.

(** A block whose seq is not the reference's is refused with -EAGAIN and
    its buffer loses the up-to-date bit, but keeps the verified bit.  The
    next read therefore fetches the block from the device again and hands
    back whatever the device holds there, without looking at its header;
    where the device has no such block that read fails with -EIO. *)
Theorem read_ref_stale sbi ref s1 d :
  scoutfs_block_read sbi (r_blkno ref) = (BL (r_blkno ref), s1) ->
  scoutfs_block_data s1 (r_blkno ref) = Some d ->
  h_seq (hdr d) <> r_seq ref ->
  let r := scoutfs_block_read_ref sbi ref in
  let again := scoutfs_block_read (snd r) (r_blkno ref) in
  fst r = ERR_PTR (- EAGAIN) /\
  (exists bh, bufs (snd r) !! r_blkno ref = Some bh /\ b_data bh = d /\
              b_uptodate bh = false /\ b_verified bh = true) /\
  (forall dd, disk sbi !! r_blkno ref = Some dd ->
     fst again = BL (r_blkno ref) /\
     scoutfs_block_data (snd again) (r_blkno ref) = Some dd) /\
  (disk sbi !! r_blkno ref = None -> fst again = ERR_PTR (- EIO)).
Proof.
  intros Hr Hd Hne. cbv zeta.
  destruct (block_read_leaves _ _ _ _ Hr) as (_ & _ & bh & Hb & Hu & Hv).
  pose proof (block_read_disk sbi (r_blkno ref)) as Hdisk. rewrite Hr in Hdisk.
  cbn [snd] in Hdisk.
  assert (Hbd : b_data bh = d).
  { unfold scoutfs_block_data in Hd. rewrite Hb in Hd. cbn in Hd. congruence. }
  unfold scoutfs_block_read_ref. rewrite Hr, Hd.
  destruct (Z.eqb_spec (h_seq (hdr d)) (r_seq ref)); [contradiction|]. cbn [negb fst snd].
  set (s2 := clear_buffer_uptodate s1 (r_blkno ref)).
  assert (Hb2 : bufs s2 !! r_blkno ref =
                Some (mk_bh (b_data bh) false (b_verified bh) (b_private bh))).
  { subst s2. unfold clear_buffer_uptodate. cbn [bufs set_bufs].
    rewrite lookup_alter_eq, Hb. reflexivity. }
  split; [reflexivity|]. split.
  { eexists. split; [exact Hb2|]. cbn. auto. }
  assert (Hd2 : disk s2 = disk sbi) by (subst s2; exact Hdisk).
  split.
  - intros dd Hdd. unfold scoutfs_block_read, sb_bread. rewrite Hb2, Hd2, Hdd.
    cbn [b_uptodate b_verified]. rewrite Hv. cbn [fst snd].
    split; [reflexivity|]. unfold scoutfs_block_data. cbn [bufs set_bufs].
    rewrite lookup_insert_eq. reflexivity.
  - intros Hdd. unfold scoutfs_block_read, sb_bread. rewrite Hb2, Hd2, Hdd.
    reflexivity.
Qed.

(** *** scoutfs_block_dirty_ref, failing *)

Lemma buddy_free_bufs sbi seq blkno order :
  bufs (snd (scoutfs_buddy_free sbi seq blkno order)) = bufs sbi /\
  fst (scoutfs_buddy_free sbi seq blkno order) <= 0.
Proof.
  unfold scoutfs_buddy_free.
  destruct (next_fault sbi) as [f s1] eqn:E.
  destruct (BlockFacts.next_fault_frame _ _ _ E) as (Hf & _ & Hb & _).
  destruct (negb (f =? 0)); [auto|].
  destruct (seq =? h_seq (super_hdr s1)); cbn; split; auto; lia.
Qed.

Lemma alloc_same_bufs place sbi near :
  bufs (snd (scoutfs_buddy_alloc_same place sbi near)) = bufs sbi /\
  (forall x, (fst (fst (scoutfs_buddy_alloc_same place sbi near)) <? 0) = false ->
             x = snd (fst (scoutfs_buddy_alloc_same place sbi near)) ->
             In x (avail (bud sbi))).
Proof.
  pose proof (BlockFacts.alloc_same_ok place sbi near) as H.
  unfold scoutfs_buddy_alloc_same in *.
  destruct (next_fault sbi) as [f s1] eqn:E.
  destruct (BlockFacts.next_fault_frame _ _ _ E) as (Hf & _ & Hb & Hbud & _).
  destruct (negb (f =? 0)).
  - cbn. split; [exact Hb|]. intros x Hx. apply Z.ltb_ge in Hx.
    destruct (H _ _ _ eq_refl) as (_ & Hin & _); [apply Z.ltb_ge; exact Hx|].
    intros ->. exact Hin.
  - destruct (avail (bud s1)) as [|a rest] eqn:Ha.
    + cbn. split; [exact Hb|]. intros x Hx. discriminate.
    + cbn [fst snd bufs set_bud]. split; [exact Hb|]. intros x Hx ->.
      destruct (H _ _ _ eq_refl) as (_ & Hin & _); [reflexivity|exact Hin].
Qed.

Lemma dirty_ref_fail_shape sbi ref ret c blkno :
  fst (dirty_ref_fail sbi ref ret c blkno) = (ERR_PTR ret, ref) /\
  bufs (snd (dirty_ref_fail sbi ref ret c blkno)) = bufs sbi.
Proof.
  unfold dirty_ref_fail. destruct c; [|auto].
  pose proof (buddy_free_bufs sbi (h_seq (super_hdr sbi)) blkno 0) as [H _].
  destruct (scoutfs_buddy_free sbi (h_seq (super_hdr sbi)) blkno 0) as [r s1].
  cbn [fst snd] in *. auto.
Qed.

Lemma block_dirty_outcome_other sbi blkno k :
  k <> blkno ->
  scoutfs_block_data (snd (scoutfs_block_dirty sbi blkno)) k = scoutfs_block_data sbi k.
Proof.
  intros Hk. unfold scoutfs_block_dirty, sb_getblk.
  destruct (next_fault sbi) as [f s1] eqn:E.
  destruct (BlockFacts.next_fault_frame _ _ _ E) as (_ & _ & Hbu & _).
  destruct (negb (f =? 0)).
  { cbn. unfold scoutfs_block_data. rewrite Hbu. reflexivity. }
  set (s2 := match bufs s1 !! blkno with
             | Some _ => s1
             | None => set_bufs s1 (<[blkno := mk_bh zero_data false false false]> (bufs s1))
             end).
  assert (H2 : scoutfs_block_data s2 k = scoutfs_block_data sbi k).
  { subst s2. unfold scoutfs_block_data. rewrite <- Hbu.
    destruct (bufs s1 !! blkno); [reflexivity|]. cbn [bufs set_bufs].
    rewrite lookup_insert_ne by congruence. reflexivity. }
  replace (match bufs s1 !! blkno with
           | Some bh => (Some bh, s1)
           | None => (Some (mk_bh zero_data false false false),
                      set_bufs s1 (<[blkno := mk_bh zero_data false false false]> (bufs s1)))
           end) with (Some (match bufs s1 !! blkno with
                            | Some bh => bh
                            | None => mk_bh zero_data false false false end), s2)
    by (subst s2; destruct (bufs s1 !! blkno); reflexivity).
  pose proof (BlockFacts.insert_bhp_frame s2 blkno) as Hi.
  destruct (insert_bhp s2 blkno) as [ret s3].
  destruct (Hi _ _ eq_refl) as (_ & _ & Hd).
  destruct (ret <? 0); cbn [snd].
  - unfold scoutfs_block_data at 1. rewrite Hd. exact H2.
  - unfold scoutfs_block_data at 1. cbn [bufs set_bufs].
    rewrite lookup_alter_ne by congruence. rewrite Hd. exact H2.
Qed.


(** A [scoutfs_block_dirty_ref] that fails has not moved the reference:
    the caller's reference is as it was, and the block it names, which is
    in use, has the contents it was read with. *)
Theorem dirty_ref_failure place sbi ref e ref' sbi' :
  ~ In (r_blkno ref) (avail (bud sbi)) ->
  scoutfs_block_dirty_ref place sbi ref = (ERR_PTR e, ref', sbi') ->
  ref' = ref /\
  scoutfs_block_data sbi' (r_blkno ref) =
    scoutfs_block_data (snd (scoutfs_block_read sbi (r_blkno ref))) (r_blkno ref).
Proof.
  intros Hfree H. unfold scoutfs_block_dirty_ref in H.
  destruct (scoutfs_block_read sbi (r_blkno ref)) as [[e1|bl] s1] eqn:Er.
  { inversion H; subst. auto. }
  cbn [snd].
  destruct (BlockFacts.block_read_ok _ _ _ _ Er) as (-> & Hs1 & Hbud1 & _).
  destruct (r_seq ref =? h_seq (super_hdr s1)); [discriminate|].
  pose proof (alloc_same_bufs place s1 (r_blkno ref)) as [Hb2 Hin].
  destruct (scoutfs_buddy_alloc_same place s1 (r_blkno ref)) as [[ret blkno] s2] eqn:Ea.
  cbn [fst snd] in Hb2, Hin.
  destruct (ret <? 0) eqn:Eret.
  { destruct (dirty_ref_fail_shape s2 ref ret None 0) as [Hf Hbf].
    rewrite H in Hf, Hbf. cbn [fst snd] in Hf, Hbf. inversion Hf; subst.
    split; [reflexivity|]. unfold scoutfs_block_data. rewrite Hbf, Hb2. reflexivity. }
  assert (Hne : r_blkno ref <> blkno).
  { intros E. apply Hfree. rewrite <- Hbud1. rewrite E. apply Hin; reflexivity. }
  destruct (scoutfs_block_dirty s2 blkno) as [[e3|c] s3] eqn:Ed.
  { destruct (dirty_ref_fail_shape s3 ref e3 None blkno) as [Hf Hbf].
    rewrite H in Hf, Hbf. cbn [fst snd] in Hf, Hbf. inversion Hf; subst.
    split; [reflexivity|].
    pose proof (block_dirty_outcome_other s2 blkno (r_blkno ref) Hne) as Ho.
    rewrite Ed in Ho. cbn [snd] in Ho.
    transitivity (scoutfs_block_data s3 (r_blkno ref));
      [unfold scoutfs_block_data; rewrite Hbf; reflexivity|].
    rewrite Ho. unfold scoutfs_block_data. rewrite Hb2. reflexivity. }
  destruct (BlockFacts.block_dirty_ok _ _ _ _ Ed) as (-> & _ & _ & _ & Hd3).
  assert (Hold3 : scoutfs_block_data s3 (r_blkno ref) = scoutfs_block_data s1 (r_blkno ref)).
  { rewrite Hd3 by exact Hne. unfold scoutfs_block_data. rewrite Hb2. reflexivity. }
  destruct (scoutfs_block_data s3 (r_blkno ref)) as [old|] eqn:Eo.
  2:{ inversion H; subst. split; [reflexivity|]. rewrite Eo. exact Hold3. }
  pose proof (buddy_free_bufs s3 (h_seq (hdr old)) (h_blkno (hdr old)) 0) as [Hb4 _].
  destruct (scoutfs_buddy_free s3 (h_seq (hdr old)) (h_blkno (hdr old)) 0)
    as [r4 s4] eqn:Ef. cbn [snd] in Hb4.
  destruct (negb (r4 =? 0)).
  { destruct (dirty_ref_fail_shape s4 ref r4 (Some blkno) blkno) as [Hf Hbf].
    rewrite H in Hf, Hbf. cbn [fst snd] in Hf, Hbf. inversion Hf; subst.
    split; [reflexivity|]. rewrite <- Hold3, <- Eo.
    unfold scoutfs_block_data. rewrite Hbf, Hb4. reflexivity. }
  destruct (scoutfs_block_data s4 (r_blkno ref)) eqn:E4; [discriminate|].
  exfalso. unfold scoutfs_block_data in E4, Eo. rewrite Hb4, Eo in E4. discriminate.
Qed.

(** *** scoutfs_block_forget *)

(** Forgetting a block takes it out of the commit: the block leaves the
    dirty tree and no other block does, every cached block keeps its
    contents, and the next commit write leaves the device alone at that
    block. *)
Theorem forgotten_block_not_written dev sbi blkno :
  dirty_tracked sbi ->
  let s1 := scoutfs_block_forget sbi blkno in
  (forall k, In k (block_dirty_tree s1) <-> In k (block_dirty_tree sbi) /\ k <> blkno) /\
  (forall k, scoutfs_block_data s1 k = scoutfs_block_data sbi k) /\
  disk s1 = disk sbi /\
  ((forall k, In k (block_dirty_tree s1) -> submit_bh dev k = 0) ->
   disk (snd (scoutfs_block_write_dirty dev s1)) !! blkno = disk sbi !! blkno).
Proof.
  intros Hd. cbv zeta.
  pose proof (forget_tracked sbi blkno Hd) as [Hn1 _].
  destruct Hd as [Hn Hi].
  assert (H1 : forall k, In k (block_dirty_tree (scoutfs_block_forget sbi blkno)) <->
                         In k (block_dirty_tree sbi) /\ k <> blkno).
  { intros k. unfold scoutfs_block_forget.
    assert (Hnot : is_tracked sbi blkno = false ->
                   (In k (block_dirty_tree sbi) <-> In k (block_dirty_tree sbi) /\ k <> blkno)).
    { intros Hf. split; [|tauto]. intros Hk. split; [exact Hk|]. intros ->.
      apply Hi in Hk. congruence. }
    unfold is_tracked in Hnot.
    destruct (bufs sbi !! blkno) as [bh|]; [|apply Hnot; reflexivity].
    destruct (b_private bh); [|apply Hnot; reflexivity].
    unfold erase_bhp. cbn [block_dirty_tree set_bufs set_dirty_tree].
    apply rb_erase_in. exact Hn. }
  assert (H2 : forall k, scoutfs_block_data (scoutfs_block_forget sbi blkno) k =
                         scoutfs_block_data sbi k).
  { intros k. unfold scoutfs_block_forget. destruct (bufs sbi !! blkno) as [bh|]; [|reflexivity].
    destruct (b_private bh); [apply erase_bhp_data|reflexivity]. }
  assert (H3 : disk (scoutfs_block_forget sbi blkno) = disk sbi).
  { unfold scoutfs_block_forget. destruct (bufs sbi !! blkno) as [bh|]; [|reflexivity].
    destruct (b_private bh); reflexivity. }
  split; [exact H1|]. split; [exact H2|]. split; [exact H3|].
  intros Hs. set (s1 := scoutfs_block_forget sbi blkno) in *.
  destruct (write_dirty_unfold dev s1 Hs Hn1) as (_ & Hsnd). rewrite Hsnd.
  set (s0 := set_block_write_err (set_block_writes s1 1) 0).
  destruct (write_dirty_loop_outcome dev (block_dirty_tree s1) [] s0 eq_refl Hn1 Hs)
    as (_ & _ & _ & _ & _ & _ & Hdisk).
  change (disk (set_block_writes ?s _)) with (disk s).
  rewrite Hdisk. rewrite memb_false; [exact (f_equal (fun m => m !! blkno) H3)|].
  rewrite H1. tauto.
Qed.

(** *** at the example states *)

Lemma ex_sbi_tracked : dirty_tracked ex_sbi.
Proof.
  split; [constructor|]. intros b. unfold is_tracked. cbn [ex_sbi bufs block_dirty_tree].
  rewrite lookup_empty. split; [intros []|discriminate].
Qed.

Lemma ex_dirty_sbi_tracked : dirty_tracked ex_dirty_sbi.
Proof. apply block_dirty_tracked. exact ex_sbi_tracked. Qed.

Lemma dirty_tracking_kept_witness :
  dirty_tracked (snd (scoutfs_block_dirty_ref place_nearest ex_dirty_sbi (mk_ref 3 9))) /\
  dirty_tracked (snd (scoutfs_block_write_dirty ex_failing_dev ex_dirty_sbi)).
Proof.
  destruct (dirty_tracking_kept place_nearest ex_dirty_sbi ex_failing_dev 3 (mk_ref 3 9)
              ex_dirty_sbi_tracked) as (_ & _ & _ & H4 & _ & _ & H7).
  split; assumption.
Defined.

Lemma block_dirty_outcome_witness :
  fst (scoutfs_block_dirty ex_sbi 7) = BL 7 /\
  scoutfs_block_read ex_dirty_sbi 7 = (BL 7, ex_dirty_sbi).
Proof.
  destruct (block_dirty_outcome ex_sbi 7 ex_sbi_tracked) as [(F & _)|(H1 & _ & _ & _ & H5)].
  - vm_compute in F. discriminate F.
  - split; [exact H1|exact H5].
Defined.

Lemma dirty_ref_again_witness :
  exists s',
    scoutfs_block_dirty_ref place_nearest ex_sbi (mk_ref 3 9) = (BL 4, mk_ref 4 11, s') /\
    scoutfs_block_dirty_ref place_nearest s' (mk_ref 4 11) = (BL 4, mk_ref 4 11, s').
Proof.
  destruct (scoutfs_block_dirty_ref place_nearest ex_sbi (mk_ref 3 9)) as [[p r'] s'] eqn:E.
  assert (Hp : p = BL 4 /\ r' = mk_ref 4 11) by (vm_compute in E; inversion E; auto).
  destruct Hp as (-> & ->).
  exists s'. split; [reflexivity|].
  exact (dirty_ref_again place_nearest ex_sbi (mk_ref 3 9) 4 (mk_ref 4 11) s' E).
Defined.

Lemma write_dirty_outcome_witness :
  fst (scoutfs_block_write_dirty ex_failing_dev ex_dirty_sbi) = Some 0 /\
  block_dirty_tree (snd (scoutfs_block_write_dirty ex_failing_dev ex_dirty_sbi)) = [7] /\
  block_write_err (snd (scoutfs_block_write_dirty ex_failing_dev ex_dirty_sbi)) = - EIO.
Proof.
  destruct (write_dirty_outcome ex_failing_dev ex_dirty_sbi ex_dirty_sbi_tracked)
    as (H1 & H2 & H3 & _).
  - intros b _. reflexivity.
  - split; [exact H1|]. split; [rewrite H2; reflexivity|rewrite H3; reflexivity].
Defined.

Lemma written_block_reads_back_witness :
  exists d,
    scoutfs_block_data ex_dirty_sbi 7 = Some d /\
    fst (scoutfs_block_read
           (set_bufs (snd (scoutfs_block_write_dirty ex_working_dev ex_dirty_sbi)) ∅) 7)
      = BL 7.
Proof.
  destruct (scoutfs_block_data ex_dirty_sbi 7) as [d|] eqn:Ed;
    [|vm_compute in Ed; discriminate Ed].
  exists d. split; [reflexivity|].
  assert (Hd : h_blkno (hdr d) = 7 /\ h_fsid (hdr d) = h_fsid (super_hdr ex_dirty_sbi)).
  { vm_compute in Ed. inversion Ed. split; reflexivity. }
  destruct Hd as (Hb & Hf).
  rewrite (written_block_reads_back ex_working_dev ex_dirty_sbi 7 d ex_dirty_sbi_tracked).
  - reflexivity.
  - intros k _. reflexivity.
  - vm_compute. auto.
  - reflexivity.
  - exact Ed.
  - exact Hb.
  - exact Hf.
Defined.

Lemma read_ref_stale_witness :
  fst (scoutfs_block_read_ref ex_sbi (mk_ref 3 5)) = ERR_PTR (- EAGAIN) /\
  fst (scoutfs_block_read (snd (scoutfs_block_read_ref ex_sbi (mk_ref 3 5))) 3) = BL 3.
Proof.
  destruct (read_ref_stale ex_sbi (mk_ref 3 5) (snd (scoutfs_block_read ex_sbi 3)) ex_block)
    as (H1 & _ & H3 & _).
  - vm_compute. reflexivity.
  - vm_compute. reflexivity.
  - vm_compute. discriminate.
  - split; [exact H1|]. destruct (H3 ex_block) as (H & _); [reflexivity|exact H].
Defined.

Lemma dirty_ref_failure_witness :
  exists s',
    scoutfs_block_dirty_ref place_nearest (set_faults ex_sbi [FailNoSpace]) (mk_ref 3 9)
      = (ERR_PTR (- ENOSPC), mk_ref 3 9, s') /\
    scoutfs_block_data s' 3 = Some ex_block.
Proof.
  destruct (scoutfs_block_dirty_ref place_nearest (set_faults ex_sbi [FailNoSpace])
              (mk_ref 3 9)) as [[p r'] s'] eqn:E.
  assert (Hp : p = ERR_PTR (- ENOSPC)) by (vm_compute in E; inversion E; reflexivity).
  subst p.
  destruct (dirty_ref_failure place_nearest (set_faults ex_sbi [FailNoSpace]) (mk_ref 3 9)
              (- ENOSPC) r' s') as (-> & Hd).
  - cbn. intros [H|[H|[H|[]]]]; discriminate H.
  - exact E.
  - exists s'. split; [reflexivity|]. cbn [r_blkno] in Hd. rewrite Hd. vm_compute. reflexivity.
Defined.

Lemma forgotten_block_not_written_witness :
  disk (snd (scoutfs_block_write_dirty ex_working_dev (scoutfs_block_forget ex_dirty_sbi 7)))
    !! 7 = None.
Proof.
  destruct (forgotten_block_not_written ex_working_dev ex_dirty_sbi 7 ex_dirty_sbi_tracked)
    as (_ & _ & _ & H).
  rewrite H; [reflexivity|]. intros k _. reflexivity.
Defined.

End BlockMoreFacts.

(* ===================================================================== *)
(** ** Server: commits, inode and seq allocation, reclaim, farewell *)
(* ===================================================================== *)

Module ServerMoreFacts.
Import Server ServerProps.

(** *** scoutfs_server_commit_func *)


(** *** server_alloc_inodes *)

Lemma alloc_inodes_step s rid cmd id arg :
  Forall (fun b => 0 <= b <= 255) arg ->
  0 <= next_ino (super s) <= U64_MAX ->
  let s' := snd (server_alloc_inodes s rid cmd id arg) in
  next_ino (super s) <= next_ino (super s') <= U64_MAX /\
  exists r, sent s' = sent s ++ [r] /\
    (resp_error r = 0 ->
     exists n, 0 <= n /\ resp_data r = InodeAlloc (next_ino (super s)) n /\
               next_ino (super s') = next_ino (super s) + n).
Proof.
  intros Hbytes Hino. cbv zeta. unfold server_alloc_inodes.
  destruct (negb (arg_len arg =? 8)).
  { cbn. split; [lia|]. eexists. split; [reflexivity|]. cbn. unfold EINVAL. lia. }
  unfold scoutfs_server_hold_commit. cbv beta iota zeta. cbn [Z.eqb negb].
  pose proof (ServerFacts.le_to_cpu_nonneg arg Hbytes) as Hc.
  set (i := next_ino (super s)) in *. set (nr := Z.min (le_to_cpu arg) (U64_MAX - i)).
  assert (Hnr : 0 <= nr /\ i + nr <= U64_MAX) by (subst nr; lia).
  set (s2 := set_super s (set_next_ino (super s) (wrap64 (i + nr)))).
  destruct (ServerFacts.apply_commit_spec s2) as (s3 & Hrun & Hsame & _ & _).
  rewrite Hrun. unfold scoutfs_net_response. cbn [snd sent set_sent super].
  destruct Hsame as (Hi & _ & _ & _ & Hs & _).
  assert (Hw : wrap64 (i + nr) = i + nr).
  { unfold wrap64. apply Z.mod_small. unfold U64_MAX in *. lia. }
  assert (Hi2 : next_ino (super s2) = i + nr).
  { subst s2. destruct s as [[] ]. cbn in *. exact Hw. }
  assert (Hs2 : sent s2 = sent s) by (subst s2; destruct s as [[] ]; reflexivity).
  rewrite Hi, Hs, Hi2, Hs2. split; [lia|].
  eexists. split; [reflexivity|]. cbn [resp_error resp_data].
  intros H0. rewrite H0. cbn [Z.eqb]. exists nr. repeat split; lia.
Qed.

(** Inode numbers are handed out once.  Over two successive ALLOC_INODES
    requests, whatever their payloads and whatever becomes of their
    commits, [next_ino] never goes back and never passes U64_MAX, and when
    both are answered with success the second range starts at or after the
    end of the first. *)
Theorem alloc_inodes_never_overlap s rid1 cmd1 id1 arg1 rid2 cmd2 id2 arg2 :
  Forall (fun b => 0 <= b <= 255) arg1 ->
  Forall (fun b => 0 <= b <= 255) arg2 ->
  0 <= next_ino (super s) <= U64_MAX ->
  let s1 := snd (server_alloc_inodes s rid1 cmd1 id1 arg1) in
  let s2 := snd (server_alloc_inodes s1 rid2 cmd2 id2 arg2) in
  next_ino (super s) <= next_ino (super s1) <= next_ino (super s2) /\
  next_ino (super s2) <= U64_MAX /\
  exists r1 r2, sent s2 = sent s ++ [r1; r2] /\
    forall i1 n1 i2 n2,
      resp_error r1 = 0 -> resp_data r1 = InodeAlloc i1 n1 ->
      resp_error r2 = 0 -> resp_data r2 = InodeAlloc i2 n2 ->
      i1 = next_ino (super s) /\ 0 <= n1 /\ 0 <= n2 /\ i2 = i1 + n1 /\
      i2 + n2 = next_ino (super s2).
Proof.
  intros Hb1 Hb2 Hino. cbv zeta.
  destruct (alloc_inodes_step s rid1 cmd1 id1 arg1 Hb1 Hino) as (Hm1 & r1 & Hs1 & Hr1).
  set (s1 := snd (server_alloc_inodes s rid1 cmd1 id1 arg1)) in *.
  assert (Hino1 : 0 <= next_ino (super s1) <= U64_MAX) by lia.
  destruct (alloc_inodes_step s1 rid2 cmd2 id2 arg2 Hb2 Hino1) as (Hm2 & r2 & Hs2 & Hr2).
  split; [lia|]. split; [lia|].
  exists r1, r2. split; [rewrite Hs2, Hs1, <- app_assoc; reflexivity|].
  intros i1 n1 i2 n2 E1 D1 E2 D2.
  destruct (Hr1 E1) as (m1 & Hm1' & Hd1 & Hn1).
  destruct (Hr2 E2) as (m2 & Hm2' & Hd2 & Hn2).
  rewrite D1 in Hd1. rewrite D2 in Hd2. inversion Hd1; inversion Hd2; subst.
  repeat split; try lia.
Qed.

(** *** server_advance_seq and server_get_last_seq together *)

Lemma apply_commit_any s err :
  exists ret s', scoutfs_server_apply_commit s err = (ret, s') /\ same_data s s' /\
                 (err <> 0 -> ret = err /\ s' = s) /\
                 (err = 0 -> ret = commit_outcome s) /\
                 (faults s = [] -> faults s' = []).
Proof.
  destruct (Z.eq_dec err 0) as [->|Hne].
  - destruct (ServerFacts.apply_commit_spec s) as (s' & Hrun & Hsame & _ & Hf).
    exists (commit_outcome s), s'. split; [exact Hrun|]. split; [exact Hsame|].
    split; [intros H; congruence|]. split; [reflexivity|exact Hf].
  - exists err, s. rewrite ServerFacts.apply_commit_err by exact Hne.
    split; [reflexivity|]. split; [repeat split|].
    split; [auto|]. split; [intros H; congruence|auto].
Qed.




(** *** reclaim_rid *)


Lemma same_rest_trans a b c : same_rest a b -> same_rest b c -> same_rest a c.
Proof. unfold same_rest. intuition congruence. Qed.

Lemma same_data_rest s s' : same_data s s' -> same_rest s s'.
Proof. unfold same_data, same_rest. intuition. Qed.

Lemma set_faults_rest s f : same_rest s (set_faults s f).
Proof. repeat split. Qed.

Lemma external_call_frame s :
  let p := external_call s in
  fst p <= 0 /\ fst p <> - ENOENT /\ snd p = set_faults s (tl (faults s)) /\
  (faults s = [] -> fst p = 0).
Proof.
  cbv zeta. destruct (external_call s) as [f s1] eqn:E.
  destruct (ServerFacts.external_call_spec _ _ _ E) as (Hf & Hn & _ & Hs & H0).
  auto.
Qed.

(** One more step of the [?:] chain: a step that touches nothing but the
    fault schedule. *)
Lemma or_call_external a (P : server_info -> Prop) :
  (forall s f, P s -> P (set_faults s f)) ->
  P (snd a) -> fst a <= 0 ->
  let r := or_call a external_call in
  P (snd r) /\ fst r <= 0 /\
  (fst r = 0 -> fst a = 0) /\
  (fst a = 0 -> faults (snd a) = [] -> fst r = 0 /\ faults (snd r) = []).
Proof.
  intros HP Ha Hle. cbv zeta. unfold or_call.
  destruct (Z.eqb_spec (fst a) 0) as [E|E]; cbn [negb].
  - destruct (external_call_frame (snd a)) as (Hf & _ & Hs & H0).
    rewrite Hs in *. split; [apply HP; exact Ha|]. split; [exact Hf|].
    split; [auto|]. intros _ Hnil. split; [auto|]. cbn. rewrite Hnil. reflexivity.
  - split; [exact Ha|]. split; [exact Hle|]. split; [auto|]. intros; contradiction.
Qed.

Lemma filter_none {A} (f : A -> bool) l :
  (forall x, In x l -> f x = true) -> List.filter f l = l.
Proof.
  induction l as [|a l IH]; simpl; intros H; [reflexivity|].
  rewrite (H a) by auto. f_equal. apply IH. auto.
Qed.

Lemma delete_mounted_client_spec s rid :
  let p := delete_mounted_client s rid in
  fst p <= 0 /\ same_rest s (snd p) /\
  trans_seqs (super (snd p)) = trans_seqs (super s) /\
  (fst p <> 0 -> mounted_clients (super (snd p)) = mounted_clients (super s)) /\
  (fst p = 0 ->
   mounted_clients (super (snd p)) = without_client rid (mounted_clients (super s))) /\
  (faults s = [] -> fst p = 0 /\ faults (snd p) = []).
Proof.
  cbv zeta. unfold delete_mounted_client, scoutfs_btree_delete.
  destruct (external_call_frame s) as (Hf & Hnoent & Hs & H0).
  destruct (external_call s) as [f s1]. cbn [fst snd] in *. subst s1.
  destruct (Z.eqb_spec f 0) as [->|Hne]; cbn [negb].
  - cbn [get_root super set_faults]. unfold btree_delete.
    destruct (has_key (mounted_clients (super s)) (init_mounted_client_key rid)) eqn:Hk.
    + cbn [fst snd]. replace (0 =? - ENOENT) with false by reflexivity.
      split; [lia|]. split; [destruct s as [[] ]; repeat split|].
      split; [destruct s as [[] ]; reflexivity|].
      split; [intros H; elim H; reflexivity|].
      split; [intros _; destruct s as [[] ]; reflexivity|].
      intros Hnil. split; [reflexivity|].
      destruct s as [[] ]; cbn in *; subst; reflexivity.
    + cbn [fst snd]. rewrite Z.eqb_refl.
      assert (Hsame : without_client rid (mounted_clients (super s)) = mounted_clients (super s)).
      { apply filter_none. intros x Hx. apply negb_true_iff.
        destruct (key_eqb (fst x) (init_mounted_client_key rid)) eqn:E; [|reflexivity].
        unfold has_key in Hk. apply not_true_iff_false in Hk. exfalso. apply Hk.
        apply existsb_exists. exists x. auto. }
      split; [lia|]. split; [destruct s as [[] ]; repeat split|].
      split; [destruct s as [[] ]; reflexivity|].
      split; [intros H; elim H; reflexivity|].
      split; [intros _; rewrite Hsame; destruct s as [[] ]; reflexivity|].
      intros Hnil. split; [reflexivity|].
      destruct s as [[] ]; cbn in *; subst; reflexivity.
  - cbn [fst snd]. destruct (Z.eqb_spec f (- ENOENT)); [contradiction|].
    split; [exact Hf|]. split; [repeat split|]. split; [reflexivity|].
    split; [reflexivity|]. split; [intros; contradiction|].
    intros Hnil. elim Hne. auto.
Qed.

Lemma reclaim_rid_spec fuel s rid cl :
  trans_seqs_ok (trans_seqs (super s)) = true ->
  (length (trans_seqs (super s)) < fuel)%nat ->
  exists ret s1,
    reclaim_rid fuel s rid cl = Some (ret, s1) /\
    same_rest s s1 /\
    (forall x, In x (trans_seqs (super s1)) -> In x (trans_seqs (super s))) /\
    (mounted_clients (super s1) = mounted_clients (super s) \/
     mounted_clients (super s1) = without_client rid (mounted_clients (super s)) /\
     trans_seqs (super s1) = without_seqs rid (trans_seqs (super s))) /\
    (ret = 0 ->
     trans_seqs (super s1) = without_seqs rid (trans_seqs (super s)) /\
     mounted_clients (super s1) = without_client rid (mounted_clients (super s))) /\
    (faults s = [] -> forcing_unmount s = false -> ret = 0 /\ faults s1 = []).
Proof.
  intros Hok Hlen. unfold reclaim_rid, scoutfs_server_hold_commit.
  cbv beta iota zeta. cbn [Z.ltb Z.compare].
  destruct (external_call_frame s) as (Hf & _ & Hs & H0).
  destruct (external_call s) as [f sa]. cbn [fst snd] in *. subst sa.
  set (sa := set_faults s (tl (faults s))).
  destruct (Z.eqb_spec f 0) as [->|Hne]; cbn [negb].
  2:{ rewrite ServerFacts.apply_commit_err by exact Hne.
      exists f, sa. split; [reflexivity|]. split; [apply set_faults_rest|].
      split; [auto|]. split; [left; reflexivity|].
      split; [intros; contradiction|]. intros Hnil. elim Hne; auto. }
  assert (Hoka : trans_seqs_ok (trans_seqs (super sa)) = true) by exact Hok.
  destruct (ServerFacts.remove_trans_seq_locked_spec fuel sa rid Hoka Hlen)
    as (ret & t' & f' & Hrun & Hle & Hnf & Hz & Hsub & _).
  unfold remove_trans_seq. rewrite Hrun. cbn [mbind option_bind].
  set (b := (ret, with_trans_seqs sa t' f')).
  set (P := fun x : server_info =>
              same_rest s x /\ trans_seqs (super x) = t' /\
              mounted_clients (super x) = mounted_clients (super s)).
  assert (HPf : forall x g, P x -> P (set_faults x g)).
  { intros x g (H1 & H2 & H3). repeat split; try apply H1; assumption. }
  assert (HPb : P (snd b)).
  { subst b sa. cbn [snd]. destruct s as [[] ]. repeat split. }
  destruct (or_call_external b P HPf HPb Hle) as (P1 & L1 & Z1 & N1).
  set (r1 := or_call b external_call) in *.
  destruct (or_call_external r1 P HPf P1 L1) as (P2 & L2 & Z2 & N2).
  set (r2 := or_call r1 external_call) in *.
  destruct (or_call_external r2 P HPf P2 L2) as (P3 & L3 & Z3 & N3).
  set (r3 := or_call r2 external_call) in *.
  set (r4 := or_call r3 (fun s0 => if cl then external_call s0 else (0, s0))).
  assert (H4 : P (snd r4) /\ fst r4 <= 0 /\ (fst r4 = 0 -> fst r3 = 0) /\
               (fst r3 = 0 -> faults (snd r3) = [] -> fst r4 = 0 /\ faults (snd r4) = [])).
  { subst r4. destruct cl; [apply or_call_external; assumption|].
    unfold or_call. destruct (Z.eqb_spec (fst r3) 0) as [E|E]; cbn [negb fst snd].
    - split; [exact P3|]. split; [lia|]. split; [auto|]. intros _ Hn. auto.
    - split; [exact P3|]. split; [exact L3|]. split; [auto|]. intros; contradiction. }
  destruct H4 as (P4 & L4 & Z4 & N4).
  set (r := or_call r4 (fun s0 => delete_mounted_client s0 rid)).
  assert (Hall0 : fst r4 = 0 -> ret = 0).
  { intros E. apply Z1, Z2, Z3, Z4, E. }
  assert (Hr : fst r <= 0 /\ same_rest s (snd r) /\
               trans_seqs (super (snd r)) = t' /\
               (fst r = 0 -> ret = 0 /\
                  mounted_clients (super (snd r)) =
                    without_client rid (mounted_clients (super s))) /\
               (mounted_clients (super (snd r)) = mounted_clients (super s) \/
                ret = 0 /\ mounted_clients (super (snd r)) =
                    without_client rid (mounted_clients (super s))) /\
               (fst r4 = 0 -> faults (snd r4) = [] -> fst r = 0 /\ faults (snd r) = [])).
  { subst r. unfold or_call. destruct P4 as (R4 & T4 & M4).
    destruct (Z.eqb_spec (fst r4) 0) as [E|E]; cbn [negb].
    - destruct (delete_mounted_client_spec (snd r4) rid) as (Dl & Dr & Dt & Dn & Dz & Df).
      split; [exact Dl|]. split; [eapply same_rest_trans; eauto|].
      split; [congruence|]. split.
      + intros Ez. split; [auto|]. rewrite (Dz Ez), M4. reflexivity.
      + split.
        * destruct (Z.eq_dec (fst (delete_mounted_client (snd r4) rid)) 0) as [Ez|Ez].
          -- right. split; [auto|]. rewrite (Dz Ez), M4. reflexivity.
          -- left. rewrite (Dn Ez), M4. reflexivity.
        * intros _ Hnil. apply Df. exact Hnil.
    - split; [exact L4|]. split; [exact R4|]. split; [exact T4|].
      split; [intros; contradiction|]. split; [left; exact M4|]. intros; contradiction. }
  destruct Hr as (Lr & Rr & Tr & Zr & Mr & Nr).
  destruct (apply_commit_any (snd r) (fst r)) as (ret5 & s5 & Hrun5 & Hsame & Herr & Hzero & Hnf5).
  replace (scoutfs_server_apply_commit (snd r) (fst r)) with (ret5, s5).
  exists ret5, s5. split; [reflexivity|].
  assert (Ht5 : trans_seqs (super s5) = t') by (rewrite <- Tr; apply Hsame).
  assert (Hm5 : mounted_clients (super s5) = mounted_clients (super (snd r))) by apply Hsame.
  assert (Hret : ret5 = 0 -> fst r = 0).
  { intros E. destruct (Z.eq_dec (fst r) 0) as [|Hn]; [assumption|].
    destruct (Herr Hn) as [H _]. congruence. }
  split; [eapply same_rest_trans; [exact Rr|apply same_data_rest; exact Hsame]|].
  split; [intros x Hx; apply Hsub; rewrite <- Ht5; exact Hx|].
  split.
  { rewrite Hm5, Ht5. destruct Mr as [M|[Z0 M]]; [left; exact M|right].
    split; [exact M|]. exact (Hz Z0). }
  split.
  { intros E. destruct (Zr (Hret E)) as (Z0 & M). rewrite Hm5, Ht5.
    split; [exact (Hz Z0)|exact M]. }
  intros Hnil Hu.
  assert (Hnila : faults sa = []) by (subst sa; cbn; rewrite Hnil; reflexivity).
  destruct (Hnf Hnila) as (Z0 & F0).
  assert (Fb : faults (snd b) = []).
  { subst b. cbn [snd]. rewrite F0. destruct sa as [[] ]; reflexivity. }
  destruct (N1 Z0 Fb) as (E1 & F1). destruct (N2 E1 F1) as (E2 & F2).
  destruct (N3 E2 F2) as (E3 & F3). destruct (N4 E3 F3) as (E4 & F4).
  destruct (Nr E4 F4) as (E5 & F5).
  split; [|apply Hnf5; exact F5].
  rewrite (Hzero E5). apply ServerFacts.commit_outcome_no_fault; [|exact F5].
  destruct Rr as (_ & _ & _ & _ & _ & Hfu). rewrite Hfu. exact Hu.
Qed.

Lemma filter_idem {A} (f : A -> bool) l :
  List.filter f (List.filter f l) = List.filter f l.
Proof.
  apply filter_none. intros x Hx. apply filter_In in Hx. tauto.
Qed.


(** Reclaiming a client twice is as good as once: when nothing fails, the
    first call returns 0 with the client's open seqs and record gone, and a
    second call returns 0 again and finds nothing more to remove. *)
Theorem reclaim_rid_twice fuel s rid clear_leader :
  trans_seqs_ok (trans_seqs (super s)) = true ->
  (length (trans_seqs (super s)) < fuel)%nat ->
  faults s = [] -> forcing_unmount s = false ->
  exists s1 s2,
    reclaim_rid fuel s rid clear_leader = Some (0, s1) /\
    trans_seqs (super s1) = without_seqs rid (trans_seqs (super s)) /\
    mounted_clients (super s1) = without_client rid (mounted_clients (super s)) /\
    reclaim_rid fuel s1 rid clear_leader = Some (0, s2) /\
    trans_seqs (super s2) = trans_seqs (super s1) /\
    mounted_clients (super s2) = mounted_clients (super s1).
Proof.
  intros Hok Hlen Hnil Hu.
  destruct (reclaim_rid_spec fuel s rid clear_leader Hok Hlen)
    as (ret & s1 & Hrun & Hrest & _ & _ & Hz & Hnf).
  destruct (Hnf Hnil Hu) as (-> & Hnil1). destruct (Hz eq_refl) as (Ht1 & Hm1).
  assert (Hok1 : trans_seqs_ok (trans_seqs (super s1)) = true).
  { rewrite Ht1. apply ServerFacts.forallb_filter. exact Hok. }
  assert (Hlen1 : (length (trans_seqs (super s1)) < fuel)%nat).
  { rewrite Ht1. eapply Nat.le_lt_trans; [apply ServerFacts.filter_length_bound|exact Hlen]. }
  destruct (reclaim_rid_spec fuel s1 rid clear_leader Hok1 Hlen1)
    as (ret2 & s2 & Hrun2 & _ & _ & _ & Hz2 & Hnf2).
  assert (Hu1 : forcing_unmount s1 = false).
  { destruct Hrest as (_ & _ & _ & _ & _ & H). rewrite H. exact Hu. }
  destruct (Hnf2 Hnil1 Hu1) as (-> & _). destruct (Hz2 eq_refl) as (Ht2 & Hm2).
  exists s1, s2. split; [exact Hrun|]. split; [exact Ht1|]. split; [exact Hm1|].
  split; [exact Hrun2|]. rewrite Ht2, Hm2, Ht1, Hm1.
  unfold without_seqs, without_client. rewrite !filter_idem. auto.
Qed.

(** *** farewell_worker *)





Lemma client_record_without_same rid (t : btree) :
  client_record (without_client rid t) rid = None.
Proof.
  unfold client_record, without_client.
  match goal with |- ?t = None => destruct t as [x|] eqn:E; [|reflexivity] end.
  apply find_some in E. destruct E as (Hin & Hk). apply filter_In in Hin.
  destruct Hin as (_ & Hn). rewrite Hk in Hn. discriminate.
Qed.





(** *** at the example states *)

Lemma alloc_inodes_never_overlap_witness :
  exists r1 r2,
    sent (snd (server_alloc_inodes
                 (snd (server_alloc_inodes ex_server 1 2 70 [10; 0; 0; 0; 0; 0; 0; 0]))
                 2 2 71 [5; 0; 0; 0; 0; 0; 0; 0])) = [r1; r2] /\
    resp_data r1 = InodeAlloc 100 10 /\ resp_data r2 = InodeAlloc 110 5.
Proof.
  destruct (alloc_inodes_never_overlap ex_server 1 2 70 [10; 0; 0; 0; 0; 0; 0; 0]
              2 2 71 [5; 0; 0; 0; 0; 0; 0; 0])
    as (_ & _ & r1 & r2 & Hsent & _).
  - repeat (constructor; [lia|]). constructor.
  - repeat (constructor; [lia|]). constructor.
  - vm_compute. split; discriminate.
  - exists r1, r2. split; [exact Hsent|].
    vm_compute in Hsent. inversion Hsent. split; reflexivity.
Defined.



Lemma reclaim_rid_twice_witness :
  exists s1 s2,
    reclaim_rid 4 ex_server 1 false = Some (0, s1) /\
    trans_seqs (super s1) = [(init_trans_seq_key 3 2, [])] /\
    reclaim_rid 4 s1 1 false = Some (0, s2) /\
    trans_seqs (super s2) = [(init_trans_seq_key 3 2, [])].
Proof.
  destruct (reclaim_rid_twice 4 ex_server 1 false)
    as (s1 & s2 & H1 & Ht1 & _ & H2 & Ht2 & _); try reflexivity.
  - simpl. lia.
  - exists s1, s2. split; [exact H1|]. split; [exact Ht1|].
    split; [exact H2|]. rewrite Ht2. exact Ht1.
Defined.


End ServerMoreFacts.

(* ===================================================================== *)
(** ** Zone bitmaps *)
(* ===================================================================== *)

Module ZonesFacts.
Import Zones.

Lemma mod_extent_loop_spec set last : forall fuel bits nr,
  0 <= nr -> last < U64_MAX -> nr <= last + 1 ->
  (Z.to_nat (last - nr + 1) < fuel)%nat ->
  exists bits',
    mod_extent_loop fuel bits nr last set = Some bits' /\
    forall m, 0 <= m ->
      Z.testbit bits' m =
      if (nr <=? m) && (m <=? last) then set else Z.testbit bits m.
Proof.
  induction fuel as [|fuel IH]; intros bits nr Hnr Hlast Hle Hfuel; [lia|].
  cbn [mod_extent_loop]. destruct (Z.leb_spec nr last) as [Hin|Hout].
  - assert (Hw : wrap64 (nr + 1) = nr + 1).
    { unfold wrap64. apply Z.mod_small. unfold U64_MAX in *. lia. }
    rewrite Hw.
    destruct (IH (if set then set_bit_le nr bits else clear_bit_le nr bits) (nr + 1))
      as (bits' & Hrun & Hbits); try lia.
    exists bits'. split; [exact Hrun|]. intros m Hm. rewrite (Hbits m Hm).
    destruct (Z.leb_spec (nr + 1) m), (Z.leb_spec nr m), (Z.leb_spec m last);
      cbn [andb]; try lia; try reflexivity;
      destruct set; unfold set_bit_le, clear_bit_le;
      first [ apply Z.setbit_neq; lia
            | apply Z.clearbit_neq; lia
            | replace m with nr by lia; apply Z.setbit_eq; lia
            | replace m with nr by lia; apply Z.clearbit_eq ].
  - exists bits. split; [reflexivity|]. intros m Hm.
    destruct (Z.leb_spec nr m), (Z.leb_spec m last); cbn [andb]; try lia; reflexivity.
Qed.

Lemma zone_overlaps_range zb m blkno len :
  0 < zb -> 0 <= blkno -> 0 < len ->
  zone_overlaps zb m blkno len =
  (blkno / zb <=? m) && (m <=? (blkno + len - 1) / zb).
Proof.
  intros Hzb Hb Hl. unfold zone_overlaps.
  pose proof (Z.div_mod blkno zb ltac:(lia)) as E1.
  pose proof (Z.mod_pos_bound blkno zb Hzb) as B1.
  pose proof (Z.div_mod (blkno + len - 1) zb ltac:(lia)) as E2.
  pose proof (Z.mod_pos_bound (blkno + len - 1) zb Hzb) as B2.
  destruct (Z.ltb_spec (m * zb) (blkno + len)), (Z.ltb_spec blkno ((m + 1) * zb)),
    (Z.leb_spec (blkno / zb) m), (Z.leb_spec m ((blkno + len - 1) / zb));
    cbn [andb]; try reflexivity; exfalso; nia.
Qed.

Lemma zones_count_bound zb blkno len :
  0 < zb -> 0 <= blkno -> 0 < len ->
  (blkno + len - 1) / zb - blkno / zb + 1 <= len / zb + 2.
Proof.
  intros Hzb Hb Hl.
  pose proof (Z.div_mod blkno zb ltac:(lia)) as E1.
  pose proof (Z.mod_pos_bound blkno zb Hzb) as B1.
  pose proof (Z.div_mod (blkno + len - 1) zb ltac:(lia)) as E2.
  pose proof (Z.mod_pos_bound (blkno + len - 1) zb Hzb) as B2.
  pose proof (Z.div_mod len zb ltac:(lia)) as E3.
  pose proof (Z.mod_pos_bound len zb Hzb) as B3.
  nia.
Qed.

Lemma mod_extent_bits_spec fuel bits zb blkno len set :
  0 < zb -> 0 <= blkno -> 0 < len -> blkno + len <= U64_MAX ->
  (Z.to_nat (len / zb + 2) < fuel)%nat ->
  exists bits',
    mod_extent_bits fuel bits zb blkno len set = Some bits' /\
    forall m, 0 <= m ->
      Z.testbit bits' m =
      if zone_overlaps zb m blkno len then set else Z.testbit bits m.
Proof.
  intros Hzb Hb Hl Hmax Hfuel. unfold mod_extent_bits.
  destruct (Z.eqb_spec zb 0); [lia|]. destruct (Z.eqb_spec len 0); [lia|].
  assert (Hw : wrap64 (blkno + len - 1) = blkno + len - 1).
  { unfold wrap64. apply Z.mod_small. unfold U64_MAX in *. lia. }
  rewrite Hw.
  pose proof (zones_count_bound zb blkno len Hzb Hb Hl) as Hcount.
  assert (Hfirst : 0 <= blkno / zb) by (apply Z.div_pos; lia).
  assert (Hlast : (blkno + len - 1) / zb < U64_MAX).
  { apply Z.div_lt_upper_bound; [lia|]. unfold U64_MAX in *. nia. }
  assert (Hord : blkno / zb <= (blkno + len - 1) / zb + 1).
  { assert (blkno / zb <= (blkno + len - 1) / zb) by (apply Z.div_le_mono; lia). lia. }
  destruct (mod_extent_loop_spec set ((blkno + len - 1) / zb) fuel bits (blkno / zb))
    as (bits' & Hrun & Hbits); try assumption; [lia|].
  exists bits'. split; [exact Hrun|]. intros m Hm.
  rewrite (Hbits m Hm), zone_overlaps_range by assumption. reflexivity.
Qed.


Lemma find_next_bit_from_spec addr : forall n off,
  let r := find_next_bit_from addr n off in
  off <= r <= off + Z.of_nat n /\
  (forall k, off <= k < r -> Z.testbit addr k = false) /\
  (r < off + Z.of_nat n -> Z.testbit addr r = true).
Proof.
  induction n as [|n IH]; intros off; cbn [find_next_bit_from].
  - cbv zeta. split; [lia|]. split; [intros; lia|lia].
  - destruct (Z.testbit addr off) eqn:E; cbv zeta.
    + split; [lia|]. split; [intros; lia|auto].
    + destruct (IH (off + 1)) as (Hr & Hno & Hset). cbv zeta in *.
      split; [lia|]. split.
      * intros k Hk. destruct (Z.eq_dec k off) as [->|]; [exact E|]. apply Hno. lia.
      * intros H. apply Hset. lia.
Qed.

Lemma find_next_bit_le_spec addr size off :
  0 <= off <= size ->
  let r := find_next_bit_le addr size off in
  off <= r <= size /\
  (forall k, off <= k < r -> Z.testbit addr k = false) /\
  (r < size -> Z.testbit addr r = true).
Proof.
  intros Hoff. unfold find_next_bit_le. destruct (Z.leb_spec size off); cbv zeta.
  - split; [lia|]. split; [intros; lia|lia].
  - destruct (find_next_bit_from_spec addr (Z.to_nat (size - off)) off) as (Hr & Hno & Hset).
    cbv zeta in *. rewrite Z2Nat.id in * by lia.
    split; [lia|]. split; [exact Hno|]. intros Hlt. apply Hset. lia.
Qed.

Lemma existsb_seqZ (f : Z -> bool) a len :
  existsb f (seqZ a len) = true <-> exists n, a <= n < a + len /\ f n = true.
Proof.
  rewrite existsb_exists. split.
  - intros (n & Hin & Hf). exists n. split; [|exact Hf].
    apply list_elem_of_In, elem_of_seqZ in Hin. lia.
  - intros (n & Hn & Hf). exists n. split; [|exact Hf].
    apply list_elem_of_In, elem_of_seqZ. lia.
Qed.

Lemma mod_bitmap_loop_spec efuel max_zones dzb src szb set :
  0 < dzb -> 0 < szb -> 0 <= max_zones -> max_zones * szb <= U64_MAX ->
  (Z.to_nat (szb / dzb + 2) < efuel)%nat ->
  forall fuel dst nr,
    0 <= nr <= max_zones -> (Z.to_nat (max_zones - nr) < fuel)%nat ->
    exists dst',
      mod_bitmap_loop fuel efuel max_zones dst dzb src szb set nr = Some dst' /\
      forall m, 0 <= m ->
        Z.testbit dst' m =
        if existsb (fun n => Z.testbit src n && zone_overlaps dzb m (n * szb) szb)
                   (seqZ nr (max_zones - nr))
        then set else Z.testbit dst m.
Proof.
  intros Hd Hs Hmax Hspace Hef.
  induction fuel as [|fuel IH]; intros dst nr Hnr Hfuel; [lia|].
  cbn [mod_bitmap_loop].
  destruct (find_next_bit_le_spec src max_zones nr Hnr) as (Hr & Hno & Hset).
  set (r := find_next_bit_le src max_zones nr) in *. cbv zeta in *.
  destruct (Z.leb_spec max_zones r) as [Hend|Hfound].
  - exists dst. split; [reflexivity|]. intros m Hm.
    replace (existsb _ (seqZ nr (max_zones - nr))) with false; [reflexivity|].
    symmetry. apply not_true_iff_false. rewrite existsb_seqZ.
    intros (n & Hn & Hf). apply andb_true_iff in Hf. destruct Hf as (Hb & _).
    rewrite Hno in Hb by lia. discriminate.
  - assert (Hw : wrap64 (r * szb) = r * szb).
    { unfold wrap64. apply Z.mod_small. unfold U64_MAX in *. nia. }
    rewrite Hw.
    destruct (mod_extent_bits_spec efuel dst dzb (r * szb) szb set)
      as (dst1 & Hrun1 & Hbits1); try assumption; try nia.
    rewrite Hrun1. cbn [mbind option_bind].
    destruct (IH dst1 (r + 1)) as (dst' & Hrun & Hbits); try lia.
    exists dst'. split; [exact Hrun|]. intros m Hm.
    rewrite (Hbits m Hm), (Hbits1 m Hm).
    set (f := fun n => Z.testbit src n && zone_overlaps dzb m (n * szb) szb).
    assert (Heq : existsb f (seqZ nr (max_zones - nr)) =
                  zone_overlaps dzb m (r * szb) szb ||
                  existsb f (seqZ (r + 1) (max_zones - (r + 1)))).
    { apply eq_iff_eq_true. rewrite orb_true_iff, !existsb_seqZ. split.
      - intros (n & Hn & Hf). destruct (Z.lt_trichotomy n r) as [Hlt|[->|Hgt]].
        + subst f. cbv beta in Hf. rewrite Hno in Hf by lia. discriminate.
        + left. subst f. cbv beta in Hf. apply andb_true_iff in Hf. tauto.
        + right. exists n. split; [lia|exact Hf].
      - intros [Ho|(n & Hn & Hf)].
        + exists r. split; [lia|]. subst f. cbv beta. rewrite (Hset Hfound), Ho. reflexivity.
        + exists n. split; [lia|exact Hf]. }
    rewrite Heq. clear Heq.
    destruct (zone_overlaps dzb m (r * szb) szb); cbn [orb];
      destruct (existsb f (seqZ (r + 1) (max_zones - (r + 1)))); reflexivity.
Qed.


Lemma zone_overlaps_same zb m n :
  0 < zb -> zone_overlaps zb m (n * zb) zb = (n =? m).
Proof.
  intros Hzb. unfold zone_overlaps.
  destruct (Z.ltb_spec (m * zb) (n * zb + zb)), (Z.ltb_spec (n * zb) ((m + 1) * zb)),
    (Z.eqb_spec n m); cbn [andb]; try reflexivity; exfalso; nia.
Qed.

(** Between bitmaps of one zone size the translation is bit for bit:
    setting leaves the destination with its own bits and the source's,
    clearing leaves it with its own bits that the source has not, for the
    zones below the limit; bits at or above the limit are as they were. *)
Theorem mod_bitmap_bits_same_size fuel efuel max_zones dst src zb set :
  0 < zb -> 0 <= max_zones -> max_zones * zb <= U64_MAX ->
  (3 < efuel)%nat -> (Z.to_nat max_zones < fuel)%nat ->
  exists dst',
    mod_bitmap_bits fuel efuel max_zones dst zb src zb set = Some dst' /\
    forall m, 0 <= m ->
      Z.testbit dst' m =
      if m <? max_zones
      then (if set then Z.testbit dst m || Z.testbit src m
            else Z.testbit dst m && negb (Z.testbit src m))
      else Z.testbit dst m.
Proof.
  intros Hzb Hmax Hspace Hef Hf. unfold mod_bitmap_bits.
  assert (Hef' : (Z.to_nat (zb / zb + 2) < efuel)%nat).
  { rewrite Z.div_same by lia. change (Z.to_nat (1 + 2)) with 3%nat. exact Hef. }
  destruct (mod_bitmap_loop_spec efuel max_zones zb src zb set Hzb Hzb Hmax Hspace Hef'
              fuel dst 0) as (dst' & Hrun & Hbits); [lia|rewrite Z.sub_0_r; exact Hf|].
  exists dst'. split; [exact Hrun|]. intros m Hm. rewrite (Hbits m Hm), Z.sub_0_r.
  assert (Heq : existsb (fun n => Z.testbit src n && zone_overlaps zb m (n * zb) zb)
                        (seqZ 0 max_zones) = (m <? max_zones) && Z.testbit src m).
  { apply eq_iff_eq_true. rewrite existsb_seqZ, andb_true_iff, Z.ltb_lt. split.
    - intros (n & Hn & Hb). apply andb_true_iff in Hb. destruct Hb as (Hb & Ho).
      rewrite zone_overlaps_same in Ho by exact Hzb. apply Z.eqb_eq in Ho. subst n.
      split; [lia|exact Hb].
    - intros (Hlt & Hb). exists m. split; [lia|].
      rewrite Hb, zone_overlaps_same by exact Hzb. rewrite Z.eqb_refl. reflexivity. }
  rewrite Heq. destruct (m <? max_zones), (Z.testbit src m), set, (Z.testbit dst m);
    reflexivity.
Qed.



Lemma mod_bitmap_bits_same_size_witness :
  exists dst',
    mod_bitmap_bits 9 4 8 5 10 3 10 false = Some dst' /\
    Z.testbit dst' 0 = false /\ Z.testbit dst' 2 = true.
Proof.
  destruct (mod_bitmap_bits_same_size 9 4 8 5 3 10 false) as (dst' & Hrun & Hbits);
    [lia|lia|vm_compute; discriminate|lia|vm_compute; lia|].
  exists dst'. split; [exact Hrun|].
    repeat split; rewrite Hbits by lia; reflexivity.
Defined.

End ZonesFacts.

(* ===================================================================== *)
(** ** Greeting and mounted clients *)
(* ===================================================================== *)

Module GreetingFacts.
Import Server ServerProps Greeting.
Import ServerMoreFacts.

Lemma insert_mounted_client_spec FQ s rid flags :
  let p := insert_mounted_client FQ s rid flags in
  let item := (init_mounted_client_key rid,
               [if negb (Z.land flags FQ =? 0) then SCOUTFS_MOUNTED_CLIENT_QUORUM else 0]) in
  fst p <= 0 /\ same_rest s (snd p) /\
  trans_seqs (super (snd p)) = trans_seqs (super s) /\
  (fst p <> 0 -> mounted_clients (super (snd p)) = mounted_clients (super s)) /\
  (fst p = 0 ->
   mounted_clients (super (snd p)) =
     if has_key (mounted_clients (super s)) (init_mounted_client_key rid)
     then mounted_clients (super s) else item :: mounted_clients (super s)) /\
  (faults s = [] -> fst p = 0 /\ faults (snd p) = []).
Proof.
  cbv zeta. unfold insert_mounted_client, scoutfs_btree_insert.
  replace (if negb (Z.land flags FQ =? 0) then Z.lor 0 SCOUTFS_MOUNTED_CLIENT_QUORUM else 0)
    with (if negb (Z.land flags FQ =? 0) then SCOUTFS_MOUNTED_CLIENT_QUORUM else 0)
    by (destruct (negb _); reflexivity).
  set (fl := if negb (Z.land flags FQ =? 0) then SCOUTFS_MOUNTED_CLIENT_QUORUM else 0).
  destruct (external_call s) as [f s1] eqn:E.
  destruct (ServerFacts.external_call_spec _ _ _ E) as (Hf & _ & Hnex & Hs & H0).
  cbn [fst snd] in *. subst s1.
  destruct (Z.eqb_spec f 0) as [->|Hne]; cbn [negb].
  - cbn [get_root super set_faults]. unfold btree_insert.
    destruct (has_key (mounted_clients (super s)) (init_mounted_client_key rid)) eqn:Hk.
    + cbn [fst snd]. rewrite Z.eqb_refl.
      split; [lia|]. split; [destruct s as [[] ]; repeat split|].
      split; [destruct s as [[] ]; reflexivity|].
      split; [intros H; elim H; reflexivity|].
      split; [intros _; destruct s as [[] ]; reflexivity|].
      intros Hnil. split; [reflexivity|].
      destruct s as [[] ]; cbn in *; subst; reflexivity.
    + cbn [fst snd]. replace (0 =? - EEXIST) with false by reflexivity.
      split; [lia|]. split; [destruct s as [[] ]; repeat split|].
      split; [destruct s as [[] ]; reflexivity|].
      split; [intros H; elim H; reflexivity|].
      split; [intros _; destruct s as [[] ]; reflexivity|].
      intros Hnil. split; [reflexivity|].
      destruct s as [[] ]; cbn in *; subst; reflexivity.
  - cbn [fst snd]. destruct (Z.eqb_spec f (- EEXIST)); [contradiction|].
    split; [exact Hf|]. split; [repeat split|]. split; [reflexivity|].
    split; [reflexivity|]. split; [intros; contradiction|].
    intros Hnil. elim Hne. auto.
Qed.


Lemma client_record_has_key (mc : btree) rid :
  has_key mc (init_mounted_client_key rid) = true <-> is_Some (client_record mc rid).
Proof.
  unfold has_key, client_record. split.
  - intros H. apply existsb_exists in H. destruct H as (x & Hx & Hk).
    match goal with |- is_Some ?t => destruct t eqn:E; [eauto|] end.
    pose proof (find_none _ _ E x Hx) as F. cbv beta in F. congruence.
  - intros [x Hx]. apply find_some in Hx. apply existsb_exists. exists x. exact Hx.
Qed.

(** A mounted-client record is written once and removed for good.  When
    no tree operation fails, registering a client returns 0 and leaves a
    record for it: the one that was there, untouched, if there was one,
    and otherwise a new one that carries the quorum flag exactly when the
    greeting asked for it; no other record changes.  Deleting the client
    afterwards returns 0 and leaves the tree as it was without the
    client's record, and deleting a client that has none returns 0 as
    well. *)
Theorem mounted_client_round_trip FLAG_QUORUM s rid gr_flags :
  faults s = [] ->
  let mc := mounted_clients (super s) in
  let p := insert_mounted_client FLAG_QUORUM s rid gr_flags in
  let mc1 := mounted_clients (super (snd p)) in
  let d := delete_mounted_client (snd p) rid in
  fst p = 0 /\
  (forall old, client_record mc rid = Some old -> mc1 = mc) /\
  (client_record mc rid = None ->
   exists r, mc1 = r :: mc /\ client_record mc1 rid = Some r /\
             is_quorum r = negb (Z.land gr_flags FLAG_QUORUM =? 0)) /\
  fst d = 0 /\
  mounted_clients (super (snd d)) = without_client rid mc /\
  client_record (mounted_clients (super (snd d))) rid = None.
Proof.
  intros Hnil. cbv zeta.
  destruct (insert_mounted_client_spec FLAG_QUORUM s rid gr_flags)
    as (_ & _ & _ & _ & Hz & Hnf).
  cbv zeta in *. destruct (Hnf Hnil) as (Hp0 & Hnil1). specialize (Hz Hp0).
  set (p := insert_mounted_client FLAG_QUORUM s rid gr_flags) in *.
  destruct (delete_mounted_client_spec (snd p) rid) as (_ & _ & _ & _ & Dz & Df).
  cbv zeta in *. destruct (Df Hnil1) as (Hd0 & _). specialize (Dz Hd0).
  split; [exact Hp0|].
  destruct (has_key (mounted_clients (super s)) (init_mounted_client_key rid)) eqn:Hk.
  - apply client_record_has_key in Hk as Hsome. destruct Hsome as [old Hold].
    split; [intros; exact Hz|]. split; [intros H; congruence|].
    split; [exact Hd0|]. rewrite Dz, Hz. split; [reflexivity|].
    apply client_record_without_same.
  - assert (Hnone : client_record (mounted_clients (super s)) rid = None).
    { destruct (client_record _ rid) eqn:E; [|reflexivity].
      assert (H : is_Some (client_record (mounted_clients (super s)) rid)) by (rewrite E; eauto).
      apply client_record_has_key in H. congruence. }
    split; [intros old H; congruence|]. split.
    + intros _. eexists. split; [exact Hz|]. rewrite Hz. split.
      * unfold client_record. cbn [List.find fst]. rewrite ServerFacts.key_eqb_refl.
        reflexivity.
      * unfold is_quorum, mcv_flags. cbn [snd hd].
        destruct (negb (Z.land gr_flags FLAG_QUORUM =? 0)); reflexivity.
    + split; [exact Hd0|]. rewrite Dz, Hz. split; [|apply client_record_without_same].
      unfold without_client. cbn [List.filter fst]. rewrite ServerFacts.key_eqb_refl.
      reflexivity.
Qed.








Lemma mounted_client_round_trip_witness :
  fst (insert_mounted_client 1 ex_server 9 1) = 0 /\
  client_record
    (mounted_clients
       (super (snd (delete_mounted_client
                      (snd (insert_mounted_client 1 ex_server 9 1)) 9)))) 9 = None.
Proof.
  pose proof (mounted_client_round_trip 1 ex_server 9 1 eq_refl) as H.
  cbv zeta in H. destruct H as (H1 & _ & _ & _ & _ & H6).
  split; [exact H1|exact H6].
Defined.

End GreetingFacts.

(* ===================================================================== *)
(** ** Volume options *)
(* ===================================================================== *)

Module VoloptFacts.
Import Server ServerProps Volopt.
Import ServerMoreFacts.

Lemma land_pow2 a i :
  0 <= i -> (Z.land a (2 ^ i) =? 0) = negb (Z.testbit a i).
Proof.
  intros Hi. destruct (Z.testbit a i) eqn:E; cbn [negb].
  - apply Z.eqb_neq. intros H.
    assert (F : Z.testbit (Z.land a (2 ^ i)) i = true).
    { rewrite Z.land_spec, E, Z.pow2_bits_true by lia. reflexivity. }
    rewrite H, Z.bits_0 in F. discriminate.
  - apply Z.eqb_eq. apply Z.bits_inj'. intros n Hn.
    rewrite Z.land_spec, Z.bits_0, Z.pow2_bits_eqb by lia.
    destruct (Z.eqb_spec i n) as [->|]; [rewrite E|]; auto using andb_false_r.
Qed.

Lemma wrap64_pow2 i : 0 <= i < 64 -> wrap64 (2 ^ i) = 2 ^ i.
Proof.
  intros Hi. unfold wrap64. apply Z.mod_small. split; [lia|].
  apply Z.pow_lt_mono_r; lia.
Qed.

Lemma wrap64_shift_pow2 i :
  0 <= i -> wrap64 (Z.shiftl (wrap64 (2 ^ i)) 1) = wrap64 (2 ^ (i + 1)).
Proof.
  intros Hi. unfold wrap64. rewrite Z.shiftl_mul_pow2 by lia.
  rewrite Z.pow_add_r by lia. change (2 ^ 1) with 2.
  rewrite Z.mul_mod_idemp_l by lia. reflexivity.
Qed.

Lemma testbit_clear64 a i j :
  0 <= i < 64 -> 0 <= j < 64 ->
  Z.testbit (Z.land a (wrap64 (Z.lnot (2 ^ i)))) j =
  Z.testbit a j && negb (j =? i).
Proof.
  intros Hi Hj. rewrite Z.land_spec. f_equal. unfold wrap64.
  rewrite Z.mod_pow2_bits_low by lia.
  rewrite Z.lnot_spec, Z.pow2_bits_eqb by lia.
  rewrite (Z.eqb_sym i j). reflexivity.
Qed.

Lemma clear_volopt_loop_spec n : forall i bit arg sv,
  0 <= i -> i + Z.of_nat n <= 64 -> bit = wrap64 (2 ^ i) ->
  length (valopts sv) = 64%nat ->
  length (valopts (clear_volopt_loop n i bit arg sv)) = 64%nat /\
  forall j, 0 <= j < 64 ->
    Z.testbit (set_bits (clear_volopt_loop n i bit arg sv)) j =
      Z.testbit (set_bits sv) j &&
      negb ((i <=? j) && (j <? i + Z.of_nat n) && Z.testbit arg j) /\
    first_valopt (clear_volopt_loop n i bit arg sv) j =
      if (i <=? j) && (j <? i + Z.of_nat n) && Z.testbit arg j
      then 0 else first_valopt sv j.
Proof.
  induction n as [|n IH]; intros i bit arg sv Hi Hn Hbit Hlen.
  - cbn [clear_volopt_loop]. split; [exact Hlen|]. intros j Hj.
    destruct (Z.leb_spec i j), (Z.ltb_spec j (i + Z.of_nat 0)); try lia;
      cbn [andb negb]; rewrite andb_true_r; auto.
  - cbn [clear_volopt_loop]. subst bit.
    rewrite (wrap64_pow2 i) by lia. rewrite land_pow2 by lia. rewrite negb_involutive.
    set (sv1 := if Z.testbit arg i then _ else sv).
    assert (Hlen1 : length (valopts sv1) = 64%nat).
    { subst sv1. destruct (Z.testbit arg i); [|exact Hlen].
      cbn [valopts]. rewrite length_insert. exact Hlen. }
    destruct (IH (i + 1) (wrap64 (Z.shiftl (2 ^ i) 1)) arg sv1) as (Hl & Hb);
      [lia|lia| |exact Hlen1|].
    { rewrite <- (wrap64_pow2 i) at 1 by lia. apply wrap64_shift_pow2. lia. }
    split; [exact Hl|]. intros j Hj.
    destruct (Hb j Hj) as (Hb1 & Hb2). rewrite Hb1, Hb2. clear Hb Hb1 Hb2 IH.
    assert (Hsv1 : Z.testbit (set_bits sv1) j =
                   Z.testbit (set_bits sv) j && negb ((j =? i) && Z.testbit arg i) /\
                   first_valopt sv1 j =
                   if (j =? i) && Z.testbit arg i then 0 else first_valopt sv j).
    { subst sv1. destruct (Z.testbit arg i) eqn:Ei.
      - cbn [set_bits valopts]. rewrite testbit_clear64 by lia.
        rewrite andb_true_r. split; [reflexivity|]. unfold first_valopt. cbn [valopts].
        destruct (Z.eqb_spec j i) as [->|Hne].
        + rewrite nth_lookup, list_lookup_insert_eq; [reflexivity|]. rewrite Hlen. lia.
        + rewrite !nth_lookup. rewrite list_lookup_insert_ne; [reflexivity|]. lia.
      - rewrite andb_false_r. cbn [negb]. rewrite andb_true_r. auto. }
    destruct Hsv1 as (-> & ->).
    destruct (Z.eqb_spec j i) as [->|Hne].
    + destruct (Z.leb_spec (i + 1) i), (Z.leb_spec i i),
        (Z.ltb_spec i (i + Z.of_nat (S n))); try lia.
      cbn [andb negb]. destruct (Z.testbit arg i); cbn [negb andb];
        rewrite ?andb_true_r; auto.
    + replace (i + 1 + Z.of_nat n) with (i + Z.of_nat (S n)) by lia.
      destruct (Z.leb_spec (i + 1) j), (Z.leb_spec i j); try lia;
        cbn [andb negb]; rewrite ?andb_true_r; auto.
Qed.

(** The [for] loop over all 64 options unsets the named ones and zeroes
    their values. *)
Lemma clear_volopt_all arg sv j :
  length (valopts sv) = 64%nat -> 0 <= j < 64 ->
  Z.testbit (set_bits (clear_volopt_loop 64 0 1 arg sv)) j =
    Z.testbit (set_bits sv) j && negb (Z.testbit arg j) /\
  first_valopt (clear_volopt_loop 64 0 1 arg sv) j =
    if Z.testbit arg j then 0 else first_valopt sv j.
Proof.
  intros Hlen Hj.
  destruct (clear_volopt_loop_spec 64 0 1 arg sv) as (_ & H);
    [lia|lia|reflexivity|exact Hlen|].
  destruct (H j Hj) as (H1 & H2). rewrite H1, H2.
  assert (Hin : (0 <=? j) && (j <? 0 + Z.of_nat 64) = true).
  { destruct (Z.leb_spec 0 j), (Z.ltb_spec j (0 + Z.of_nat 64)); try lia; reflexivity. }
  rewrite Hin. cbn [andb]. auto.
Qed.

Lemma volopt_apply_spec v ret rid cmd id :
  exists e,
    let v' := snd (volopt_apply v ret rid cmd id) in
    sent (vs_core v') = sent (vs_core v) ++ [mk_resp rid cmd id e NoData] /\
    vs_sent v' = vs_sent v /\
    vs_total_data_blocks v' = vs_total_data_blocks v /\
    vs_super_volopt v' = vs_volopt v' /\
    (ret <> 0 -> e = ret) /\
    (e = 0 -> vs_volopt v' = vs_super_volopt v) /\
    (e <> 0 -> vs_volopt v' = vs_volopt v) /\
    (ret = 0 -> faults (vs_core v) = [] -> forcing_unmount (vs_core v) = false -> e = 0).
Proof.
  unfold volopt_apply.
  destruct (apply_commit_any (vs_core v) ret) as (e & s' & Hrun & Hsame & Herr & Hok & Hf).
  rewrite Hrun. exists e. cbv zeta. unfold scoutfs_net_response.
  destruct Hsame as (_ & _ & _ & _ & Hsent & _).
  destruct (Z.eqb_spec e 0) as [->|Hne];
    cbn [snd set_core set_volopt set_super_volopt vs_core vs_volopt vs_super_volopt
         vs_total_data_blocks vs_sent sent set_sent]; rewrite Hsent.
  - split; [reflexivity|]. split; [reflexivity|]. split; [reflexivity|].
    split; [reflexivity|].
    split. { intros Hr. destruct (Herr Hr) as (F & _). congruence. }
    split; [reflexivity|]. split; [intros F; elim F; reflexivity|]. auto.
  - split; [reflexivity|]. split; [reflexivity|]. split; [reflexivity|].
    split; [reflexivity|].
    split. { intros Hr. destruct (Herr Hr) as (F & _). exact F. }
    split; [intros F; contradiction|]. split; [reflexivity|].
    intros Hr Hnil Hfu. rewrite (Hok Hr). apply ServerFacts.commit_outcome_no_fault; assumption.
Qed.

Lemma volopt_reject_spec v ret rid cmd id :
  snd (volopt_reject v ret rid cmd id) =
  set_core v (set_sent (vs_core v) (sent (vs_core v) ++ [mk_resp rid cmd id ret NoData])).
Proof. reflexivity. Qed.

(** SET_VOLOPT answers with exactly one response, and the options that
    readers see change only with a response of 0.  A request of the wrong
    size or with an expansion bit is answered with -EINVAL and touches
    neither copy of the options.  A request that asks for
    [data_alloc_zone_blocks] below the fill target, below a
    [SCOUTFS_DATA_ALLOC_MAX_ZONES]th of the data blocks, or above the data
    blocks is answered with -EINVAL.  After any request of the right size
    without expansion bits the super block's options equal the in-memory
    ones: both are the updated options on success, and both are the old
    in-memory options on failure.  A successful request for
    [data_alloc_zone_blocks] makes [get_volopt_val] report the option set
    to the requested value. *)
Theorem set_volopt_outcome EXPANSION_BITS FILL_TARGET MAX_ZONES
        v rid cmd id arg_len volopt :
  length (valopts (vs_super_volopt v)) = 64%nat ->
  let r := server_set_volopt EXPANSION_BITS FILL_TARGET MAX_ZONES
                             v rid cmd id arg_len volopt in
  let v' := snd r in
  let opt := data_alloc_zone_blocks volopt in
  let well_formed := (arg_len =? sizeof_volume_options) &&
                     (Z.land (set_bits volopt) EXPANSION_BITS =? 0) in
  let asks := negb (Z.land (set_bits volopt)
                           SCOUTFS_VOLOPT_DATA_ALLOC_ZONE_BLOCKS_BIT =? 0) in
  exists e,
    sent (vs_core v') = sent (vs_core v) ++ [mk_resp rid cmd id e NoData] /\
    vs_sent v' = vs_sent v /\
    (e <> 0 -> vs_volopt v' = vs_volopt v) /\
    (well_formed = false ->
     e = - EINVAL /\ vs_super_volopt v' = vs_super_volopt v) /\
    (well_formed = true -> vs_super_volopt v' = vs_volopt v') /\
    (well_formed = true -> asks = true ->
     opt < FILL_TARGET \/ opt < vs_total_data_blocks v / MAX_ZONES \/
     vs_total_data_blocks v < opt -> e = - EINVAL) /\
    (e = 0 -> asks = false -> vs_volopt v' = vs_super_volopt v) /\
    (e = 0 -> asks = true ->
     FILL_TARGET <= opt /\
     vs_total_data_blocks v / MAX_ZONES <= opt <= vs_total_data_blocks v /\
     vs_volopt v' =
       mk_volopt (Z.lor (set_bits (vs_super_volopt v))
                        SCOUTFS_VOLOPT_DATA_ALLOC_ZONE_BLOCKS_BIT)
                 (<[0%nat := opt]> (valopts (vs_super_volopt v))) /\
     get_volopt_val v' SCOUTFS_VOLOPT_DATA_ALLOC_ZONE_BLOCKS_NR = (true, opt)) /\
    (well_formed = true ->
     (asks = true ->
      FILL_TARGET <= opt /\
      vs_total_data_blocks v / MAX_ZONES <= opt <= vs_total_data_blocks v) ->
     faults (vs_core v) = [] -> forcing_unmount (vs_core v) = false -> e = 0).
Proof.
  intros Hlen. cbv zeta. unfold server_set_volopt.
  destruct (Z.eqb_spec arg_len sizeof_volume_options) as [Hl|Hl]; cbn [negb andb].
  2:{ exists (- EINVAL). rewrite volopt_reject_spec.
      cbn [set_core vs_core vs_sent vs_volopt vs_super_volopt sent set_sent].
      unfold EINVAL. repeat split; auto; try discriminate. }
  destruct (Z.eqb_spec (Z.land (set_bits volopt) EXPANSION_BITS) 0) as [Hx|Hx]; cbn [negb].
  2:{ exists (- EINVAL). rewrite volopt_reject_spec.
      cbn [set_core vs_core vs_sent vs_volopt vs_super_volopt sent set_sent].
      unfold EINVAL. repeat split; auto; try discriminate. }
  unfold scoutfs_server_hold_commit. change (negb (0 =? 0)) with false. cbv iota.
  assert (Hv : set_core v (vs_core v) = v) by (destruct v; reflexivity).
  rewrite Hv.
  assert (Hfail : exists e,
    let v' := snd (volopt_apply v (- EINVAL) rid cmd id) in
    e = - EINVAL /\
    sent (vs_core v') = sent (vs_core v) ++ [mk_resp rid cmd id e NoData] /\
    vs_sent v' = vs_sent v /\ vs_volopt v' = vs_volopt v /\
    vs_super_volopt v' = vs_volopt v').
  { destruct (volopt_apply_spec v (- EINVAL) rid cmd id)
      as (e & Hs & Hvs & _ & Heq & Hr & _ & Hne & _). cbv zeta in *.
    assert (He : e = - EINVAL) by (apply Hr; unfold EINVAL; lia).
    assert (Hn0 : e <> 0) by (rewrite He; unfold EINVAL; lia).
    exists e. repeat split; auto. }
  cbv zeta in Hfail. destruct Hfail as (e0 & He0 & Hf1 & Hf2 & Hf3 & Hf4).
  destruct (Z.land (set_bits volopt) SCOUTFS_VOLOPT_DATA_ALLOC_ZONE_BLOCKS_BIT =? 0) eqn:Hask;
    cbn [negb].
  - destruct (volopt_apply_spec v 0 rid cmd id)
      as (e & Hs & Hvs & _ & Heq & _ & Hz & Hne & Hok). cbv zeta in *.
    exists e. repeat split; auto; try discriminate.
  - assert (Hbad : exists e, e = - EINVAL /\ e <> 0) by (exists (- EINVAL); unfold EINVAL; lia).
    destruct (Z.ltb_spec (data_alloc_zone_blocks volopt) FILL_TARGET) as [H1|H1].
    { exists e0.
      split; [exact Hf1|]. split; [exact Hf2|]. split; [intros _; exact Hf3|].
      split; [discriminate|]. split; [intros _; exact Hf4|].
      split; [intros _ _ _; exact He0|]. split; [intros _ F; discriminate F|].
      split; [intros F; rewrite He0 in F; discriminate F|].
      intros _ Hr _ _. exfalso. destruct (Hr eq_refl) as (A & B & C).
      set (q := vs_total_data_blocks v / MAX_ZONES) in *. lia. }
    destruct (Z.ltb_spec (data_alloc_zone_blocks volopt)
                         (vs_total_data_blocks v / MAX_ZONES)) as [H2|H2].
    { exists e0.
      split; [exact Hf1|]. split; [exact Hf2|]. split; [intros _; exact Hf3|].
      split; [discriminate|]. split; [intros _; exact Hf4|].
      split; [intros _ _ _; exact He0|]. split; [intros _ F; discriminate F|].
      split; [intros F; rewrite He0 in F; discriminate F|].
      intros _ Hr _ _. exfalso. destruct (Hr eq_refl) as (A & B & C).
      set (q := vs_total_data_blocks v / MAX_ZONES) in *. lia. }
    destruct (Z.ltb_spec (vs_total_data_blocks v) (data_alloc_zone_blocks volopt)) as [H3|H3].
    { exists e0.
      split; [exact Hf1|]. split; [exact Hf2|]. split; [intros _; exact Hf3|].
      split; [discriminate|]. split; [intros _; exact Hf4|].
      split; [intros _ _ _; exact He0|]. split; [intros _ F; discriminate F|].
      split; [intros F; rewrite He0 in F; discriminate F|].
      intros _ Hr _ _. exfalso. destruct (Hr eq_refl) as (A & B & C).
      set (q := vs_total_data_blocks v / MAX_ZONES) in *. lia. }
    match goal with
    | |- context [volopt_apply ?x 0 rid cmd id] =>
        destruct (volopt_apply_spec x 0 rid cmd id)
          as (e & Hs & Hvs & _ & Heq & _ & Hz & Hne & Hok)
    end.
    cbv zeta in *.
    cbn [set_super_volopt vs_core vs_sent vs_volopt vs_super_volopt] in Hs, Hvs, Hz, Hne, Hok.
    exists e.
    split; [exact Hs|]. split; [exact Hvs|]. split; [exact Hne|].
    split; [discriminate|]. split; [intros _; exact Heq|].
    split.
    { intros _ _ Hor. exfalso.
      set (q := vs_total_data_blocks v / MAX_ZONES) in *. lia. }
    split; [discriminate|].
    split.
    { intros He _. split; [lia|].
      split; [set (q := vs_total_data_blocks v / MAX_ZONES) in *; lia|].
      split; [apply Hz; exact He|].
      unfold get_volopt_val. rewrite (Hz He). cbn [set_bits valopts].
      change (wrap64 (Z.shiftl 1 SCOUTFS_VOLOPT_DATA_ALLOC_ZONE_BLOCKS_NR)) with (2 ^ 0).
      rewrite land_pow2 by lia. rewrite negb_involutive.
      rewrite Z.lor_spec. change (Z.testbit SCOUTFS_VOLOPT_DATA_ALLOC_ZONE_BLOCKS_BIT 0) with true.
      rewrite orb_true_r. unfold first_valopt. cbn [valopts].
      change (Z.to_nat SCOUTFS_VOLOPT_DATA_ALLOC_ZONE_BLOCKS_NR) with 0%nat.
      rewrite nth_lookup, list_lookup_insert_eq; [reflexivity|]. rewrite Hlen. lia. }
    intros _ _ Hnil Hfu. apply Hok; auto.
Qed.

Lemma super_volopt_set v o : vs_super_volopt (set_super_volopt v o) = o.
Proof. reflexivity. Qed.

Lemma set_super_volopt_rest v o :
  vs_core (set_super_volopt v o) = vs_core v /\
  vs_sent (set_super_volopt v o) = vs_sent v /\
  vs_volopt (set_super_volopt v o) = vs_volopt v.
Proof. repeat split. Qed.

(** CLEAR_VOLOPT answers with exactly one response, and the options that
    readers see change only with a response of 0.  After a response of 0
    every option named in the request is unset and its value is 0, every
    other option keeps its bit and its value, and [get_volopt_val] reports
    each named option as unset with value 0. *)
Theorem clear_volopt_outcome EXPANSION_BITS v rid cmd id arg_len volopt :
  length (valopts (vs_super_volopt v)) = 64%nat ->
  let r := server_clear_volopt EXPANSION_BITS v rid cmd id arg_len volopt in
  let v' := snd r in
  exists e,
    sent (vs_core v') = sent (vs_core v) ++ [mk_resp rid cmd id e NoData] /\
    (e <> 0 -> vs_volopt v' = vs_volopt v) /\
    (e = 0 ->
     vs_super_volopt v' = vs_volopt v' /\
     forall j, 0 <= j < 64 ->
       let named := Z.testbit (set_bits volopt) j in
       Z.testbit (set_bits (vs_volopt v')) j =
         Z.testbit (set_bits (vs_super_volopt v)) j && negb named /\
       first_valopt (vs_volopt v') j =
         (if named then 0 else first_valopt (vs_super_volopt v) j) /\
       (named = true -> get_volopt_val v' j = (false, 0))).
Proof.
  intros Hlen. cbv zeta. unfold server_clear_volopt.
  destruct (Z.eqb_spec arg_len sizeof_volume_options) as [Hl|Hl]; cbn [negb andb].
  2:{ exists (- EINVAL). rewrite volopt_reject_spec.
      cbn [set_core vs_core vs_sent vs_volopt vs_super_volopt sent set_sent].
      unfold EINVAL. repeat split; auto; try discriminate. }
  destruct (Z.eqb_spec (Z.land (set_bits volopt) EXPANSION_BITS) 0) as [Hx|Hx]; cbn [negb].
  2:{ exists (- EINVAL). rewrite volopt_reject_spec.
      cbn [set_core vs_core vs_sent vs_volopt vs_super_volopt sent set_sent].
      unfold EINVAL. repeat split; auto; try discriminate. }
  unfold scoutfs_server_hold_commit. change (negb (0 =? 0)) with false. cbv iota.
  assert (Hv : set_core v (vs_core v) = v) by (destruct v; reflexivity).
  rewrite Hv.
  remember (clear_volopt_loop 64 0 1 (set_bits volopt) (vs_super_volopt v))
    as sv' eqn:Hsv'.
  match goal with
  | |- context [volopt_apply ?x 0 rid cmd id] =>
      destruct (volopt_apply_spec x 0 rid cmd id)
        as (e & Hs & Hvs & _ & Heq & _ & Hz & Hne & Hok)
  end.
  cbv zeta in *.
  destruct (set_super_volopt_rest v sv') as (Rc & Rs & Rv).
  rewrite Rc in Hs, Hok. rewrite Rs in Hvs. rewrite super_volopt_set in Hz.
  rewrite Rv in Hne.
  exists e. split; [exact Hs|]. split; [exact Hne|].
  intros He. split; [exact Heq|]. intros j Hj.
  destruct (clear_volopt_all (set_bits volopt) (vs_super_volopt v) j Hlen Hj)
    as (Hb1 & Hb2).
  rewrite <- Hsv' in Hb1, Hb2.
  rewrite (Hz He). split; [exact Hb1|]. split; [exact Hb2|].
  intros Hnamed. unfold get_volopt_val. rewrite (Hz He).
  rewrite Z.shiftl_1_l, wrap64_pow2, land_pow2 by lia.
  rewrite negb_involutive, Hb1, Hnamed, andb_false_r. reflexivity.
Qed.

Lemma set_volopt_outcome_witness :
  exists e,
    sent (vs_core (snd (server_set_volopt 0 100 10 ex_volopt_server 1 9 77
                          sizeof_volume_options (mk_volopt 1 (50 :: repeat 0 63))))) =
      [mk_resp 1 9 77 e NoData] /\
    e = - EINVAL.
Proof.
  destruct (set_volopt_outcome 0 100 10 ex_volopt_server 1 9 77
              sizeof_volume_options (mk_volopt 1 (50 :: repeat 0 63)) eq_refl)
    as (e & Hsent & _ & _ & _ & _ & Hbad & _).
  exists e. split; [exact Hsent|].
  apply Hbad; [reflexivity|reflexivity|]. left. vm_compute. reflexivity.
Defined.

Lemma clear_volopt_outcome_witness :
  exists e,
    sent (vs_core (snd (server_clear_volopt 0 ex_zoned_server 1 10 78
                          sizeof_volume_options (mk_volopt 1 (repeat 0 64))))) =
      [mk_resp 1 10 78 e NoData] /\
    (e = 0 ->
     get_volopt_val (snd (server_clear_volopt 0 ex_zoned_server 1 10 78
                            sizeof_volume_options (mk_volopt 1 (repeat 0 64)))) 0 =
     (false, 0)).
Proof.
  destruct (clear_volopt_outcome 0 ex_zoned_server 1 10 78
              sizeof_volume_options (mk_volopt 1 (repeat 0 64)) eq_refl)
    as (e & Hsent & _ & Hok).
  exists e. split; [exact Hsent|]. intros He.
  destruct (Hok He) as (_ & Hbits).
  destruct (Hbits 0 ltac:(lia)) as (_ & _ & Hget). apply Hget. reflexivity.
Defined.

End VoloptFacts.
